(** * Group service of wise-old-man: a shallow embedding and its properties

    The service (the second document of
    [src/server/src/api/jobs/instances/AddToGroupCompetitions.js]) is
    business logic over a relational store.  The embedding below keeps
    the shape of the JavaScript: strings are sequences of UTF-16 code
    units, plain objects are finite maps from property names to values,
    the tables are lists of rows in the order the store returns them,
    and every [async] function is a computation in a state-and-error
    monad over the database. *)

From Stdlib Require Import ZArith QArith Ascii String DecimalString.
From stdpp Require Import base decidable option list gmap strings sorting.

Set Warnings "-register-all".

Local Open Scope Z_scope.

(** ** JavaScript values *)

Module JS.

(** A string is its sequence of UTF-16 code units. *)
Definition char := N.
Definition jsstring := list N.

(** A literal of the source text. *)
Definition lit (s : string) : jsstring :=
  (fun a => N_of_ascii a) <$> list_ascii_of_string s.

Definition SPACE : char := 32%N.
Definition UNDERSCORE : char := 95%N.
Definition HYPHEN : char := 45%N.

(** [WhiteSpace] and [LineTerminator] of ECMAScript, the code units that
    [String.prototype.trim] strips (U+180E is not in [Zs] since
    Unicode 6.3). *)
Definition is_whitespace (c : char) : bool :=
  (bool_decide (c ∈ [9; 10; 11; 12; 13; 32; 160; 5760; 8232; 8233;
                     8239; 8287; 12288; 65279])
   || (8192 <=? c) && (c <=? 8202))%N.

Fixpoint trimStart (s : jsstring) : jsstring :=
  match s with
  | c :: s' => if is_whitespace c then trimStart s' else s
  | [] => []
  end.

Definition trimEnd (s : jsstring) : jsstring := reverse (trimStart (reverse s)).

(** [s.trim()] *)
Definition trim (s : jsstring) : jsstring := trimEnd (trimStart s).

(** [s.replace(/c/g, d)] for a single code unit [c] and a one-unit
    replacement [d]. *)
Definition replace_all (c d : char) (s : jsstring) : jsstring :=
  (fun x => if bool_decide (x = c) then d else x) <$> s.

(** [s.replace(/ +(?= )/g, '')]: a match is a run of spaces that is
    followed by one more space, so of every maximal run of spaces all
    but the last are removed. *)
Fixpoint remove_spaces_before_space (s : jsstring) : jsstring :=
  match s with
  | c :: s' =>
      match s' with
      | d :: _ =>
          if bool_decide (c = SPACE) && bool_decide (d = SPACE)
          then remove_spaces_before_space s'
          else c :: remove_spaces_before_space s'
      | [] => [c]
      end
  | [] => []
  end.

(** [s.toLowerCase()].  The case mapping is written out for the Basic
    Latin and Latin-1 letters; other code units are left as they are. *)
Definition toLowerCase_char (c : char) : char :=
  if ((65 <=? c) && (c <=? 90))%N then (c + 32)%N
  else if ((192 <=? c) && (c <=? 222) && negb (c =? 215))%N then (c + 32)%N
  else c.

Definition toLowerCase (s : jsstring) : jsstring := toLowerCase_char <$> s.

(** Code-unit order on strings, the order of [<] on JavaScript strings. *)
Fixpoint lex_compare (a b : jsstring) : comparison :=
  match a, b with
  | [], [] => Eq
  | [], _ :: _ => Lt
  | _ :: _, [] => Gt
  | x :: a', y :: b' =>
      match (x ?= y)%N with
      | Eq => lex_compare a' b'
      | o => o
      end
  end.

Definition lex_le (a b : jsstring) : Prop := lex_compare a b ≠ Gt.

Inductive jsval :=
| VUndefined
| VNull
| VBool (b : bool)
| VNum (z : Z)
| VNaN
| VStr (s : jsstring)
| VDate (t : Z)
| VObj (o : gmap string jsval)
| VArr (l : list jsval).

(** A plain object. *)
Abbreviation obj := (gmap string jsval).

(** Numbers that arise from a division: a rational, an infinity or NaN. *)
Inductive jsnum :=
| NaN
| Inf (negative : bool)
| Fin (q : Q).

(** [ToString] of an integer-valued number (below 10^21 in magnitude,
    where the decimal digits are printed). *)
Definition Z_to_string (z : Z) : jsstring :=
  lit (NilZero.string_of_int (Z.to_int z)).

Fixpoint join (sep : jsstring) (l : list jsstring) : jsstring :=
  match l with
  | [] => []
  | [s] => s
  | s :: l' => s ++ sep ++ join sep l'
  end.

(** [ToString(v)]; a plain object prints as ["[object Object]"], an
    array as its elements joined by commas ([null] and [undefined]
    elements print as the empty string).  A date prints in a
    locale-dependent format that is not spelled out here: it is
    rendered as its time value. *)
Fixpoint ToString (v : jsval) : jsstring :=
  match v with
  | VUndefined => lit "undefined"
  | VNull => lit "null"
  | VBool true => lit "true"
  | VBool false => lit "false"
  | VNum z => Z_to_string z
  | VNaN => lit "NaN"
  | VStr s => s
  | VDate t => Z_to_string t
  | VObj _ => lit "[object Object]"
  | VArr l =>
      join (lit ",")
        ((fun x => match x with
                   | VUndefined | VNull => []
                   | _ => ToString x
                   end) <$> l)
  end.

Definition is_decimal_digit (c : char) : bool := ((48 <=? c) && (c <=? 57))%N.

Definition digits_value (s : jsstring) : Z :=
  foldl (fun acc c => 10 * acc + (Z.of_N c - 48)) 0 s.

(** [StringToNumber]: surrounding white space is ignored, the empty
    string is [0], a run of decimal digits is its value.  Every other
    string that is not a [StringNumericLiteral] is [NaN]; the signed,
    fractional, exponent, radix-prefixed and [Infinity] literals, none
    of which contains a bracket, are not spelled out and also read
    as [NaN] here. *)
Definition StringToNumber (s : jsstring) : jsnum :=
  let t := trim s in
  if forallb is_decimal_digit t then Fin (inject_Z (digits_value t)) else NaN.

(** [ToNumber(v)] *)
Definition ToNumber (v : jsval) : jsnum :=
  match v with
  | VUndefined => NaN
  | VNull => Fin 0
  | VBool true => Fin 1
  | VBool false => Fin 0
  | VNum z => Fin (inject_Z z)
  | VNaN => NaN
  | VStr s => StringToNumber s
  | VDate t => Fin (inject_Z t)
  | VObj _ | VArr _ => StringToNumber (ToString v)
  end.

(** [a + b]: both operands are converted with [ToPrimitive]; a string,
    an object, an array or a date turns the operation into string
    concatenation, otherwise the operands are added as numbers
    (integers here; [undefined] and [NaN] give [NaN]). *)
Definition primitive_is_string (v : jsval) : bool :=
  match v with
  | VStr _ | VDate _ | VObj _ | VArr _ => true
  | _ => false
  end.

Definition integer_of (v : jsval) : option Z :=
  match v with
  | VNull => Some 0
  | VBool b => Some (if b then 1 else 0)
  | VNum z => Some z
  | _ => None
  end.

Definition add (a b : jsval) : jsval :=
  if primitive_is_string a || primitive_is_string b
  then VStr (ToString a ++ ToString b)
  else match integer_of a, integer_of b with
       | Some x, Some y => VNum (x + y)
       | _, _ => VNaN
       end.

(** [x / n] for a number [x] and an array length [n]. *)
Definition div_length (x : jsnum) (n : nat) : jsnum :=
  match x, n with
  | NaN, _ => NaN
  | Inf s, _ => Inf s
  | Fin q, O =>
      match Qcompare q 0 with
      | Eq => NaN
      | Lt => Inf true
      | Gt => Inf false
      end
  | Fin q, S _ => Fin (q / inject_Z (Z.of_nat n))
  end.

(** [x >= c] for an integer constant [c]; every comparison with [NaN]
    is false. *)
Definition ge_const (x : jsnum) (c : Z) : bool :=
  match x with
  | NaN => false
  | Inf negative => negb negative
  | Fin q => Qle_bool (inject_Z c) q
  end.

(** Truthiness of the values the service tests with [!x]. *)
Definition truthy_string (s : jsstring) : bool :=
  match s with [] => false | _ => true end.

Definition truthy_opt_string (s : option jsstring) : bool :=
  from_option truthy_string false s.

Definition truthy_num (z : Z) : bool := negb (z =? 0).

Definition truthy (v : jsval) : bool :=
  match v with
  | VUndefined | VNull | VNaN | VBool false => false
  | VNum z => truthy_num z
  | VStr s => truthy_string s
  | _ => true
  end.

(** [arr.slice(start, end)] *)
Definition slice {A} (start stop : Z) (l : list A) : list A :=
  let len := Z.of_nat (length l) in
  let k := if start <? 0 then Z.max (len + start) 0 else Z.min start len in
  let final := if stop <? 0 then Z.max (len + stop) 0 else Z.min stop len in
  take (Z.to_nat (final - k)) (drop (Z.to_nat k) l).

(** [arr.sort(cmp)] for a comparator [cmp]: the sort is stable, an
    element moves behind another only when the comparator is positive
    on the pair. *)
Section Sort.
Context {A : Type} (cmp : A → A → Z).

Fixpoint sort_insert (x : A) (l : list A) : list A :=
  match l with
  | [] => [x]
  | y :: l' => if cmp x y <=? 0 then x :: l else y :: sort_insert x l'
  end.

Definition sort (l : list A) : list A := foldr sort_insert [] l.
End Sort.

End JS.

Export JS.

(** ** lodash *)

Module Lodash.

(** [_.uniqBy(arr, f)]: the first element of every class of [f] is
    kept, in order. *)
Section UniqBy.
Context {A K : Type} `{EqDecision K} (f : A → K).

Fixpoint uniqBy_aux (seen : list K) (l : list A) : list A :=
  match l with
  | [] => []
  | x :: l' =>
      if bool_decide (f x ∈ seen) then uniqBy_aux seen l'
      else x :: uniqBy_aux (f x :: seen) l'
  end.

Definition uniqBy (l : list A) : list A := uniqBy_aux [] l.
End UniqBy.

(** [_.omit(o, [k])] *)
Definition omit (o : obj) (k : string) : obj := delete k o.

(** [_.keyBy(rows, key)]: a later row replaces an earlier one of the
    same key. *)
Definition keyBy {A} (key : A → Z) (rows : list A) : gmap Z A :=
  foldl (fun m r => <[key r := r]> m) ∅ rows.

End Lodash.

Export Lodash.

(** ** Name sanitization *)

(** [sanitizeName(name)] *)
Definition sanitizeName (name : jsstring) : jsstring :=
  trim
    (remove_spaces_before_space
       (replace_all HYPHEN SPACE (replace_all UNDERSCORE SPACE name))).

(** ** The relational store *)

Module Store.

(** A row of [groups].  [verificationCode] is a virtual attribute of the
    model: it is carried by the instance that [Group.create] returns and
    is never stored, so rows read back have none. *)
Record Group := mkGroup {
  g_id : Z;
  g_name : jsstring;
  g_clanChat : option jsstring;
  g_score : Z;
  g_verified : bool;
  g_verificationHash : jsstring;
  g_verificationCode : option jsstring;
  g_createdAt : Z;
  g_updatedAt : Z
  }.

Record Player := mkPlayer {
  p_id : Z;
  p_username : jsstring;
  p_displayName : jsstring;
  p_type : jsstring;
  p_updatedAt : Z
  }.

(** A row of [memberships]; its key is [(groupId, playerId)]. *)
Record Membership := mkMembership {
  m_playerId : Z;
  m_groupId : Z;
  m_role : jsstring
  }.

Record Snapshot := mkSnapshot {
  s_playerId : Z;
  s_createdAt : Z;
  s_overallExperience : Z
  }.

Record Competition := mkCompetition {
  c_id : Z;
  c_startsAt : Z;
  c_endsAt : Z
  }.

Record Pagination := mkPagination {
  limit : Z;
  offset : Z
  }.

(** The member objects of a request body: [{username, role}], either
    property possibly missing. *)
Record MemberInput := mkMemberInput {
  in_username : option jsstring;
  in_role : option jsstring
  }.

(** The tables, each in the order in which the store returns its rows,
    and the two id sequences. *)
Record DB := mkDB {
  groups : list Group;
  players : list Player;
  memberships : list Membership;
  snapshots : list Snapshot;
  group_seq : Z;
  player_seq : Z
  }.

#[export] Instance Group_eq_dec : EqDecision Group.
Proof. solve_decision. Defined.
#[export] Instance Player_eq_dec : EqDecision Player.
Proof. solve_decision. Defined.
#[export] Instance Membership_eq_dec : EqDecision Membership.
Proof. solve_decision. Defined.

Definition set_groups (f : list Group → list Group) (db : DB) : DB :=
  mkDB (f (groups db)) (players db) (memberships db) (snapshots db)
       (group_seq db) (player_seq db).

Definition set_memberships (f : list Membership → list Membership) (db : DB) : DB :=
  mkDB (groups db) (players db) (f (memberships db)) (snapshots db)
       (group_seq db) (player_seq db).

(** The key of a membership row. *)
Definition m_key (m : Membership) : Z * Z := (m_groupId m, m_playerId m).

(** The invariant of the data model: a [(groupId, playerId)] pair
    appears at most once in [memberships]. *)
Definition membership_unique (db : DB) : Prop := NoDup (m_key <$> memberships db).

Inductive error :=
  | BadRequestError (message : jsstring) (data : option (list (option jsstring)))
  | TypeError
  | DatabaseError.

(** An [async] function of the service: it reads and writes the store
    and either returns or throws. *)
Definition M (A : Type) : Type := DB → DB * (error + A).

#[export] Instance M_ret : MRet M := λ A x db, (db, inr x).
#[export] Instance M_bind : MBind M := λ A B f m db,
  match m db with
  | (db', inr x) => f x db'
  | (db', inl e) => (db', inl e)
  end.
#[export] Instance M_fmap : FMap M := λ A B f m, x ← m; mret (f x).

Definition throw {A} (e : error) : M A := λ db, (db, inl e).
Definition BadRequest {A} (message : jsstring) : M A :=
  throw (BadRequestError message None).
Definition get : M DB := λ db, (db, inr db).
Definition modify (f : DB → DB) : M () := λ db, (f db, inr ()).

Definition when_ (b : bool) (m : M ()) : M () := if b then m else mret ().

(** The outcome and the final store of a call. *)
Definition result {A} (m : M A) (db : DB) : error + A := snd (m db).
Definition final {A} (m : M A) (db : DB) : DB := fst (m db).

Definition is_BadRequest {A} (r : error + A) : Prop :=
  match r with
  | inl (BadRequestError _ _) => True
  | _ => False
  end.

End Store.

Export Store.

(** ** Collaborators *)

(** What the service imports and this file does not define: the two
    enumerations, the clock, the operators of the database and of the
    host's collation, the verification utilities, the pure helpers of
    the player service and the sibling services that answer from tables
    of their own. *)
Class Services := {
  PERIODS : list jsstring;
  ALL_METRICS : list jsstring;
  (** [new Date()], [moment()] *)
  now : Z;
  (** [value ILIKE pattern] *)
  iLike : jsstring → jsstring → bool;
  (** [a.localeCompare(b)] *)
  localeCompare : jsstring → jsstring → Z;
  (** [generateVerification()], a fresh [[code, hash]] pair *)
  generateVerification : jsstring * jsstring;
  (** [verifyCode(hash, code)] *)
  verifyCode : jsstring → jsstring → bool;
  (** [playerService.standardize], [sanitize] and [isValidUsername] *)
  standardize : jsstring → jsstring;
  sanitize : jsstring → jsstring;
  isValidUsername : option jsstring → bool;
  (** [deltaService.getGroupLeaderboard(metric, period, ids, pagination)] *)
  deltaService_getGroupLeaderboard :
    jsstring → jsstring → list Z → Pagination → list jsval;
  (** [achievementService.findAllForGroup(ids, pagination)], each
      achievement given by its [playerId] and its [toJSON()] *)
  achievementService_findAllForGroup : list Z → Pagination → list (Z * obj);
  (** [recordService.getGroupLeaderboard(metric, period, ids, pagination)] *)
  recordService_getGroupLeaderboard :
    jsstring → jsstring → list Z → Pagination → list jsval;
  (** [competitionService.findForGroup(groupId, pagination)] *)
  competitionService_findForGroup : Z → Pagination → list Competition
}.

(** ** The models *)

Module ORM.
Section ORM.
Context `{Services}.

Definition opt_string (s : option jsstring) : jsval :=
  from_option VStr VNull s.

(** [group.toJSON()] *)
Definition Group_toJSON (g : Group) : obj :=
  let o : obj :=
    <["id" := VNum (g_id g)]>
    (<["name" := VStr (g_name g)]>
    (<["clanChat" := opt_string (g_clanChat g)]>
    (<["score" := VNum (g_score g)]>
    (<["verified" := VBool (g_verified g)]>
    (<["verificationHash" := VStr (g_verificationHash g)]>
    (<["createdAt" := VDate (g_createdAt g)]>
    (<["updatedAt" := VDate (g_updatedAt g)]> ∅))))))) in
  match g_verificationCode g with
  | Some code => <["verificationCode" := VStr code]> o
  | None => o
  end.

(** [player.toJSON()] *)
Definition Player_toJSON (p : Player) : obj :=
  <["id" := VNum (p_id p)]>
  (<["username" := VStr (p_username p)]>
  (<["displayName" := VStr (p_displayName p)]>
  (<["type" := VStr (p_type p)]>
  (<["updatedAt" := VDate (p_updatedAt p)]> ∅)))).

(** The storage of Group, Membership and Player (the [database] module
    and the query builder behind it) is not part of this file.  The
    definitions below give each call the service makes its meaning on
    the tables: a query without an order returns the rows in table
    order, and what the schema adds (keys, uniqueness, cascades) is
    taken from the specification where a definition says so. *)

(** [Group.findOne({ where: { id } })] *)
Definition Group_findOne (id : Z) : M (option Group) :=
  db ← get; mret (head (filter (λ g, g_id g = id) (groups db))).

(** [Group.findOne({ where: { name } })] *)
Definition Group_findOne_name (name : jsstring) : M (option Group) :=
  db ← get; mret (head (filter (λ g, g_name g = name) (groups db))).

(** [LIMIT limit OFFSET offset]; a negative bound is refused. *)
Definition limit_offset {A} (pagination : Pagination) (rows : list A) : M (list A) :=
  if (limit pagination <? 0) || (offset pagination <? 0)
  then throw DatabaseError
  else mret (take (Z.to_nat (limit pagination))
               (drop (Z.to_nat (offset pagination)) rows)).

(** The comparator of [ORDER BY score DESC, id ASC]. *)
Definition score_desc_id_asc (a b : Group) : Z :=
  if g_score a =? g_score b then g_id a - g_id b else g_score b - g_score a.

(** [Group.findAll({ where, order: [['score','DESC'],['id','ASC']],
    limit, offset })], [pattern] being the operand of [Op.iLike]
    when there is a [where]. *)
Definition Group_findAll_ordered (pattern : option jsstring)
    (pagination : Pagination) : M (list Group) :=
  db ← get;
  let matching :=
    match pattern with
    | Some pat => filter (λ g, iLike (g_name g) pat = true) (groups db)
    | None => groups db
    end in
  limit_offset pagination (sort score_desc_id_asc matching).

(** [Group.findAll()] *)
Definition Group_findAll : M (list Group) := groups <$> get.

(** Modelled from the spec: the uniqueness of [groups.name] ("Group.name
    is unique"), which the [database] module declares; another row
    holds the name. *)
Definition name_taken (id : Z) (name : jsstring) (db : DB) : bool :=
  bool_decide (Exists (λ g, g_id g ≠ id ∧ g_name g = name) (groups db)).

(** [Group.create({ name, clanChat, verificationCode, verificationHash })] *)
Definition Group_create (name : jsstring) (clanChat : option jsstring)
    (verificationCode verificationHash : jsstring) : M Group :=
  db ← get;
  let id := group_seq db in
  if name_taken id name db then throw DatabaseError else
  let row := mkGroup id name clanChat 0 false verificationHash None now now in
  modify (λ db, mkDB (groups db ++ [row]) (players db) (memberships db)
                     (snapshots db) (id + 1) (player_seq db));;
  mret (mkGroup id name clanChat 0 false verificationHash
                (Some verificationCode) now now).

Definition update_group (id : Z) (f : Group → Group) (l : list Group) : list Group :=
  (λ g, if bool_decide (g_id g = id) then f g else g) <$> l.

Definition with_updatedAt (t : Z) (g : Group) : Group :=
  mkGroup (g_id g) (g_name g) (g_clanChat g) (g_score g) (g_verified g)
          (g_verificationHash g) (g_verificationCode g) (g_createdAt g) t.

(** [group.update({ name, clanChat })]: a property that is
    [undefined] ([None] for [name]) is left out of the statement,
    [clanChat] is written as given, [null] ([None]) included.  The
    instance takes the values and the time of the call; the statement
    is issued only when a value differs from the one the instance
    held: [save()] returns early when nothing [changed()].  The
    instance is returned as it is after the call. *)
Definition Group_update_name_clanChat (group : Group)
    (name : option jsstring) (clanChat : option jsstring) : M Group :=
  db ← get;
  let name' := default (g_name group) name in
  let f g := mkGroup (g_id g) name' clanChat (g_score g) (g_verified g)
               (g_verificationHash g) (g_verificationCode g) (g_createdAt g) now in
  if bool_decide (name' = g_name group ∧ clanChat = g_clanChat group)
  then mret (f group) else
  if from_option (λ n, name_taken (g_id group) n db) false name
  then throw DatabaseError else
  modify (set_groups (update_group (g_id group) f));;
  mret (f group).

(** [group.update({ score })] *)
Definition Group_update_score (group : Group) (score : Z) : M () :=
  let f g := mkGroup (g_id g) (g_name g) (g_clanChat g) score (g_verified g)
               (g_verificationHash g) (g_verificationCode g) (g_createdAt g) now in
  modify (set_groups (update_group (g_id group) f)).

(** [group.changed('updatedAt', true); group.save()] *)
Definition Group_touch (group : Group) : M () :=
  modify (set_groups (update_group (g_id group) (with_updatedAt now))).

(** Modelled from the spec: [group.destroy()], "deletes group and
    cascades memberships"; the cascade is declared in the [database]
    module. *)
Definition Group_destroy (group : Group) : M () :=
  modify (λ db,
    mkDB (filter (λ g, g_id g ≠ g_id group) (groups db)) (players db)
         (filter (λ m, m_groupId m ≠ g_id group) (memberships db))
         (snapshots db) (group_seq db) (player_seq db)).

Definition find_player (id : Z) (db : DB) : option Player :=
  head (filter (λ p, p_id p = id) (players db)).

Definition find_group (id : Z) (db : DB) : option Group :=
  head (filter (λ g, g_id g = id) (groups db)).

(** [Membership.findAll({ where: { groupId } })] *)
Definition Membership_findAll_group (groupId : Z) : M (list Membership) :=
  db ← get; mret (filter (λ m, m_groupId m = groupId) (memberships db)).

(** [Membership.findAll({ where: { groupId }, include: [{ model: Player }] })]:
    a left join, the player of a row is [null] when there is none. *)
Definition Membership_findAll_group_Player (groupId : Z)
    : M (list (Membership * option Player)) :=
  db ← get;
  mret ((λ m, (m, find_player (m_playerId m) db))
          <$> filter (λ m, m_groupId m = groupId) (memberships db)).

(** [Membership.findAll({ where: { playerId }, include: [{ model: Group }] })] *)
Definition Membership_findAll_player_Group (playerId : Z)
    : M (list (Membership * option Group)) :=
  db ← get;
  mret ((λ m, (m, find_group (m_groupId m) db))
          <$> filter (λ m, m_playerId m = playerId) (memberships db)).

(** [Membership.findOne({ where: { groupId }, include: [{ model: Player,
    where: { username } }] })]: an inner join. *)
Definition Membership_findOne_username (groupId : Z) (username : jsstring)
    : M (option (Membership * Player)) :=
  db ← get;
  mret (head (omap (λ m,
                if bool_decide (m_groupId m = groupId) then
                  p ← find_player (m_playerId m) db;
                  if bool_decide (p_username p = username)
                  then Some (m, p) else None
                else None)
              (memberships db))).

(** [Membership.destroy({ where: { groupId } })] *)
Definition Membership_destroy_group (groupId : Z) : M () :=
  modify (set_memberships (filter (λ m, m_groupId m ≠ groupId))).

Definition has_key (k : Z * Z) (l : list Membership) : bool :=
  bool_decide (k ∈ m_key <$> l).

(** Modelled from the spec: [Membership.bulkCreate(rows,
    { ignoreDuplicates: true })] on a table keyed by [(groupId,
    playerId)] ("a (groupId, playerId) pair appears at most once in
    Membership"; the key is declared in the [database] module): a row
    whose key is present is skipped. *)
Definition Membership_bulkCreate_ignoreDuplicates (rows : list Membership) : M () :=
  modify (set_memberships (λ l,
    foldl (λ l r, if has_key (m_key r) l then l else l ++ [r]) l rows)).

(** Modelled from the spec: [Membership.bulkCreate(rows)] on the same
    keyed table: one statement, refused as a whole when a key is
    already present or given twice. *)
Definition Membership_bulkCreate (rows : list Membership) : M () :=
  db ← get;
  if bool_decide (NoDup (m_key <$> (memberships db ++ rows)))
  then modify (set_memberships (λ l, l ++ rows))
  else throw DatabaseError.

(** [membership.update({ role })], a statement on the row's key. *)
Definition Membership_update_role (membership : Membership) (role : jsstring) : M () :=
  modify (set_memberships (fmap (λ m,
    if bool_decide (m_key m = m_key membership)
    then mkMembership (m_playerId m) (m_groupId m) role else m))).

(** [group.getMembers()]: the players joined through [memberships],
    each with its through row ([member.memberships]). *)
Definition Group_getMembers (group : Group) : M (list (Player * Membership)) :=
  db ← get;
  mret (omap (λ m, if bool_decide (m_groupId m = g_id group)
                   then p ← find_player (m_playerId m) db; Some (p, m)
                   else None)
          (memberships db)).

(** Modelled from the spec: [group.addMembers(players, { through:
    { role } })], the association call of the [database] module: the
    players that have no row yet get one, with the given role or the
    column's default ['member'] ("defaulting role to member"); those
    that have one are rewritten when a role is given ("re-adds any
    leader-flagged entries with forced role"). *)
Definition Group_addMembers (group : Group) (newPlayers : list Player)
    (through : option jsstring) : M () :=
  db ← get;
  let gid := g_id group in
  let associated p := has_key (gid, p_id p) (memberships db) in
  let unassociated := filter (λ p, associated p = false) newPlayers in
  let changed := filter (λ p, associated p = true) newPlayers in
  when_ (negb (bool_decide (unassociated = [])))
    (Membership_bulkCreate
       ((λ p, mkMembership (p_id p) gid (default (lit "member") through))
          <$> unassociated));;
  match through with
  | Some role =>
      mapM (λ p, Membership_update_role (mkMembership (p_id p) gid role) role)
        changed;; mret ()
  | None => mret ()
  end.

(** Modelled from the spec: [group.removeMembers(players)], the
    association call of the [database] module; it removes the rows of
    the given players in the group and answers their number. *)
Definition Group_removeMembers (group : Group) (playersToRemove : list Player) : M Z :=
  db ← get;
  let removed m :=
    bool_decide (m_groupId m = g_id group ∧ m_playerId m ∈ p_id <$> playersToRemove) in
  modify (set_memberships (filter (λ m, removed m = false)));;
  mret (Z.of_nat (length (filter (λ m, removed m = true) (memberships db)))).

(** [MAX(q."createdAt") ... GROUP BY q."playerId"], for one player. *)
Definition max_date (playerId : Z) (l : list Snapshot) : option Z :=
  foldr (λ s acc, if bool_decide (s_playerId s = playerId)
                  then Some (from_option (Z.max (s_createdAt s)) (s_createdAt s) acc)
                  else acc)
    None l.

(** The raw query of [getMembersList]: for every listed player that
    has snapshots, the rows of its latest [createdAt], ordered by
    [playerId]. *)
Definition latest_snapshots (ids : list Z) : M (list Snapshot) :=
  db ← get;
  mret (sort (λ a b, s_playerId a - s_playerId b)
          (filter (λ s, s_playerId s ∈ ids
                        ∧ max_date (s_playerId s) (snapshots db)
                          = Some (s_createdAt s))
             (snapshots db))).

(** The raw query of [getMemberStats]: the same rows, with no
    [ORDER BY]. *)
Definition latest_snapshots_unordered (ids : list Z) : M (list Snapshot) :=
  db ← get;
  mret (filter (λ s, s_playerId s ∈ ids
                     ∧ max_date (s_playerId s) (snapshots db)
                       = Some (s_createdAt s))
          (snapshots db)).

(** [Membership.findAll({ attributes, where: { groupId }, include:
    [{ model: Player, where: { updatedAt: { [Op.lt]: date } } }] })]:
    an inner join, since the include carries a [where]. *)
Definition Membership_findAll_group_Player_before (groupId date : Z)
    : M (list (Membership * Player)) :=
  db ← get;
  mret (omap (λ m,
          if bool_decide (m_groupId m = groupId) then
            p ← find_player (m_playerId m) db;
            if bool_decide (p_updatedAt p < date) then Some (m, p) else None
          else None)
        (memberships db)).

End ORM.
End ORM.

Export ORM.

(** ** The player service *)

Module PlayerService.
Section PlayerService.
Context `{Services}.

(** Modelled from the spec: the lookup-or-creation of one player by
    [playerService.findAllOrCreate], which is not part of this file
    ("sibling services for ... player lookup/creation").  A player is
    found by its canonical (standardized) username and created, with
    the next id, when there is none. *)
Definition findOrCreate (username : jsstring) : M Player :=
  db ← get;
  let name := standardize username in
  match head (filter (λ p, p_username p = name) (players db)) with
  | Some p => mret p
  | None =>
      let p := mkPlayer (player_seq db) name (sanitize username) (lit "unknown") now in
      modify (λ db, mkDB (groups db) (players db ++ [p]) (memberships db)
                         (snapshots db) (group_seq db) (player_seq db + 1));;
      mret p
  end.

(** Modelled from the spec: [playerService.findAllOrCreate(usernames)],
    the players of the usernames, in the order of the argument. *)
Definition findAllOrCreate (usernames : list jsstring) : M (list Player) :=
  mapM findOrCreate usernames.

(** Modelled from the spec: [playerService.findAll(usernames)], the
    existing players whose canonical username is one of the given. *)
Definition findAll (usernames : list jsstring) : M (list Player) :=
  db ← get;
  mret (filter (λ p, p_username p ∈ standardize <$> usernames) (players db)).

End PlayerService.
End PlayerService.

(** ** The group service *)

Module GroupService.
Section GroupService.
Context `{Services}.

(** [format(group)] *)
Definition format (group : Group) : obj :=
  omit (Group_toJSON group) "verificationHash".

Definition prop_num (k : string) (o : obj) : option Z :=
  match o !! k with
  | Some (VNum z) => Some z
  | _ => None
  end.

Definition prop_string (k : string) (o : obj) : jsstring :=
  match o !! k with
  | Some (VStr s) => s
  | _ => []
  end.

(** [attachMembersCount(groups)] *)
Definition attachMembersCount (groups : list obj) : M (list obj) :=
  db ← get;
  let ids := omap (prop_num "id") groups in
  let rows := filter (λ m, m_groupId m ∈ ids) (memberships db) in
  let membersCount : list (Z * Z) :=
    (λ groupId, (groupId,
                 Z.of_nat (length (filter (λ m, m_groupId m = groupId) rows))))
      <$> remove_dups (m_groupId <$> rows) in
  let countMap : gmap Z Z := snd <$> keyBy fst membersCount in
  mret ((λ g,
           let count := default 0 (id ← prop_num "id" g; countMap !! id) in
           <["memberCount" := VNum count]> g)
          <$> groups).

(** [list(name, pagination)]; the name [list] is the type of lists
    here, hence the underscore. *)
Definition list_ (name : option jsstring) (pagination : Pagination) : M (list obj) :=
  let where_ :=
    match name with
    | Some n =>
        if truthy_string n then Some (lit "%" ++ sanitizeName n ++ lit "%") else None
    | None => None
    end in
  groups ← Group_findAll_ordered where_ pagination;
  attachMembersCount (format <$> groups).

Definition defined {A} (x : option A) : M A :=
  match x with
  | Some a => mret a
  | None => throw TypeError
  end.

(** [findForPlayer(playerId, pagination)] *)
Definition findForPlayer (playerId : Z) (pagination : Pagination) : M (list obj) :=
  if negb (truthy_num playerId) then BadRequest (lit "Invalid player id.") else
  memberships ← Membership_findAll_player_Group playerId;
  memberships ← mapM (λ m, group ← defined (snd m); mret (fst m, group)) memberships;
  let groups :=
    format <$>
      sort (λ a b, g_score b - g_score a)
        (snd <$>
           slice (offset pagination) (offset pagination + limit pagination)
             (uniqBy (λ m, g_id (snd m)) memberships)) in
  attachMembersCount groups.

Definition not_found {A} (id : Z) : M A :=
  BadRequest (lit "Group of id " ++ Z_to_string id ++ lit " was not found.").

(** [view(id)] *)
Definition view (id : Z) : M obj :=
  if negb (truthy_num id) then BadRequest (lit "Invalid group id.") else
  group ← Group_findOne id;
  match group with
  | None => not_found id
  | Some group => mret (format group)
  end.

(** [getMonthlyTopPlayer(groupId)] *)
Definition getMonthlyTopPlayer (groupId : Z) : M jsval :=
  if negb (truthy_num groupId) then BadRequest (lit "Invalid group id.") else
  memberships ← Membership_findAll_group groupId;
  let memberIds := m_playerId <$> memberships in
  if bool_decide (length memberIds = 0%nat) then mret VNull else
  let pagination := mkPagination 1 0 in
  let leaderboard :=
    deltaService_getGroupLeaderboard (lit "overall") (lit "month") memberIds pagination in
  let monthlyTopPlayer :=
    match head leaderboard with
    | Some v => if truthy v then v else VNull
    | None => VNull
    end in
  mret monthlyTopPlayer.

Definition invalid {A} (what : string) (x : option jsstring) : M A :=
  BadRequest (lit "Invalid " ++ lit what ++ lit ": "
              ++ ToString (from_option VStr VUndefined x) ++ lit ".").

(** [!x || !XS.includes(x)] *)
Definition not_included (x : option jsstring) (xs : list jsstring) : bool :=
  match x with
  | Some s => negb (truthy_string s) || negb (bool_decide (s ∈ xs))
  | None => true
  end.

(** [getDeltas(groupId, period, metric, pagination)] *)
Definition getDeltas (groupId : Z) (period metric : option jsstring)
    (pagination : Pagination) : M (list jsval) :=
  if negb (truthy_num groupId) then BadRequest (lit "Invalid group id.") else
  if not_included period PERIODS then invalid "period" period else
  if not_included metric ALL_METRICS then invalid "metric" metric else
  memberships ← Membership_findAll_group groupId;
  let memberIds := m_playerId <$> memberships in
  if bool_decide (length memberIds = 0%nat)
  then BadRequest (lit "That group has no members.") else
  mret (deltaService_getGroupLeaderboard
          (default [] metric) (default [] period) memberIds pagination).

(** [getAchievements(groupId, pagination)] *)
Definition getAchievements (groupId : Z) (pagination : Pagination) : M (list obj) :=
  if negb (truthy_num groupId) then BadRequest (lit "Invalid group id.") else
  memberships ← Membership_findAll_group_Player groupId;
  if bool_decide (length memberships = 0%nat)
  then BadRequest (lit "That group has no members.") else
  members ← mapM (λ m, defined (snd m)) memberships;
  let memberMap := keyBy p_id members in
  let memberIds := p_id <$> members in
  let achievements := achievementService_findAllForGroup memberIds pagination in
  mapM (λ a : Z * obj,
          p ← defined (memberMap !! fst a);
          let player : obj :=
            <["id" := VNum (p_id p)]>
            (<["username" := VStr (p_username p)]>
            (<["displayName" := VStr (p_displayName p)]>
            (<["type" := VStr (p_type p)]> ∅))) in
          mret (<["player" := VObj player]> (snd a)))
    achievements.

(** [getRecords(groupId, metric, period, pagination)] *)
Definition getRecords (groupId : Z) (metric period : option jsstring)
    (pagination : Pagination) : M (list jsval) :=
  if negb (truthy_num groupId) then BadRequest (lit "Invalid group id.") else
  if not_included period PERIODS then invalid "period" period else
  if not_included metric ALL_METRICS then invalid "metric" metric else
  memberships ← Membership_findAll_group groupId;
  if bool_decide (length memberships = 0%nat)
  then BadRequest (lit "That group has no members.") else
  let memberIds := m_playerId <$> memberships in
  mret (recordService_getGroupLeaderboard
          (default [] metric) (default [] period) memberIds pagination).

(** [getMembersList(id)].  The snapshot rows carry [overallExperience]
    as the integer that [parseInt] reads back from the column. *)
Definition getMembersList (id : Z) : M (list obj) :=
  if negb (truthy_num id) then BadRequest (lit "Invalid group id.") else
  group ← Group_findOne id;
  match group with
  | None => not_found id
  | Some group =>
      memberships ← Membership_findAll_group_Player id;
      if bool_decide (length memberships = 0%nat) then mret [] else
      members ← mapM (λ m, player ← defined (snd m); mret (player, m_role (fst m)))
                  memberships;
      experienceSnapshots ← latest_snapshots (p_id ∘ fst <$> members);
      let experienceMap : gmap Z Z :=
        s_overallExperience <$> keyBy s_playerId experienceSnapshots in
      let or_zero (x : option Z) : Z := default 0 x in
      mret (sort (λ a b, localeCompare (prop_string "role" a) (prop_string "role" b))
              ((λ member : obj,
                  <["overallExperience" :=
                      VNum (or_zero (id ← prop_num "id" member; experienceMap !! id))]>
                    member)
                 <$> ((λ m : Player * jsstring,
                         <["role" := VStr (snd m)]> (Player_toJSON (fst m)))
                        <$> members)))
  end.

Definition invalid_usernames {A} (invalidUsernames : list (option jsstring)) : M A :=
  throw (BadRequestError
           (Z_to_string (Z.of_nat (length invalidUsernames))
            ++ lit " Invalid usernames: Names must be 1-12 characters long, "
            ++ [10%N]
            ++ lit "         contain no special characters, and/or contain no space at the beginning or end of the name.")
           (Some invalidUsernames)).

(** [member.toJSON()] for a player read through the association: the
    through row is nested under [memberships]. *)
Definition Member_toJSON (member : Player * Membership) : obj :=
  let through : obj :=
    <["playerId" := VNum (m_playerId (snd member))]>
    (<["groupId" := VNum (m_groupId (snd member))]>
    (<["role" := VStr (m_role (snd member))]> ∅)) in
  <["memberships" := VObj through]> (Player_toJSON (fst member)).

(** [_.omit({ ...member.toJSON(), role: member.memberships.role },
    ['memberships'])] *)
Definition format_member (member : Player * Membership) : obj :=
  omit (<["role" := VStr (m_role (snd member))]> (Member_toJSON member))
    "memberships".

(** [setMembers(group, members)] *)
Definition setMembers (group : option Group) (members : list MemberInput)
    : M (list obj) :=
  match group with
  | None => BadRequest (lit "Invalid group.")
  | Some group =>
      usernames ← mapM (λ m, defined (in_username m)) members;
      let uniqueNames := uniqBy toLowerCase usernames in
      players ← PlayerService.findAllOrCreate uniqueNames;
      newMemberships ←
        mapM (λ ip : nat * Player,
                m ← defined (members !! fst ip);
                let role :=
                  match in_role m with
                  | Some r => if truthy_string r then r else lit "member"
                  | None => lit "member"
                  end in
                mret (mkMembership (p_id (snd ip)) (g_id group) role))
          (imap pair players);
      Membership_destroy_group (g_id group);;
      Membership_bulkCreate_ignoreDuplicates newMemberships;;
      allMembers ← Group_getMembers group;
      mret (format_member <$> allMembers)
  end.

(** [clanChat && clanChat.length ? playerService.sanitize(clanChat) : null] *)
Definition sanitizedClanChat (clanChat : option jsstring) : option jsstring :=
  match clanChat with
  | Some c => if truthy_string c then Some (sanitize c) else None
  | None => None
  end.

Definition name_taken_error {A} (sanitizedName : jsstring) : M A :=
  BadRequest (lit "Group name '" ++ sanitizedName ++ lit "' is already taken.").

(** [create(name, clanChat, members)] *)
Definition create (name clanChat : option jsstring)
    (members : option (list MemberInput)) : M obj :=
  if negb (truthy_opt_string name) then BadRequest (lit "Invalid group name.") else
  let sanitizedName := sanitizeName (default [] name) in
  let sanitizedClanChat := sanitizedClanChat clanChat in
  existing ← Group_findOne_name sanitizedName;
  if bool_decide (is_Some existing) then name_taken_error sanitizedName else
  if from_option
       (λ members,
          negb (bool_decide
                  (length (filter (λ m, truthy_opt_string (in_username m) = true) members)
                   = length members)))
       false members
  then BadRequest
         (lit "Invalid members list. Each array element must have a username key.")
  else
  let invalidUsernames :=
    from_option
      (λ members, filter (λ u, isValidUsername u = false) (in_username <$> members))
      [] members in
  if negb (bool_decide (length invalidUsernames = 0%nat))
  then invalid_usernames invalidUsernames else
  let '(verificationCode, verificationHash) := generateVerification in
  group ← Group_create sanitizedName sanitizedClanChat verificationCode verificationHash;
  match members with
  | None => mret (<["members" := VArr []]> (format group))
  | Some members =>
      newMembers ← setMembers (Some group) members;
      mret (<["members" := VArr (VObj <$> newMembers)]> (format group))
  end.

(** [edit(id, name, clanChat, verificationCode, members)] *)
Definition edit (id : Z) (name clanChat : option jsstring)
    (verificationCode : jsstring) (members : option (list MemberInput)) : M obj :=
  if negb (truthy_num id) then BadRequest (lit "Invalid group id.") else
  if negb (truthy_string verificationCode)
  then BadRequest (lit "Invalid verification code.") else
  if negb (truthy_opt_string name) && negb (bool_decide (is_Some members))
     && negb (truthy_opt_string clanChat)
  then BadRequest
         (lit "You must either include a new name, clan chat or members list.")
  else
  (if truthy_opt_string name then
     let sanitizedName := sanitizeName (default [] name) in
     matchingGroup ← Group_findOne_name sanitizedName;
     match matchingGroup with
     | Some g => if bool_decide (g_id g ≠ id)
                 then name_taken_error sanitizedName else mret ()
     | None => mret ()
     end
   else mret ());;
  group ← Group_findOne id;
  match group with
  | None => not_found id
  | Some group =>
      if negb (verifyCode (g_verificationHash group) verificationCode)
      then BadRequest (lit "Incorrect verification code.") else
      groupMembers ←
        match members with
        | Some members =>
            let invalidUsernames :=
              filter (λ u, isValidUsername u = false) (in_username <$> members) in
            if negb (bool_decide (length invalidUsernames = 0%nat))
            then invalid_usernames invalidUsernames
            else setMembers (Some group) members
        | None =>
            memberships ← Group_getMembers group;
            mret ((λ p, <["memberships" := VUndefined]> (Member_toJSON p))
                    <$> memberships)
        end;
      group ←
        (if truthy_opt_string name || truthy_opt_string clanChat then
           (* [name && sanitizeName(name)] *)
           let sanitizedName :=
             match name with
             | Some n => Some (if truthy_string n then sanitizeName n else n)
             | None => None
             end in
           Group_update_name_clanChat group sanitizedName (sanitizedClanChat clanChat)
         else mret group);
      mret (<["members" := VArr (VObj <$> groupMembers)]> (format group))
  end.

(** [destroy(id, verificationCode)] *)
Definition destroy (id : Z) (verificationCode : jsstring) : M jsstring :=
  if negb (truthy_num id) then BadRequest (lit "Invalid group id.") else
  if negb (truthy_string verificationCode)
  then BadRequest (lit "Invalid verification code.") else
  group ← Group_findOne id;
  match group with
  | None => not_found id
  | Some group =>
      let name := g_name group in
      if negb (verifyCode (g_verificationHash group) verificationCode)
      then BadRequest (lit "Incorrect verification code.") else
      Group_destroy group;;
      mret name
  end.

(** [addMembers(id, verificationCode, members)] *)
Definition addMembers (id : Z) (verificationCode : jsstring)
    (members : option (list MemberInput)) : M (list obj) :=
  if negb (truthy_num id) then BadRequest (lit "Invalid group id.") else
  if negb (truthy_string verificationCode)
  then BadRequest (lit "Invalid verification code.") else
  match members with
  | None => BadRequest (lit "Invalid members list.")
  | Some members =>
      if bool_decide (length members = 0%nat)
      then BadRequest (lit "Invalid members list.") else
      if negb (bool_decide
                 (length (filter (λ m, truthy_opt_string (in_username m) = true) members)
                  = length members))
      then BadRequest
             (lit "Invalid members list. Each array element must have a username key.")
      else
      group ← Group_findOne id;
      match group with
      | None => not_found id
      | Some group =>
          if negb (verifyCode (g_verificationHash group) verificationCode)
          then BadRequest (lit "Incorrect verification code.") else
          existing ← Group_getMembers group;
          let existingIds := p_id ∘ fst <$> existing in
          (* every username is a non-empty string at this point *)
          players ← PlayerService.findAllOrCreate
                      ((λ m, default [] (in_username m)) <$> members);
          let newPlayers := filter (λ p, p_id p ∉ existingIds) players in
          if bool_decide (length newPlayers = 0%nat)
          then BadRequest (lit "All players given are already members.") else
          Group_addMembers group newPlayers None;;
          let leaderUsernames :=
            (λ m, standardize (default [] (in_username m)))
              <$> filter (λ m, in_role m = Some (lit "leader")) members in
          when_ (negb (bool_decide (length leaderUsernames = 0%nat)))
            (allMembers ← Group_getMembers group;
             let leaders :=
               filter (λ m, p_username (fst m) ∈ leaderUsernames) allMembers in
             Group_addMembers group (fst <$> leaders) (Some (lit "leader")));;
          Group_touch group;;
          allMembers ← Group_getMembers group;
          mret (format_member <$> allMembers)
      end
  end.

(** [removeMembers(id, verificationCode, usernames)] *)
Definition removeMembers (id : Z) (verificationCode : jsstring)
    (usernames : option (list jsstring)) : M Z :=
  if negb (truthy_num id) then BadRequest (lit "Invalid group id.") else
  if negb (truthy_string verificationCode)
  then BadRequest (lit "Invalid verification code.") else
  match usernames with
  | None => BadRequest (lit "Invalid members list.")
  | Some usernames =>
      if bool_decide (length usernames = 0%nat)
      then BadRequest (lit "Invalid members list.") else
      group ← Group_findOne id;
      match group with
      | None => not_found id
      | Some group =>
          if negb (verifyCode (g_verificationHash group) verificationCode)
          then BadRequest (lit "Incorrect verification code.") else
          playersToRemove ← PlayerService.findAll usernames;
          if bool_decide (length playersToRemove = 0%nat)
          then BadRequest (lit "No valid tracked players were given.") else
          removedPlayersCount ← Group_removeMembers group playersToRemove;
          if negb (truthy_num removedPlayersCount)
          then BadRequest (lit "None of the players given were members of that group.")
          else
          Group_touch group;;
          mret removedPlayersCount
      end
  end.

(** [changeRole(id, username, role, verificationCode)]; an argument
    that is not given is falsy like the empty string. *)
Definition changeRole (id : Z) (username role verificationCode : jsstring) : M obj :=
  if negb (truthy_num id) then BadRequest (lit "Invalid group id.") else
  if negb (truthy_string username) then BadRequest (lit "Invalid username.") else
  if negb (truthy_string role) then BadRequest (lit "Invalid group role.") else
  if negb (truthy_string verificationCode)
  then BadRequest (lit "Invalid verification code.") else
  group ← Group_findOne id;
  match group with
  | None => not_found id
  | Some group =>
      if negb (verifyCode (g_verificationHash group) verificationCode)
      then BadRequest (lit "Incorrect verification code.") else
      membership ← Membership_findOne_username id (standardize username);
      match membership with
      | None =>
          BadRequest (lit "'" ++ username ++ lit "' is not a member of "
                      ++ g_name group ++ lit ".")
      | Some (membership, player) =>
          let oldRole := m_role membership in
          if bool_decide (m_role membership = role)
          then BadRequest (lit "'" ++ username ++ lit "' already has the role of "
                           ++ role ++ lit ".")
          else
          Membership_update_role membership role;;
          Group_touch group;;
          mret (<["player" := VObj (<["role" := VStr role]> (Player_toJSON player))]>
                (<["newRole" := VStr role]>
                (<["oldRole" := VStr oldRole]> ∅)))
      end
  end.

(** [getMembers(groupId)] *)
Definition getMembers (groupId : Z) : M (list obj) :=
  memberships ← Membership_findAll_group_Player groupId;
  mapM (λ m, player ← defined (snd m);
             mret (<["role" := VStr (m_role (fst m))]> (Player_toJSON player)))
    memberships.

(** [findOne(groupId)] *)
Definition findOne (groupId : Z) : M (option Group) := Group_findOne groupId.

Definition bonus (condition : bool) (points score : Z) : Z :=
  if condition then score + points else score.

(** [members.reduce((acc, cur) => acc + cur, 0) / members.length] *)
Definition averageOverallExp (members : list obj) : jsnum :=
  div_length (ToNumber (foldl add (VNum 0) (VObj <$> members))) (length members).

(** The two tests on the average. *)
Definition experience_bonus (average : jsnum) (score : Z) : Z :=
  bonus (ge_const average 100000000) 60 (bonus (ge_const average 30000000) 30 score).

(** [calculateScore(group)] *)
Definition calculateScore (group : Group) : M Z :=
  let score := 0 in
  members ← getMembersList (g_id group);
  let competitions :=
    competitionService_findForGroup (g_id group) (mkPagination 10000 0) in
  let averageOverallExp := averageOverallExp members in
  if bool_decide (length members = 0%nat) then mret score else
  let score :=
    bonus (1 <=? Z.of_nat (length (filter (λ m, prop_string "role" m = lit "leader")
                                     members)))
      30 score in
  let score := bonus (10 <=? Z.of_nat (length members)) 20 score in
  let score := bonus (50 <=? Z.of_nat (length members)) 40 score in
  let score := experience_bonus averageOverallExp score in
  let score := bonus (truthy_opt_string (g_clanChat group)) 50 score in
  let score := bonus (g_verified group) 100 score in
  let score :=
    bonus (1 <=? Z.of_nat (length (filter (λ c, c_startsAt c ≤ now ∧ now ≤ c_endsAt c)
                                     competitions)))
      50 score in
  let score :=
    bonus (1 <=? Z.of_nat (length (filter (λ c, now ≤ c_startsAt c) competitions)))
      30 score in
  mret score.

(** [refreshScores()]; the recomputations, issued together in the
    source, run here one after the other. *)
Definition refreshScores : M () :=
  allGroups ← Group_findAll;
  mapM (λ group,
          let currentScore := g_score group in
          newScore ← calculateScore group;
          when_ (negb (newScore =? currentScore)) (Group_update_score group newScore))
    allGroups;;
  mret ().

(** [getMemberStats(id)]; a snapshot row stands for all its columns. *)
Definition getMemberStats (id : Z) : M (list Snapshot) :=
  if negb (truthy_num id) then BadRequest (lit "Invalid group id.") else
  group ← Group_findOne id;
  match group with
  | None => not_found id
  | Some group =>
      memberships ← Membership_findAll_group id;
      if bool_decide (length memberships = 0%nat) then mret [] else
      let memberIds := m_playerId <$> memberships in
      latestSnapshots ← latest_snapshots_unordered memberIds;
      let snapshotMap := keyBy s_playerId latestSnapshots in
      mret (omap (λ m, snapshotMap !! m_playerId m) memberships)
  end.

(** [getStatistics(id)].  The helpers of the snapshot module
    ([getCombatLevel], [getTotalLevel], [get200msCount]) and
    [snapshotService.format(snapshotService.average(stats))] are not
    part of this file: they are arguments here. *)
Definition getStatistics (getCombatLevel getTotalLevel get200msCount : Snapshot → Z)
    (averageStats : list Snapshot → jsval) (id : Z) : M obj :=
  if negb (truthy_num id) then BadRequest (lit "Invalid group id.") else
  stats ← getMemberStats id;
  if bool_decide (length stats = 0%nat)
  then BadRequest (lit "Couldn't find any stats for this group.") else
  let maxedCombatCount :=
    Z.of_nat (length (filter (λ s, getCombatLevel s = 126) stats)) in
  let maxedTotalCount :=
    Z.of_nat (length (filter (λ s, getTotalLevel s = 2277) stats)) in
  let maxed200msCount := foldl (λ acc cur, acc + cur) 0 (get200msCount <$> stats) in
  let averageStats := averageStats stats in
  mret (<["maxedCombatCount" := VNum maxedCombatCount]>
        (<["maxedTotalCount" := VNum maxedTotalCount]>
        (<["maxed200msCount" := VNum maxed200msCount]>
        (<["averageStats" := averageStats]> ∅)))).

(** [moment().subtract(10, 'minute')], times being in milliseconds. *)
Definition tenMinsAgo : Z := now - 10 * 60 * 1000.

(** [getOutdatedMembers(groupId)] *)
Definition getOutdatedMembers (groupId : Z) : M (list Player) :=
  if negb (truthy_num groupId) then BadRequest (lit "Invalid group id.") else
  membersToUpdate ← Membership_findAll_group_Player_before groupId tenMinsAgo;
  mret (snd <$> membersToUpdate).

(** [updateAllMembers(id, updateAction)], the action being what the
    caller wants done with a player. *)
Definition updateAllMembers (id : Z) (updateAction : Player → M ())
    : M (list Player) :=
  if negb (truthy_num id) then BadRequest (lit "Invalid group id.") else
  members ← getOutdatedMembers id;
  if bool_decide (length members = 0%nat)
  then BadRequest (lit "This group has no members that should be updated.") else
  mapM updateAction members;;
  mret members.

End GroupService.
End GroupService.

(** * The vocabulary of the properties and the data of the examples *)

Module Vocabulary.

(** No two adjacent spaces. *)
Fixpoint single_spaced (s : jsstring) : Prop :=
  match s with
  | c :: s' =>
      match s' with
      | d :: _ => ¬ (c = SPACE ∧ d = SPACE) ∧ single_spaced s'
      | [] => True
      end
  | [] => True
  end.

(** What [sanitizeName] establishes. *)
Definition sanitized (s : jsstring) : Prop :=
  Forall (λ x, x ≠ UNDERSCORE) s ∧ Forall (λ x, x ≠ HYPHEN) s
  ∧ single_spaced s ∧ trim s = s.

End Vocabulary.

Export Vocabulary.

(** ** Scores *)

Module ScoreVocabulary.
Import GroupService.
Section ScoreVocabulary.
Context `{Services}.

(** [c.startsAt <= now && c.endsAt >= now] *)
Definition ongoing (c : Competition) : Prop := c_startsAt c ≤ now ∧ now ≤ c_endsAt c.

(** [c.startsAt >= now] *)
Definition upcoming (c : Competition) : Prop := now ≤ c_startsAt c.

Definition is_leader (member : obj) : Prop := prop_string "role" member = lit "leader".

#[export] Instance ongoing_dec c : Decision (ongoing c).
Proof. unfold ongoing. apply _. Defined.
#[export] Instance upcoming_dec c : Decision (upcoming c).
Proof. unfold upcoming. apply _. Defined.
#[export] Instance is_leader_dec member : Decision (is_leader member).
Proof. unfold is_leader. apply _. Defined.

(** The competitions [calculateScore] looks at. *)
Definition competitions_of (group : Group) : list Competition :=
  competitionService_findForGroup (g_id group) (mkPagination 10000 0).

(** The average the specification speaks of: the mean of the members'
    [overallExperience]. *)
Definition mean_overallExperience (members : list obj) : Q :=
  inject_Z (foldr (λ m acc, default 0 (prop_num "overallExperience" m) + acc) 0 members)
  / inject_Z (Z.of_nat (length members)).

End ScoreVocabulary.
End ScoreVocabulary.

Export ScoreVocabulary.

(** ** Specifications of computations *)

Module Specification.

(** [outcome I R E m]: run from a store that satisfies [I], the
    computation [m] ends in a store that satisfies [I]; what it returns
    satisfies [R], what it throws satisfies [E]. *)
Definition outcome {A} (I : DB → Prop) (R : A → Prop) (E : error → Prop)
    (m : M A) : Prop :=
  ∀ db, I db →
    I (final m db)
    ∧ match result m db with
      | inr x => R x
      | inl e => E e
      end.

(** [keeps I R m]: the same, whatever is thrown. *)
Definition keeps {A} (I : DB → Prop) (R : A → Prop) (m : M A) : Prop :=
  outcome I R (λ _, True) m.

(** The error is a validation error. *)
Definition bad_request (e : error) : Prop :=
  match e with
  | BadRequestError _ _ => True
  | _ => False
  end.

(** The verificationHash is not a property of the object. *)
Definition hides_verificationHash (o : obj) : Prop :=
  o !! "verificationHash" = None.

(** [x] is not one of [xs]; an argument that is not given is none of them. *)
Definition outside (x : option jsstring) (xs : list jsstring) : Prop :=
  match x with
  | Some s => s ∉ xs
  | None => True
  end.

(** The group has no membership row. *)
Definition no_members (groupId : Z) (db : DB) : Prop :=
  Forall (λ m, m_groupId m ≠ groupId) (memberships db).

(** The rows of a key. *)
Definition rows_of (groupId playerId : Z) (db : DB) : list Membership :=
  filter (λ m, m_key m = (groupId, playerId)) (memberships db).

(** What [membership.update({ role })] does to a row. *)
Definition with_role (key : Z * Z) (role : jsstring) (m : Membership) : Membership :=
  if bool_decide (m_key m = key)
  then mkMembership (m_playerId m) (m_groupId m) role else m.

End Specification.

Export Specification.

(** ** Members *)

Module MemberVocabulary.
Section MemberVocabulary.
Context `{Services}.

(** The username of the entry names an existing player, the one that the
    player service finds for it, and that player has a membership row
    in the group. *)
Definition already_member (groupId : Z) (db : DB) (m : MemberInput) : Prop :=
  ∃ u p, in_username m = Some u
    ∧ head (filter (λ p, p_username p = standardize u) (players db)) = Some p
    ∧ (groupId, p_id p) ∈ m_key <$> memberships db.

End MemberVocabulary.
End MemberVocabulary.

Export MemberVocabulary.

(** ** Member lists *)

Module MemberListVocabulary.
Import GroupService.
Section MemberListVocabulary.
Context `{Services}.

(** The roles held in a group. *)
Definition roles_of (groupId : Z) (db : DB) : list jsstring :=
  m_role <$> filter (λ m, m_groupId m = groupId) (memberships db).

(** On the given strings, [localeCompare] orders as the code units do. *)
Definition localeCompare_is_code_unit_order (strings : list jsstring) : Prop :=
  ∀ a b, a ∈ strings → b ∈ strings → (localeCompare a b ≤ 0 ↔ lex_le a b).

(** Ascending order of the role strings. *)
Definition role_le (a b : obj) : Prop :=
  lex_le (prop_string "role" a) (prop_string "role" b).

(** On the given strings, [localeCompare] is the consistent comparator
    that ECMA-262 asks of it: of two strings one comes no later than
    the other, and coming no later is transitive. *)
Definition localeCompare_is_consistent (strings : list jsstring) : Prop :=
  (∀ a b, a ∈ strings → b ∈ strings →
     localeCompare a b ≤ 0 ∨ localeCompare b a ≤ 0)
  ∧ (∀ a b c, a ∈ strings → b ∈ strings → c ∈ strings →
       localeCompare a b ≤ 0 → localeCompare b c ≤ 0 → localeCompare a c ≤ 0).

(** Ascending order of the role strings under [localeCompare]. *)
Definition role_locale_le (a b : obj) : Prop :=
  localeCompare (prop_string "role" a) (prop_string "role" b) ≤ 0.

(** An object of the list, before it is sorted. *)
Definition member_object (experienceMap : gmap Z Z) (m : Player * jsstring) : obj :=
  <["overallExperience" :=
      VNum (default 0 (id ← prop_num "id" (<["role" := VStr (snd m)]> (Player_toJSON (fst m)));
                       experienceMap !! id))]>
    (<["role" := VStr (snd m)]> (Player_toJSON (fst m))).

(** The player has no snapshot. *)
Definition no_snapshots (playerId : Z) (db : DB) : Prop :=
  Forall (λ s, s_playerId s ≠ playerId) (snapshots db).

End MemberListVocabulary.
End MemberListVocabulary.

Export MemberListVocabulary.

(** ** What the specification asks where the code does otherwise *)

Module Expected.
Import GroupService.
Section Expected.
Context `{Services}.

(** In the specification's words, [findForPlayer]: "all groups a player
    belongs to, deduplicated, sorted by score desc, paginated after
    sort". *)
Definition findForPlayer_sorted_then_paginated (playerId : Z)
    (pagination : Pagination) : M (list obj) :=
  if negb (truthy_num playerId) then BadRequest (lit "Invalid player id.") else
  memberships ← Membership_findAll_player_Group playerId;
  memberships ← mapM (λ m, group ← defined (snd m); mret (fst m, group)) memberships;
  let groups :=
    format <$>
      slice (offset pagination) (offset pagination + limit pagination)
        (sort (λ a b, g_score b - g_score a)
           (snd <$> uniqBy (λ m, g_id (snd m)) memberships)) in
  attachMembersCount groups.

(** In the specification's words, [setMembers] followed by [getMembers]:
    "exactly the deduplicated (case-insensitive) input usernames with
    their specified roles (default 'member')". *)
Definition expected_members (members : list MemberInput) : list (jsstring * jsstring) :=
  (λ m, (default [] (in_username m),
         match in_role m with
         | Some r => if truthy_string r then r else lit "member"
         | None => lit "member"
         end))
    <$> uniqBy (λ m, toLowerCase (default [] (in_username m))) members.

(** The score and the id of a returned group; a page in descending
    order of score. *)
Definition score_of (group : obj) : Z := default 0 (prop_num "score" group).

Definition score_descending (page : list obj) : Prop :=
  StronglySorted (λ a b, score_of b ≤ score_of a) page.


(** The ids of the groups of a page. *)
Definition group_ids (page : error + list obj) : error + list (option Z) :=
  match page with
  | inr groups => inr (prop_num "id" <$> groups)
  | inl e => inl e
  end.

(** The usernames and roles of a member list. *)
Definition usernames_and_roles (members : error + list obj)
    : error + list (jsstring * jsstring) :=
  match members with
  | inr members =>
      inr ((λ m, (prop_string "username" m, prop_string "role" m)) <$> members)
  | inl e => inl e
  end.

(** The call returned, it did not throw. *)
Definition returned {A} (r : error + A) : bool :=
  match r with
  | inr _ => true
  | inl _ => false
  end.

(** The clan chat of a stored group. *)
Definition clanChat_of (id : Z) (db : DB) : option (option jsstring) :=
  g_clanChat <$> find_group id db.

Definition name_of (id : Z) (db : DB) : option jsstring :=
  g_name <$> find_group id db.

End Expected.
End Expected.

Export Expected.

(** ** Names that differ in their separators *)

Module SeparatorVocabulary.

(** The code units that [sanitizeName] reads as a space. *)
Definition is_separator (c : char) : Prop := c = UNDERSCORE ∨ c = HYPHEN ∨ c = SPACE.

(** Two names of the same length that agree at every position, but for
    which separator stands where there is one. *)
Definition same_up_to_separators (a b : jsstring) : Prop :=
  Forall2 (λ x y, x = y ∨ (is_separator x ∧ is_separator y)) a b.

End SeparatorVocabulary.

Export SeparatorVocabulary.

(** ** The bonuses of a score *)

Module BonusVocabulary.

(** The points of a bonus: [n] when its condition holds. *)
Definition points (P : Prop) `{Decision P} (n : Z) : Z := if decide P then n else 0.

End BonusVocabulary.

Export BonusVocabulary.

(** ** Calls that are refused *)

Module RefusalVocabulary.
Section RefusalVocabulary.
Context `{Services}.

(** The verification code is not the one of the group of that id, if
    there is such a group. *)
Definition code_not_accepted (id : Z) (verificationCode : jsstring) (db : DB) : Prop :=
  ∀ group, find_group id db = Some group →
    verifyCode (g_verificationHash group) verificationCode = false.

(** The call fails with a validation error and leaves the store as it is. *)
Definition refused {A} (call : M A) (db : DB) : Prop :=
  is_BadRequest (result call db) ∧ final call db = db.

(** The computation changes nothing when it throws. *)
Definition clean {A} (m : M A) : Prop :=
  ∀ db e, result m db = inl e → final m db = db.

End RefusalVocabulary.
End RefusalVocabulary.

Export RefusalVocabulary.

(** ** Pages of groups *)

Module PageVocabulary.
Import GroupService.
Section PageVocabulary.
Context `{Services}.

(** The number of membership rows of a group. *)
Definition member_count (groupId : Z) (db : DB) : Z :=
  Z.of_nat (length (filter (λ m, m_groupId m = groupId) (memberships db))).

(** A group object with the count of its rows, 0 when it has no [id]. *)
Definition with_member_count (db : DB) (group : obj) : obj :=
  <["memberCount" := VNum (from_option (λ id, member_count id db) 0 (prop_num "id" group))]>
    group.

(** A row as [list] and [findForPlayer] return it. *)
Definition listed (db : DB) (group : Group) : obj :=
  <["memberCount" := VNum (member_count (g_id group) db)]> (format group).

(** [ORDER BY score DESC, id ASC] *)
Definition by_score_then_id (a b : Group) : Prop :=
  g_score b < g_score a ∨ (g_score a = g_score b ∧ g_id a ≤ g_id b).

(** Descending order of score. *)
Definition by_score (a b : Group) : Prop := g_score b ≤ g_score a.

(** The group is stored and the player has a membership row in it. *)
Definition group_of_player (playerId : Z) (db : DB) (group : Group) : Prop :=
  group ∈ groups db ∧ (g_id group, playerId) ∈ m_key <$> memberships db.

(** The name of the row matches the pattern that [list] makes of a name. *)
Definition matches (name : jsstring) (group : Group) : Prop :=
  iLike (g_name group) (lit "%" ++ sanitizeName name ++ lit "%") = true.

End PageVocabulary.
End PageVocabulary.

Export PageVocabulary.

(** ** The members of a group and their snapshots *)

Module SnapshotVocabulary.
Import GroupService.
Section SnapshotVocabulary.
Context `{Services}.

(** The membership rows of a group, in table order. *)
Definition rows_of_group (groupId : Z) (db : DB) : list Membership :=
  filter (λ m, m_groupId m = groupId) (memberships db).

(** A snapshot of the player, none of whose snapshots is later. *)
Definition latest_snapshot_of (playerId : Z) (db : DB) (s : Snapshot) : Prop :=
  s ∈ snapshots db ∧ s_playerId s = playerId
  ∧ ∀ s', s' ∈ snapshots db → s_playerId s' = playerId →
          s_createdAt s' ≤ s_createdAt s.

(** The player has a snapshot. *)
Definition has_snapshots (playerId : Z) (db : DB) : Prop :=
  Exists (λ s, s_playerId s = playerId) (snapshots db).

#[export] Instance has_snapshots_dec playerId db : Decision (has_snapshots playerId db).
Proof. unfold has_snapshots. apply _. Defined.

(** The map from player ids to experience that [getMembersList] builds
    for the given players. *)
Definition experience_map (db : DB) (ids : list Z) : gmap Z Z :=
  s_overallExperience
    <$> keyBy s_playerId
          (sort (λ a b, s_playerId a - s_playerId b)
             (filter (λ s, s_playerId s ∈ ids
                           ∧ max_date (s_playerId s) (snapshots db)
                             = Some (s_createdAt s))
                (snapshots db))).

(** The players of the rows with the roles of the rows, when every row
    has its player. *)
Definition players_and_roles (db : DB) (rows : list Membership)
    : option (list (Player * jsstring)) :=
  mapM (λ m, (λ p, (p, m_role m)) <$> find_player (m_playerId m) db) rows.

(** The id and the role of a member object. *)
Definition id_and_role (member : obj) : option Z * jsstring :=
  (prop_num "id" member, prop_string "role" member).

End SnapshotVocabulary.
End SnapshotVocabulary.

Export SnapshotVocabulary.

(** ** Members that are due for an update *)

Module OutdatedVocabulary.
Import GroupService.
Section OutdatedVocabulary.
Context `{Services}.

(** The player of a membership row of the group, last updated more than
    ten minutes (600,000 ms) before now. *)
Definition outdated_member (groupId : Z) (db : DB) (player : Player) : Prop :=
  ∃ row, row ∈ rows_of_group groupId db
         ∧ find_player (m_playerId row) db = Some player
         ∧ p_updatedAt player < now - 600000.

End OutdatedVocabulary.
End OutdatedVocabulary.

Export OutdatedVocabulary.

(** ** Stored groups *)

Module GroupVocabulary.
Section GroupVocabulary.
Context `{Services}.

(** A stored group has the name. *)
Definition name_in_use (name : jsstring) (db : DB) : Prop :=
  Exists (λ g, g_name g = name) (groups db).

(** The name that [create] and [edit] make of their argument. *)
Definition sanitized_name (name : option jsstring) : jsstring :=
  sanitizeName (default [] name).

End GroupVocabulary.
End GroupVocabulary.

Export GroupVocabulary.

(** ** Edits *)

Module EditVocabulary.
Import GroupService.
Section EditVocabulary.
Context `{Services}.

(** [edit] calls [group.update] with the name and the clan chat that
    the group holds already. *)
Definition edit_of_held_values (stored : Group)
    (name clanChat : option jsstring) : Prop :=
  (truthy_opt_string name || truthy_opt_string clanChat = true)
  ∧ default (g_name stored)
      ((λ n, if truthy_string n then sanitizeName n else n) <$> name)
    = g_name stored
  ∧ sanitizedClanChat clanChat = g_clanChat stored.

(** Two records that differ in [updatedAt] at most. *)
Definition same_but_updatedAt (a b : obj) : Prop :=
  delete "updatedAt" a = delete "updatedAt" b.

End EditVocabulary.
End EditVocabulary.

Export EditVocabulary.

(** ** Achievements *)

Module AchievementVocabulary.
Section AchievementVocabulary.
Context `{Services}.

(** The player of a membership row of the group. *)
Definition member_player (groupId : Z) (db : DB) (player : Player) : Prop :=
  ∃ row, row ∈ rows_of_group groupId db
         ∧ find_player (m_playerId row) db = Some player.

(** What [getAchievements] shows of a player. *)
Definition player_summary (player : Player) : obj :=
  <["id" := VNum (p_id player)]>
  (<["username" := VStr (p_username player)]>
  (<["displayName" := VStr (p_displayName player)]>
  (<["type" := VStr (p_type player)]> ∅))).

End AchievementVocabulary.
End AchievementVocabulary.

Export AchievementVocabulary.

(** ** Stores that differ in one table *)

Module TableVocabulary.

(** The store with other snapshots. *)
Definition with_snapshots (rows : list Snapshot) (db : DB) : DB :=
  mkDB (groups db) (players db) (memberships db) rows (group_seq db) (player_seq db).

End TableVocabulary.

Export TableVocabulary.

(** ** Refreshed scores *)

Module RefreshVocabulary.
Section RefreshVocabulary.
Context `{Services}.

(** The tables that the scores are computed from are those of [db]. *)
Definition same_members (db db' : DB) : Prop :=
  players db' = players db ∧ memberships db' = memberships db
  ∧ snapshots db' = snapshots db.

(** What a stored row [g] is while [refreshScores] runs, for the row
    [g0] that it was: the same but for the score and the time of the
    last update; it carries the score of [g0] once the group is
    processed and is [g0] before. *)
Definition refreshed (db0 : DB) (processed : list Z) (g0 g : Group) : Prop :=
  g_id g = g_id g0 ∧ g_clanChat g = g_clanChat g0 ∧ g_verified g = g_verified g0
  ∧ (g_id g0 ∈ processed →
     result (GroupService.calculateScore g0) db0 = inr (g_score g))
  ∧ (g_id g0 ∉ processed → g = g0).

End RefreshVocabulary.
End RefreshVocabulary.

Export RefreshVocabulary.

(** ** The sequence of group ids *)

Module SequenceVocabulary.

(** The next id of the sequence is not 0 and not the id of a stored
    group. *)
Definition fresh_group_seq (db : DB) : Prop :=
  group_seq db ≠ 0 ∧ Forall (λ g, g_id g ≠ group_seq db) (groups db).

End SequenceVocabulary.

Export SequenceVocabulary.

(** ** The rows of the other groups *)

Module IsolationVocabulary.

(** The membership rows of the groups other than [groupId], in table
    order. *)
Definition rows_elsewhere (groupId : Z) (db : DB) : list Membership :=
  filter (λ m, m_groupId m ≠ groupId) (memberships db).

End IsolationVocabulary.

Export IsolationVocabulary.

(** ** Added members *)

Module AddVocabulary.
Section AddVocabulary.
Context `{Services}.

(** A stored player with the canonical form of the username of the
    entry has a membership row in the group. *)
Definition is_member (groupId : Z) (db : DB) (m : MemberInput) : Prop :=
  ∃ player,
    player ∈ players db
    ∧ Some (p_username player) = standardize <$> in_username m
    ∧ (groupId, p_id player) ∈ m_key <$> memberships db.

(** The keys and the players that are there stay. *)
Definition grows (keys : list (Z * Z)) (stored : list Player) (db : DB) : Prop :=
  keys ⊆ m_key <$> memberships db ∧ stored ⊆ players db.

End AddVocabulary.
End AddVocabulary.

Export AddVocabulary.

(** Collaborators and stores for the examples. *)
Module Examples.

Definition code_unit_compare (a b : jsstring) : Z :=
  match lex_compare a b with
  | Lt => -1
  | Eq => 0
  | Gt => 1
  end.

#[export] Instance services : Services := {|
  PERIODS := [lit "day"; lit "week"; lit "month"; lit "year"];
  ALL_METRICS := [lit "overall"; lit "attack"; lit "zulrah"];
  now := 1000;
  iLike := λ value pattern, true;
  localeCompare := code_unit_compare;
  generateVerification := (lit "123-456-789", lit "hash");
  verifyCode := λ hash code,
    bool_decide (hash = lit "hash" ∧ code = lit "123-456-789");
  standardize := λ s, toLowerCase (trim s);
  sanitize := trim;
  isValidUsername := truthy_opt_string;
  deltaService_getGroupLeaderboard := λ _ _ _ _, [];
  achievementService_findAllForGroup := λ _ _, [];
  recordService_getGroupLeaderboard := λ _ _ _ _, [];
  competitionService_findForGroup := λ _ _,
    [mkCompetition 1 900 1100; mkCompetition 2 2000 3000]
|}.

(** A verified group with a clan chat. *)
Definition clan : Group :=
  mkGroup 1 (lit "Clan") (Some (lit "clanchat")) 0 true (lit "hash") None 10 10.

(** [clan] with fifty members, the first a leader, each with one
    snapshot of 200,000,000 overall experience. *)
Definition big_db : DB :=
  mkDB [clan]
    ((λ i, mkPlayer i (lit "p" ++ Z_to_string i) (lit "P" ++ Z_to_string i)
             (lit "regular") 10) <$> seqZ 1 50)
    ((λ i, mkMembership i 1 (if i =? 1 then lit "leader" else lit "member"))
       <$> seqZ 1 50)
    ((λ i, mkSnapshot i 5 200000000) <$> seqZ 1 50)
    2 51.

(** The member list of [clan] in [big_db], as [getMembersList] gives it. *)
Definition big_members : list obj :=
  match result (GroupService.getMembersList 1) big_db with
  | inr members => members
  | inl _ => []
  end.

(** The first member of [clan] in [big_db], its leader. *)
Definition first_player : Player :=
  mkPlayer 1 (lit "p1") (lit "P1") (lit "regular") 10.

Definition first_membership : Membership := mkMembership 1 1 (lit "leader").

(** Two entries that name members of [clan] in [big_db]. *)
Definition two_members : list MemberInput :=
  [mkMemberInput (Some (lit "P1")) None;
   mkMemberInput (Some (lit "p2")) (Some (lit "leader"))].

(** [clan] with three members; the third has no snapshot. *)
Definition small_db : DB :=
  mkDB [clan]
    [mkPlayer 1 (lit "ann") (lit "Ann") (lit "regular") 10;
     mkPlayer 2 (lit "bob") (lit "Bob") (lit "ironman") 10;
     mkPlayer 3 (lit "cid") (lit "Cid") (lit "regular") 10]
    [mkMembership 1 1 (lit "member"); mkMembership 2 1 (lit "leader");
     mkMembership 3 1 (lit "member")]
    [mkSnapshot 1 5 1000; mkSnapshot 1 7 2000; mkSnapshot 2 6 3000]
    2 4.

(** The member list of [clan] in [small_db], as [getMembersList] gives it. *)
Definition small_members : list obj :=
  match result (GroupService.getMembersList 1) small_db with
  | inr members => members
  | inl _ => []
  end.

(** A members list in which the first username comes twice, in two
    cases, and the last entry is a leader. *)
Definition members_with_duplicate : list MemberInput :=
  [mkMemberInput (Some (lit "a")) None;
   mkMemberInput (Some (lit "A")) None;
   mkMemberInput (Some (lit "b")) (Some (lit "leader"))].

(** [clan] without members. *)
Definition empty_clan_db : DB := mkDB [clan] [] [] [] 2 1.

Definition low_group : Group :=
  mkGroup 1 (lit "Low") None 10 false (lit "h1") None 0 0.

Definition high_group : Group :=
  mkGroup 2 (lit "High") None 20 false (lit "h2") None 0 0.

(** One player in two groups, the group of the lower score joined first. *)
Definition two_groups_db : DB :=
  mkDB [low_group; high_group]
       [mkPlayer 7 (lit "zezima") (lit "Zezima") (lit "regular") 0]
       [mkMembership 7 1 (lit "member"); mkMembership 7 2 (lit "member")]
       [] 3 8.

(** A collation of the kind that ICU gives: strings are compared
    without the case of their letters first, and of two strings that
    differ in case only the one in lower case comes first. *)
Definition collation_compare (a b : jsstring) : Z :=
  match lex_compare (toLowerCase a) (toLowerCase b) with
  | Lt => -1
  | Eq => code_unit_compare b a
  | Gt => 1
  end.

(** The collaborators of the examples on a host of that collation. *)
Definition collation_services : Services := {|
  PERIODS := @PERIODS services;
  ALL_METRICS := @ALL_METRICS services;
  now := @now services;
  iLike := @iLike services;
  localeCompare := collation_compare;
  generateVerification := @generateVerification services;
  verifyCode := @verifyCode services;
  standardize := @standardize services;
  sanitize := @sanitize services;
  isValidUsername := @isValidUsername services;
  deltaService_getGroupLeaderboard := @deltaService_getGroupLeaderboard services;
  achievementService_findAllForGroup := @achievementService_findAllForGroup services;
  recordService_getGroupLeaderboard := @recordService_getGroupLeaderboard services;
  competitionService_findForGroup := @competitionService_findForGroup services
|}.

(** [clan] with two members, of the roles B and a. *)
Definition mixed_case_db : DB :=
  mkDB [clan]
    [mkPlayer 1 (lit "ann") (lit "Ann") (lit "regular") 10;
     mkPlayer 2 (lit "bob") (lit "Bob") (lit "ironman") 10]
    [mkMembership 1 1 (lit "B"); mkMembership 2 1 (lit "a")]
    [mkSnapshot 1 5 1000]
    2 3.

(** The member list of [clan] in [mixed_case_db], as [getMembersList]
    gives it on a host of that collation. *)
Definition mixed_case_members : list obj :=
  match result (GroupService.getMembersList (H := collation_services) 1)
          mixed_case_db with
  | inr members => members
  | inl _ => []
  end.

End Examples.

(** Further stores for the examples. *)
Module MoreExamples.
Import Examples.

(** What a call returned, for the examples. *)
Definition returned_or {A} (otherwise : A) (r : error + A) : A :=
  match r with
  | inr x => x
  | inl _ => otherwise
  end.

(** The member of [small_members] whose player has two snapshots. *)
Definition ann : obj := default ∅ (small_members !! 1%nat).

(** [clan] with two members, the first last updated long ago and the
    second a moment ago, and a third player who is in no group. *)
Definition stale_player : Player :=
  mkPlayer 1 (lit "ann") (lit "Ann") (lit "regular") (-700000).

Definition stale_db : DB :=
  mkDB [clan]
    [stale_player;
     mkPlayer 2 (lit "bob") (lit "Bob") (lit "ironman") 990;
     mkPlayer 3 (lit "cid") (lit "Cid") (lit "regular") (-700000)]
    [mkMembership 1 1 (lit "member"); mkMembership 2 1 (lit "leader")]
    [mkSnapshot 1 5 1000; mkSnapshot 3 6 3000]
    2 4.

(** An update action: it records a snapshot of the player. *)
Definition take_snapshot (player : Player) : M () :=
  modify (λ db, mkDB (groups db) (players db) (memberships db)
                     (snapshots db ++ [mkSnapshot (p_id player) 1000 0])
                     (group_seq db) (player_seq db)).

(** Levels read off the experience of a snapshot, for the examples. *)
Definition combat_level (s : Snapshot) : Z :=
  if 3000 <=? s_overallExperience s then 126 else 3.

Definition total_level (s : Snapshot) : Z :=
  if 3000 <=? s_overallExperience s then 2000 else 32.

(** [small_db] with a fourth player, who is in no group. *)
Definition outsider_db : DB :=
  mkDB [clan]
    (players small_db ++ [mkPlayer 4 (lit "dan") (lit "Dan") (lit "regular") 10])
    (memberships small_db) (snapshots small_db) 2 5.

(** The collaborators of the examples, with an achievement service that
    reports one achievement for every player it is asked about. *)
Definition maxed : obj := <["type" := VStr (lit "Maxed overall")]> ∅.

Definition achievement_services : Services := {|
  PERIODS := @PERIODS services;
  ALL_METRICS := @ALL_METRICS services;
  now := @now services;
  iLike := @iLike services;
  localeCompare := @localeCompare services;
  generateVerification := @generateVerification services;
  verifyCode := @verifyCode services;
  standardize := @standardize services;
  sanitize := @sanitize services;
  isValidUsername := @isValidUsername services;
  deltaService_getGroupLeaderboard := @deltaService_getGroupLeaderboard services;
  achievementService_findAllForGroup := λ ids _, (λ id, (id, maxed)) <$> ids;
  recordService_getGroupLeaderboard := @recordService_getGroupLeaderboard services;
  competitionService_findForGroup := @competitionService_findForGroup services
|}.

(** Two entries for [small_db]: a player that is not stored yet and a
    member. *)
Definition new_and_old : list MemberInput :=
  [mkMemberInput (Some (lit "Dan")) None;
   mkMemberInput (Some (lit "ann")) (Some (lit "leader"))].


(** A group created in [small_db], with two members. *)
Definition create_iron_men : M obj :=
  GroupService.create (Some (lit "Iron_Men")) None (Some two_members).

Definition iron_men : obj := returned_or ∅ (result create_iron_men small_db).

(** [clan] renamed in [small_db]. *)
Definition rename_clan : M obj :=
  GroupService.edit 1 (Some (lit "Iron_Men ")) None (lit "123-456-789") None.

Definition renamed_clan : obj := returned_or ∅ (result rename_clan small_db).

(** [clan] given a clan chat and two members in [small_db]. *)
Definition edit_clan : M obj :=
  GroupService.edit 1 None (Some (lit " chat ")) (lit "123-456-789") (Some two_members).

Definition edited_clan : obj := returned_or ∅ (result edit_clan small_db).

(** [clan] given the name and the clan chat it has in [small_db]. *)
Definition edit_clan_again : M obj :=
  GroupService.edit 1 (Some (lit "Clan")) (Some (lit "clanchat")) (lit "123-456-789")
    None.

Definition edited_clan_again : obj :=
  returned_or ∅ (result edit_clan_again small_db).

(** The two entries of [new_and_old] added to [clan] in [small_db]. *)
Definition add_new_and_old : M (list obj) :=
  GroupService.addMembers 1 (lit "123-456-789") (Some new_and_old).

Definition added : list obj := returned_or [] (result add_new_and_old small_db).

End MoreExamples.

(** * Properties *)

(** ** Name sanitization *)

Module SanitizeFacts.

Lemma trimStart_suffix s : ∃ k, s = k ++ trimStart s.
Proof.
induction s as [|c s [k IH]]; simpl.
- by exists [].
- destruct (is_whitespace c).
  + exists (c :: k). by rewrite IH at 1.
  + by exists [].
Qed.

Lemma trimEnd_prefix s : ∃ k, s = trimEnd s ++ k.
Proof.
unfold trimEnd. destruct (trimStart_suffix (reverse s)) as [k Hk].
exists (reverse k).
rewrite <- reverse_app, <- Hk. by rewrite reverse_involutive.
Qed.

Lemma trimStart_idemp s : trimStart (trimStart s) = trimStart s.
Proof.
induction s as [|c s IH]; simpl; [done|].
destruct (is_whitespace c) eqn:E; [done|]. simpl. by rewrite E.
Qed.

Lemma trimStart_snoc s c :
is_whitespace c = false → trimStart (s ++ [c]) = trimStart s ++ [c].
Proof.
intros Hc. induction s as [|d s IH]; simpl.
- by rewrite Hc.
- by destruct (is_whitespace d).
Qed.

Lemma trimEnd_cons c s :
is_whitespace c = false → trimEnd (c :: s) = c :: trimEnd s.
Proof.
intros Hc. unfold trimEnd.
by rewrite reverse_cons, trimStart_snoc, reverse_snoc.
Qed.

Lemma trimEnd_idemp s : trimEnd (trimEnd s) = trimEnd s.
Proof.
unfold trimEnd. by rewrite reverse_involutive, trimStart_idemp.
Qed.

Lemma trimStart_head s :
trimStart s = [] ∨ ∃ c s', trimStart s = c :: s' ∧ is_whitespace c = false.
Proof.
induction s as [|c s IH]; simpl; [by left|].
destruct (is_whitespace c) eqn:E; [done|]. right. by exists c, s.
Qed.

Lemma trim_idemp s : trim (trim s) = trim s.
Proof.
unfold trim. destruct (trimStart_head s) as [->|(c & s' & -> & Hc)]; [done|].
rewrite trimEnd_cons by done. simpl. rewrite Hc.
by rewrite trimEnd_cons, trimEnd_idemp.
Qed.

Lemma trim_Forall (P : char → Prop) s : Forall P s → Forall P (trim s).
Proof.
intros Hs. unfold trim.
destruct (trimStart_suffix s) as [k Hk].
destruct (trimEnd_prefix (trimStart s)) as [k' Hk'].
rewrite Hk, Hk' in Hs.
by apply Forall_app in Hs as [_ [? _]%Forall_app].
Qed.

Lemma single_spaced_tail c s : single_spaced (c :: s) → single_spaced s.
Proof. destruct s; simpl; tauto. Qed.

Lemma single_spaced_suffix k s : single_spaced (k ++ s) → single_spaced s.
Proof.
induction k as [|c k IH]; [done|].
intros Hs. apply IH. by apply single_spaced_tail in Hs.
Qed.

Lemma single_spaced_prefix s k : single_spaced (s ++ k) → single_spaced s.
Proof.
induction s as [|c s IH]; [done|].
destruct s as [|d s]; [done|].
simpl. intros [? ?]. split; [done|]. by apply IH.
Qed.

Lemma trim_single_spaced s : single_spaced s → single_spaced (trim s).
Proof.
intros Hs. unfold trim.
destruct (trimStart_suffix s) as [k Hk].
destruct (trimEnd_prefix (trimStart s)) as [k' Hk'].
rewrite Hk in Hs. apply single_spaced_suffix in Hs.
rewrite Hk' in Hs. by apply single_spaced_prefix in Hs.
Qed.

Lemma remove_spaces_head c s :
head (remove_spaces_before_space (c :: s)) = Some c.
Proof.
revert c. induction s as [|d s IH]; intros c; [done|].
change (remove_spaces_before_space (c :: d :: s)) with
  (if bool_decide (c = SPACE) && bool_decide (d = SPACE)
   then remove_spaces_before_space (d :: s)
   else c :: remove_spaces_before_space (d :: s)).
destruct (bool_decide (c = SPACE) && bool_decide (d = SPACE)) eqn:E; [|done].
apply andb_prop in E as [->%bool_decide_eq_true <-%bool_decide_eq_true].
apply IH.
Qed.

Lemma remove_spaces_single_spaced s :
single_spaced (remove_spaces_before_space s).
Proof.
induction s as [|c s IH]; [done|].
destruct s as [|d s]; [done|].
change (remove_spaces_before_space (c :: d :: s)) with
  (if bool_decide (c = SPACE) && bool_decide (d = SPACE)
   then remove_spaces_before_space (d :: s)
   else c :: remove_spaces_before_space (d :: s)).
destruct (bool_decide (c = SPACE) && bool_decide (d = SPACE)) eqn:E; [done|].
pose proof (remove_spaces_head d s) as Hd.
destruct (remove_spaces_before_space (d :: s)) as [|d' r]; [done|].
simpl in Hd. injection Hd as ->.
split; [|done].
intros [-> ->]. by rewrite !bool_decide_eq_true_2 in E.
Qed.

Lemma remove_spaces_Forall (P : char → Prop) s :
Forall P s → Forall P (remove_spaces_before_space s).
Proof.
induction s as [|c s IH]; [done|].
intros [Hc Hs]%Forall_cons. specialize (IH Hs).
destruct s as [|d s]; [by constructor|].
change (remove_spaces_before_space (c :: d :: s)) with
  (if bool_decide (c = SPACE) && bool_decide (d = SPACE)
   then remove_spaces_before_space (d :: s)
   else c :: remove_spaces_before_space (d :: s)).
destruct (bool_decide (c = SPACE) && bool_decide (d = SPACE)); [done|].
by constructor.
Qed.

Lemma remove_spaces_id s :
single_spaced s → remove_spaces_before_space s = s.
Proof.
induction s as [|c s IH]; [done|].
destruct s as [|d s]; [done|].
intros [Hcd Hs].
change (remove_spaces_before_space (c :: d :: s)) with
  (if bool_decide (c = SPACE) && bool_decide (d = SPACE)
   then remove_spaces_before_space (d :: s)
   else c :: remove_spaces_before_space (d :: s)).
destruct (bool_decide (c = SPACE) && bool_decide (d = SPACE)) eqn:E.
- apply andb_prop in E as [?%bool_decide_eq_true ?%bool_decide_eq_true]. tauto.
- by rewrite IH.
Qed.

Lemma replace_all_id c d s : Forall (λ x, x ≠ c) s → replace_all c d s = s.
Proof.
intros Hs. unfold replace_all.
induction Hs as [|x s Hx _ IH]; [done|].
simpl. rewrite bool_decide_eq_false_2 by done. by f_equal.
Qed.

Lemma replace_all_absent c d s : c ≠ d → Forall (λ x, x ≠ c) (replace_all c d s).
Proof.
intros Hcd. unfold replace_all. apply Forall_fmap, Forall_forall.
intros x _. simpl. case_bool_decide; congruence.
Qed.

Lemma replace_all_Forall (P : char → Prop) c d s :
P d → Forall P s → Forall P (replace_all c d s).
Proof.
intros Hd Hs. unfold replace_all. apply Forall_fmap.
eapply Forall_impl; [exact Hs|]. intros x Hx. simpl. by case_bool_decide.
Qed.

Lemma sanitizeName_sanitized s : sanitized (sanitizeName s).
Proof.
unfold sanitizeName. repeat split.
- apply trim_Forall, remove_spaces_Forall, replace_all_Forall; [done|].
  by apply replace_all_absent.
- apply trim_Forall, remove_spaces_Forall. by apply replace_all_absent.
- apply trim_single_spaced, remove_spaces_single_spaced.
- apply trim_idemp.
Qed.

Lemma sanitizeName_fixed s : sanitized s → sanitizeName s = s.
Proof.
intros (Hu & Hh & Hs & Ht). unfold sanitizeName.
rewrite (replace_all_id UNDERSCORE) by done.
rewrite (replace_all_id HYPHEN) by done.
by rewrite remove_spaces_id.
Qed.

End SanitizeFacts.

(** C9: sanitizing a sanitized name changes nothing, for every string:
  [sanitizeName (sanitizeName s) = sanitizeName s]. *)
Theorem sanitizeName_idempotent (s : jsstring) :
sanitizeName (sanitizeName s) = sanitizeName s.
Proof.
apply SanitizeFacts.sanitizeName_fixed, SanitizeFacts.sanitizeName_sanitized.
Qed.

(** Closed goals are settled by evaluation. *)
Ltac vm_refl :=
  lazymatch goal with
  | |- ?a = ?b => vm_cast_no_check (@eq_refl _ b)
  end.

Ltac vm_decide := apply (bool_decide_eq_true_1 _); vm_refl.

Ltac vm_discriminate :=
  let H := fresh in intros H; vm_compute in H; discriminate H.

(** ** The monad *)

Module MonadFacts.

Lemma bind_inr {A B} (m : M A) (f : A → M B) db db' x :
  m db = (db', inr x) → (m ≫= f) db = f x db'.
Proof. intros Hm. unfold mbind, M_bind. by rewrite Hm. Qed.

Lemma bind_inl {A B} (m : M A) (f : A → M B) db db' e :
  m db = (db', inl e) → (m ≫= f) db = (db', inl e).
Proof. intros Hm. unfold mbind, M_bind. by rewrite Hm. Qed.

Lemma result_bind {A B} (m : M A) (f : A → M B) db x :
  result m db = inr x → result (m ≫= f) db = result (f x) (final m db).
Proof.
  unfold result, final. intros Hm.
  destruct (m db) as [db' r] eqn:E. simpl in Hm. subst r.
  by rewrite (bind_inr _ _ _ _ _ E).
Qed.

Lemma final_bind {A B} (m : M A) (f : A → M B) db x :
  result m db = inr x → final (m ≫= f) db = final (f x) (final m db).
Proof.
  unfold result, final. intros Hm.
  destruct (m db) as [db' r] eqn:E. simpl in Hm. subst r.
  by rewrite (bind_inr _ _ _ _ _ E).
Qed.

Lemma result_bind_error {A B} (m : M A) (f : A → M B) db e :
  result m db = inl e → result (m ≫= f) db = inl e.
Proof.
  unfold result. intros Hm.
  destruct (m db) as [db' r] eqn:E. simpl in Hm. subst r.
  by rewrite (bind_inl _ _ _ _ _ E).
Qed.

Lemma final_bind_error {A B} (m : M A) (f : A → M B) db e :
  result m db = inl e → final (m ≫= f) db = final m db.
Proof.
  unfold result, final. intros Hm.
  destruct (m db) as [db' r] eqn:E. simpl in Hm. subst r.
  by rewrite (bind_inl _ _ _ _ _ E).
Qed.

End MonadFacts.

(** ** Scores *)

Module ScoreFacts.
Import GroupService MonadFacts.
Section ScoreFacts.
Context `{Services}.

Lemma bonus_plus condition points score :
  bonus condition points score = score + bonus condition points 0.
Proof. unfold bonus. destruct condition; lia. Qed.

Lemma experience_bonus_plus average score :
  experience_bonus average score = score + experience_bonus average 0.
Proof.
  unfold experience_bonus.
  rewrite (bonus_plus _ 60), (bonus_plus _ 30).
  rewrite (bonus_plus _ 60 (bonus _ 30 0)). lia.
Qed.

Lemma filter_Exists_length {A} (P : A → Prop) `{∀ x, Decision (P x)} (l : list A) :
  Exists P l → (1 <=? Z.of_nat (length (filter P l))) = true.
Proof.
  intros (x & Hx & HP)%Exists_exists.
  assert (x ∈ filter P l) as Hin by by apply list_elem_of_filter.
  destruct (filter P l); [by apply elem_of_nil in Hin|].
  simpl. apply Z.leb_le. lia.
Qed.

(** The string that the reduction of [calculateScore] builds from a
    non-empty member list starts with ["0["]. *)
Lemma foldl_add_string s (members : list obj) :
  ∃ t, foldl add (VStr s) (VObj <$> members) = VStr (s ++ t).
Proof.
  revert s. induction members as [|m members IH]; intros s.
  - exists []. by rewrite app_nil_r.
  - cbn [fmap list_fmap foldl].
    change (add (VStr s) (VObj m)) with (VStr (s ++ lit "[object Object]")).
    destruct (IH (s ++ lit "[object Object]")) as [t Ht].
    exists (lit "[object Object]" ++ t). by rewrite Ht, <- app_assoc.
Qed.

Lemma StringToNumber_zero_bracket t :
  StringToNumber (48%N :: 91%N :: t) = NaN.
Proof.
  unfold StringToNumber, trim.
  change (trimStart (48%N :: 91%N :: t)) with (48%N :: 91%N :: t).
  by rewrite !SanitizeFacts.trimEnd_cons.
Qed.

(** The average of [calculateScore] is [NaN] for every member list: the
    reduction adds the member objects themselves. *)
Lemma averageOverallExp_NaN (members : list obj) : averageOverallExp members = NaN.
Proof.
  unfold averageOverallExp. destruct members as [|m members]; [done|].
  cbn [fmap list_fmap foldl].
  change (add (VNum 0) (VObj m)) with (VStr (48%N :: lit "[object Object]")).
  destruct (foldl_add_string (48%N :: lit "[object Object]") members) as [t ->].
  cbn [ToNumber]. change ((48%N :: lit "[object Object]") ++ t)
    with (48%N :: 91%N :: (lit "object Object]" ++ t)).
  by rewrite StringToNumber_zero_bracket.
Qed.

Lemma calculateScore_members db group members :
  result (getMembersList (g_id group)) db = inr members →
  result (calculateScore group) db =
  inr (if bool_decide (length members = 0%nat) then 0 else
       bonus (1 <=? Z.of_nat (length (filter upcoming (competitions_of group)))) 30
         (bonus (1 <=? Z.of_nat (length (filter ongoing (competitions_of group)))) 50
            (bonus (g_verified group) 100
               (bonus (truthy_opt_string (g_clanChat group)) 50
                  (experience_bonus (averageOverallExp members)
                     (bonus (50 <=? Z.of_nat (length members)) 40
                        (bonus (10 <=? Z.of_nat (length members)) 20
                           (bonus (1 <=? Z.of_nat (length (filter is_leader members)))
                              30 0)))))))).
Proof.
  intros Hm. unfold calculateScore. rewrite (result_bind _ _ _ _ Hm).
  by case_bool_decide.
Qed.

End ScoreFacts.
End ScoreFacts.

(** C1 (as amended): a group whose member list is empty scores 0; a
    group with at least one leader, at least 50 members, a non-empty
    clan chat, verified, with an ongoing and an upcoming competition
    scores 30 + 20 + 40 + 50 + 100 + 50 + 30 = 320 plus what the two
    tests on the average contribute. *)
Theorem calculateScore_extremes `{Services} (db : DB) (group : Group)
    (members : list obj) :
  result (GroupService.getMembersList (g_id group)) db = inr members →
  (members = [] → result (GroupService.calculateScore group) db = inr 0)
  ∧ (Exists is_leader members →
     (50 ≤ length members)%nat →
     truthy_opt_string (g_clanChat group) = true →
     g_verified group = true →
     Exists ongoing (competitions_of group) →
     Exists upcoming (competitions_of group) →
     result (GroupService.calculateScore group) db
     = inr (320 + GroupService.experience_bonus
                    (GroupService.averageOverallExp members) 0)).
Proof.
  intros Hm. rewrite (ScoreFacts.calculateScore_members _ _ _ Hm). split.
  - by intros ->.
  - intros Hleader Hsize Hchat Hverified Hongoing Hupcoming.
    rewrite bool_decide_eq_false_2 by lia.
    rewrite !ScoreFacts.filter_Exists_length by done.
    rewrite Hchat, Hverified.
    replace (10 <=? Z.of_nat (length members)) with true
      by (symmetry; apply Z.leb_le; lia).
    replace (50 <=? Z.of_nat (length members)) with true
      by (symmetry; apply Z.leb_le; lia).
    rewrite ScoreFacts.experience_bonus_plus. unfold GroupService.bonus.
    f_equal. lia.
Qed.

Section CalculateScoreExamples.
Import Examples.

Lemma calculateScore_extremes_witness :
  (result (GroupService.getMembersList (g_id Examples.clan)) Examples.empty_clan_db
   = inr []
   ∧ result (GroupService.calculateScore Examples.clan) Examples.empty_clan_db = inr 0)
  ∧ (result (GroupService.getMembersList (g_id Examples.clan)) Examples.big_db
     = inr Examples.big_members
     ∧ Exists is_leader Examples.big_members
     ∧ (50 ≤ length Examples.big_members)%nat
     ∧ truthy_opt_string (g_clanChat Examples.clan) = true
     ∧ g_verified Examples.clan = true
     ∧ Exists ongoing (competitions_of Examples.clan)
     ∧ Exists upcoming (competitions_of Examples.clan)
     ∧ result (GroupService.calculateScore Examples.clan) Examples.big_db
       = inr (320 + GroupService.experience_bonus
                      (GroupService.averageOverallExp Examples.big_members) 0)).
Proof.
  assert (result (GroupService.getMembersList (g_id Examples.clan))
            Examples.empty_clan_db = inr []) as H0 by vm_refl.
  assert (result (GroupService.getMembersList (g_id Examples.clan)) Examples.big_db
          = inr Examples.big_members) as H1 by vm_refl.
  assert (Exists is_leader Examples.big_members) as H2
    by vm_decide.
  assert ((50 ≤ length Examples.big_members)%nat) as H3
    by vm_decide.
  assert (Exists ongoing (competitions_of Examples.clan)) as H4
    by vm_decide.
  assert (Exists upcoming (competitions_of Examples.clan)) as H5
    by vm_decide.
  split.
  - split; [exact H0|].
    exact (proj1 (calculateScore_extremes Examples.empty_clan_db Examples.clan [] H0)
             eq_refl).
  - do 7 (split; [assumption || reflexivity|]).
    exact (proj2 (calculateScore_extremes Examples.big_db Examples.clan
                    Examples.big_members H1)
             H2 H3 eq_refl eq_refl H4 H5).
Defined.

(** C1, counterexample to the score of 390: the group of [Examples.big_db] has a
    leader, fifty members whose mean overall experience is 200,000,000,
    a clan chat, is verified and has one ongoing and one upcoming
    competition; its score is 320, not 390. *)
Lemma calculateScore_full_group_is_not_390 :
  result (GroupService.getMembersList (g_id Examples.clan)) Examples.big_db
  = inr Examples.big_members
  ∧ Exists is_leader Examples.big_members
  ∧ (50 ≤ length Examples.big_members)%nat
  ∧ Qle_bool (inject_Z 100000000) (mean_overallExperience Examples.big_members) = true
  ∧ truthy_opt_string (g_clanChat Examples.clan) = true
  ∧ g_verified Examples.clan = true
  ∧ length (filter ongoing (competitions_of Examples.clan)) = 1%nat
  ∧ length (filter upcoming (competitions_of Examples.clan)) = 1%nat
  ∧ result (GroupService.calculateScore Examples.clan) Examples.big_db = inr 320
  ∧ result (GroupService.calculateScore Examples.clan) Examples.big_db ≠ inr 390.
Proof.
  assert (result (GroupService.calculateScore Examples.clan) Examples.big_db
          = inr 320) as Hscore by vm_refl.
  split; [vm_refl|].
  split; [vm_decide|].
  split; [vm_decide|].
  do 5 (split; [vm_refl|]).
  split; [exact Hscore|]. rewrite Hscore. discriminate.
Qed.

End CalculateScoreExamples.

(** ** Rules for [keeps] *)

Module KeepsFacts.
Import MonadFacts.

Section Rules.
Context (I : DB → Prop) (E : error → Prop).

Lemma outcome_ret {A} (R : A → Prop) x : R x → outcome I R E (mret x).
Proof. by intros HR db HI. Qed.

Lemma outcome_throw {A} (R : A → Prop) e : E e → outcome I R E (throw e).
Proof. by intros HE db HI. Qed.

Lemma outcome_bind {A B} (R' : A → Prop) (R : B → Prop) (m : M A) (f : A → M B) :
  outcome I R' E m → (∀ x, R' x → outcome I R E (f x)) → outcome I R E (m ≫= f).
Proof.
  intros Hm Hf db HI. destruct (Hm db HI) as [HI' HR'].
  unfold final, result in *.
  destruct (m db) as [db' [e|x]] eqn:Em.
  - by rewrite (bind_inl _ _ _ _ _ Em).
  - rewrite (bind_inr _ _ _ _ _ Em). by apply (Hf x).
Qed.

Lemma outcome_weaken {A} (R R' : A → Prop) (m : M A) :
  outcome I R E m → (∀ x, R x → R' x) → outcome I R' E m.
Proof.
  intros Hm HR db HI. destruct (Hm db HI) as [? Hx]. split; [done|].
  destruct (result m db); [done|]. by apply HR.
Qed.

Lemma outcome_get : outcome I I E get.
Proof. by intros db HI. Qed.

Lemma outcome_query {A} (F : DB → A) :
  outcome I (λ r, ∃ db, I db ∧ r = F db) E (db ← get; mret (F db)).
Proof. intros db HI. split; [done|]. by exists db. Qed.

Lemma outcome_modify (f : DB → DB) :
  (∀ db, I db → I (f db)) → outcome I (λ _, True) E (modify f).
Proof. intros Hf db HI. split; [by apply Hf|done]. Qed.

Lemma outcome_mapM {A B} (R : A → B → Prop) (f : A → M B) (l : list A) :
  (∀ x, x ∈ l → outcome I (R x) E (f x)) →
  outcome I (λ ys, Forall2 R l ys) E (mapM f l).
Proof.
  induction l as [|x l IH]; intros Hf.
  - apply outcome_ret. constructor.
  - cbn [mapM]. eapply outcome_bind.
    + apply Hf. by left.
    + intros y Hy. eapply outcome_bind.
      * apply IH. intros z Hz. apply Hf. by right.
      * intros ys Hys. apply outcome_ret. by constructor.
Qed.

End Rules.

Lemma outcome_errors {A} (I : DB → Prop) (R : A → Prop) (E E' : error → Prop)
    (m : M A) :
  outcome I R E m → (∀ e, E e → E' e) → outcome I R E' m.
Proof.
  intros Hm HE db HI. destruct (Hm db HI) as [? Hx]. split; [done|].
  destruct (result m db); [by apply HE|done].
Qed.

Section KeepsRules.
Context (I : DB → Prop).

Lemma keeps_ret {A} (R : A → Prop) x : R x → keeps I R (mret x).
Proof. apply outcome_ret. Qed.

Lemma keeps_throw {A} (R : A → Prop) e : keeps I R (throw e).
Proof. by apply outcome_throw. Qed.

Lemma keeps_bind {A B} (R' : A → Prop) (R : B → Prop) (m : M A) (f : A → M B) :
  keeps I R' m → (∀ x, R' x → keeps I R (f x)) → keeps I R (m ≫= f).
Proof. apply outcome_bind. Qed.

Lemma keeps_weaken {A} (R R' : A → Prop) (m : M A) :
  keeps I R m → (∀ x, R x → R' x) → keeps I R' m.
Proof. apply outcome_weaken. Qed.

Lemma keeps_get : keeps I I get.
Proof. apply outcome_get. Qed.

Lemma keeps_query {A} (F : DB → A) :
  keeps I (λ r, ∃ db, I db ∧ r = F db) (db ← get; mret (F db)).
Proof. apply outcome_query. Qed.

Lemma keeps_modify (f : DB → DB) :
  (∀ db, I db → I (f db)) → keeps I (λ _, True) (modify f).
Proof. apply outcome_modify. Qed.

Lemma keeps_mapM {A B} (R : A → B → Prop) (f : A → M B) (l : list A) :
  (∀ x, x ∈ l → keeps I (R x) (f x)) →
  keeps I (λ ys, Forall2 R l ys) (mapM f l).
Proof. apply outcome_mapM. Qed.

End KeepsRules.

Lemma keeps_when (I : DB → Prop) (b : bool) (m : M ()) :
  keeps I (λ _, True) m → keeps I (λ _, True) (when_ b m).
Proof. intros Hm. destruct b; [done|]. by apply keeps_ret. Qed.

(** The same rules when nothing is asked of the results. *)
Lemma keeps_bind_any {A B} (I : DB → Prop) (R : B → Prop) (m : M A) (f : A → M B) :
  keeps I (λ _, True) m → (∀ x, keeps I R (f x)) → keeps I R (m ≫= f).
Proof. intros Hm Hf. eapply keeps_bind; [exact Hm|]. intros x _. apply Hf. Qed.

Lemma keeps_any {A} (I : DB → Prop) (R : A → Prop) (m : M A) :
  keeps I R m → keeps I (λ _, True) m.
Proof. intros Hm. eapply keeps_weaken; [exact Hm|done]. Qed.

Lemma keeps_mapM_any {A B} (I : DB → Prop) (f : A → M B) (l : list A) :
  (∀ x, keeps I (λ _, True) (f x)) → keeps I (λ _, True) (mapM f l).
Proof.
  intros Hf. eapply keeps_any, (keeps_mapM I (λ _ _, True)).
  intros x _. apply Hf.
Qed.

End KeepsFacts.

(** ** The key of [memberships] *)

Module UniqueFacts.
Import MonadFacts KeepsFacts.

Create HintDb keeps discriminated.

Lemma keeps_query_any {A} (I : DB → Prop) (F : DB → A) :
  keeps I (λ _, True) (db ← get; mret (F db)).
Proof. eapply keeps_any, keeps_query. Qed.

Lemma keeps_get_any (I : DB → Prop) : keeps I (λ _, True) get.
Proof. eapply keeps_any, keeps_get. Qed.

(** A step through a computation whose results are not constrained. *)
Ltac keeps_step :=
  lazymatch goal with
  | |- keeps _ _ (mret _) => by apply keeps_ret
  | |- keeps _ _ (throw _) => apply keeps_throw
  | |- keeps _ _ (BadRequest _) => apply keeps_throw
  | |- keeps _ _ (when_ _ _) => apply keeps_when
  | |- keeps _ _ (mapM _ _) => apply keeps_mapM_any; intros
  | |- keeps _ _ (if ?b then _ else _) => destruct b
  | |- keeps _ _ (match ?x with _ => _ end) => destruct x
  | |- keeps _ _ (_ ≫= _) => apply keeps_bind_any; [|intros]
  | |- keeps _ _ _ => solve [eauto with keeps]
  end.

Ltac keeps_steps := repeat keeps_step.

Section Unique.
Context `{Services}.

Abbreviation unique := membership_unique.
Abbreviation any := (λ _, True).

Lemma unique_filter (P : Membership → Prop) `{∀ m, Decision (P m)} db :
  unique db → unique (set_memberships (filter P) db).
Proof.
  unfold membership_unique. cbn [memberships set_memberships].
  induction (memberships db) as [|m l IH]; [done|].
  rewrite fmap_cons, NoDup_cons. intros [Hm Hl]. rewrite filter_cons.
  destruct (decide (P m)); [|by apply IH].
  rewrite fmap_cons, NoDup_cons. split; [|by apply IH].
  intros (m' & Hk & [_ Hin]%list_elem_of_filter)%list_elem_of_fmap.
  apply Hm, list_elem_of_fmap. by exists m'.
Qed.

Lemma unique_insert_absent r l :
  NoDup (m_key <$> l) → has_key (m_key r) l = false →
  NoDup (m_key <$> l ++ [r]).
Proof.
  intros Hl Hr. rewrite fmap_app. apply NoDup_app. split; [done|]. split.
  - intros k Hk [->|[]%elem_of_nil]%elem_of_cons.
    unfold has_key in Hr. by apply bool_decide_eq_false in Hr.
  - apply NoDup_singleton.
Qed.

Lemma unique_ignoreDuplicates rows l :
  NoDup (m_key <$> l) →
  NoDup (m_key <$> foldl (λ l r, if has_key (m_key r) l then l else l ++ [r]) l rows).
Proof.
  revert l. induction rows as [|r rows IH]; intros l Hl; [done|].
  cbn [foldl]. apply IH. destruct (has_key (m_key r) l) eqn:E; [done|].
  by apply unique_insert_absent.
Qed.

Lemma unique_update_role key role l :
  NoDup (m_key <$> l) →
  NoDup (m_key <$> ((λ m, if bool_decide (m_key m = key)
                          then mkMembership (m_playerId m) (m_groupId m) role
                          else m) <$> l)).
Proof.
  intros Hl. rewrite <- list_fmap_compose.
  erewrite list_fmap_ext; [exact Hl|].
  intros i m _. simpl. by case_bool_decide.
Qed.

Section Queries.
Context (I : DB → Prop).

Lemma keeps_Group_findOne id : keeps I any (Group_findOne id).
Proof. apply keeps_query_any. Qed.

Lemma keeps_Group_findOne_name name : keeps I any (Group_findOne_name name).
Proof. apply keeps_query_any. Qed.

Lemma keeps_Group_findAll : keeps I any Group_findAll.
Proof. apply keeps_query_any. Qed.

Lemma keeps_Group_getMembers group : keeps I any (Group_getMembers group).
Proof. apply keeps_query_any. Qed.

Lemma keeps_Membership_findAll_group_Player id :
  keeps I any (Membership_findAll_group_Player id).
Proof. apply keeps_query_any. Qed.

Lemma keeps_Membership_findOne_username id username :
  keeps I any (Membership_findOne_username id username).
Proof. apply keeps_query_any. Qed.

Lemma keeps_latest_snapshots ids : keeps I any (latest_snapshots ids).
Proof. apply keeps_query_any. Qed.

Lemma keeps_findAll usernames : keeps I any (PlayerService.findAll usernames).
Proof. apply keeps_query_any. Qed.

Lemma keeps_defined {A} (x : option A) : keeps I any (GroupService.defined x).
Proof. destruct x; [by apply keeps_ret|apply keeps_throw]. Qed.

Lemma keeps_not_found {A} id : keeps I any (GroupService.not_found (A:=A) id).
Proof. apply keeps_throw. Qed.

Lemma keeps_invalid_usernames {A} l :
  keeps I any (GroupService.invalid_usernames (A:=A) l).
Proof. apply keeps_throw. Qed.

Lemma keeps_name_taken_error {A} name :
  keeps I any (GroupService.name_taken_error (A:=A) name).
Proof. apply keeps_throw. Qed.

End Queries.

Lemma keeps_set_groups f : keeps unique any (modify (set_groups f)).
Proof. by apply keeps_modify. Qed.

Lemma keeps_Group_create name clanChat code hash :
  keeps unique any (Group_create name clanChat code hash).
Proof.
  unfold Group_create. apply keeps_bind_any; [apply keeps_get_any|]. intros db.
  keeps_steps. by apply keeps_modify.
Qed.

Lemma keeps_Group_update_name_clanChat group name clanChat :
  keeps unique any (Group_update_name_clanChat group name clanChat).
Proof.
  unfold Group_update_name_clanChat.
  apply keeps_bind_any; [apply keeps_get_any|]. intros db.
  keeps_steps. apply keeps_set_groups.
Qed.

Lemma keeps_Group_update_score group score :
  keeps unique any (Group_update_score group score).
Proof. apply keeps_set_groups. Qed.

Lemma keeps_Group_touch group : keeps unique any (Group_touch group).
Proof. apply keeps_set_groups. Qed.

Lemma keeps_Group_destroy group : keeps unique any (Group_destroy group).
Proof.
  apply keeps_modify. intros db Hdb.
  by apply (unique_filter (λ m, m_groupId m ≠ g_id group)) in Hdb.
Qed.

Lemma keeps_Membership_destroy_group id :
  keeps unique any (Membership_destroy_group id).
Proof. apply keeps_modify. intros db. apply unique_filter. Qed.

Lemma keeps_Membership_bulkCreate_ignoreDuplicates rows :
  keeps unique any (Membership_bulkCreate_ignoreDuplicates rows).
Proof. apply keeps_modify. intros db. apply unique_ignoreDuplicates. Qed.

Lemma keeps_Membership_bulkCreate rows :
  keeps unique any (Membership_bulkCreate rows).
Proof.
  intros db Hdb. unfold final, result, Membership_bulkCreate.
  erewrite bind_inr by reflexivity.
  case_bool_decide as Hrows; [by split; [exact Hrows|]|by split].
Qed.

Lemma keeps_Membership_update_role membership role :
  keeps unique any (Membership_update_role membership role).
Proof. apply keeps_modify. intros db. apply unique_update_role. Qed.

Lemma keeps_Group_addMembers group newPlayers through :
  keeps unique any (Group_addMembers group newPlayers through).
Proof.
  unfold Group_addMembers. apply keeps_bind_any; [apply keeps_get_any|]. intros db.
  keeps_steps; first [apply keeps_Membership_bulkCreate
                     |apply keeps_Membership_update_role].
Qed.

Lemma keeps_Group_removeMembers group playersToRemove :
  keeps unique any (Group_removeMembers group playersToRemove).
Proof.
  unfold Group_removeMembers. apply keeps_bind_any; [apply keeps_get_any|]. intros db.
  keeps_steps. apply keeps_modify. intros db'. apply unique_filter.
Qed.

Lemma keeps_findOrCreate username :
  keeps unique any (PlayerService.findOrCreate username).
Proof.
  unfold PlayerService.findOrCreate.
  apply keeps_bind_any; [apply keeps_get_any|]. intros db.
  keeps_steps. by apply keeps_modify.
Qed.

Lemma keeps_findAllOrCreate usernames :
  keeps unique any (PlayerService.findAllOrCreate usernames).
Proof. apply keeps_mapM_any. apply keeps_findOrCreate. Qed.

End Unique.

#[export] Hint Resolve keeps_Group_findOne keeps_Group_findOne_name
  keeps_Group_findAll keeps_Group_getMembers keeps_Membership_findAll_group_Player
  keeps_Membership_findOne_username keeps_latest_snapshots keeps_findAll
  keeps_Group_create keeps_Group_update_name_clanChat keeps_Group_update_score
  keeps_Group_touch keeps_Group_destroy keeps_Membership_destroy_group
  keeps_Membership_bulkCreate_ignoreDuplicates keeps_Membership_bulkCreate
  keeps_Membership_update_role keeps_Group_addMembers keeps_Group_removeMembers
  keeps_findOrCreate keeps_findAllOrCreate keeps_defined keeps_not_found
  keeps_invalid_usernames keeps_name_taken_error : keeps.

End UniqueFacts.

(** ** The mutations keep the key of [memberships] *)

Module MutationFacts.
Import MonadFacts KeepsFacts UniqueFacts GroupService.

Section Mutations.
Context `{Services}.

Abbreviation unique := membership_unique.
Abbreviation any := (λ _, True).

Lemma keeps_setMembers group members : keeps unique any (setMembers group members).
Proof. unfold setMembers. keeps_steps. Qed.

Lemma keeps_create name clanChat members :
  keeps unique any (create name clanChat members).
Proof. unfold create. keeps_steps. apply keeps_setMembers. Qed.

Lemma keeps_edit id name clanChat verificationCode members :
  keeps unique any (edit id name clanChat verificationCode members).
Proof. unfold edit. keeps_steps; apply keeps_setMembers. Qed.

Lemma keeps_destroy id verificationCode :
  keeps unique any (destroy id verificationCode).
Proof. unfold destroy. keeps_steps. Qed.

Lemma keeps_addMembers id verificationCode members :
  keeps unique any (addMembers id verificationCode members).
Proof. unfold addMembers. keeps_steps. Qed.

Lemma keeps_removeMembers id verificationCode usernames :
  keeps unique any (removeMembers id verificationCode usernames).
Proof. unfold removeMembers. keeps_steps. Qed.

Lemma keeps_changeRole id username role verificationCode :
  keeps unique any (changeRole id username role verificationCode).
Proof. unfold changeRole. keeps_steps. Qed.

Lemma keeps_getMembersList id : keeps unique any (getMembersList id).
Proof. unfold getMembersList. keeps_steps. Qed.

Lemma keeps_calculateScore group : keeps unique any (calculateScore group).
Proof. unfold calculateScore. keeps_steps. apply keeps_getMembersList. Qed.

Lemma keeps_refreshScores : keeps unique any refreshScores.
Proof. unfold refreshScores. keeps_steps. apply keeps_calculateScore. Qed.

(** *** [addMembers] when every given player is a member already *)

Lemma head_filter_Some {A} (P : A → Prop) `{∀ x, Decision (P x)} (l : list A) x :
  head (filter P l) = Some x → x ∈ l ∧ P x.
Proof.
  intros Hx. assert (x ∈ filter P l) as Hin.
  { destruct (filter P l); [done|]. injection Hx as ->. by left. }
  by apply list_elem_of_filter in Hin as [? ?].
Qed.

Lemma head_filter_elem_of {A} (P : A → Prop) `{∀ x, Decision (P x)} (l : list A) x :
  x ∈ l → P x → ∃ y, head (filter P l) = Some y.
Proof.
  intros Hin HP. assert (x ∈ filter P l) as Hx by by apply list_elem_of_filter.
  destruct (filter P l) as [|y ?]; [by apply elem_of_nil in Hx|]. by exists y.
Qed.

Lemma filter_none {A} (P : A → Prop) `{∀ x, Decision (P x)} (l : list A) :
  Forall (λ x, ¬ P x) l → filter P l = [].
Proof.
  induction 1 as [|x l Hx _ IH]; [done|]. by rewrite filter_cons_False.
Qed.

Lemma Forall2_const_r {A B} (R : B → Prop) (l : list A) (k : list B) :
  Forall2 (λ _ y, R y) l k → Forall R k.
Proof. induction 1; by constructor. Qed.

Lemma findOrCreate_found db u p :
  head (filter (λ p, p_username p = standardize u) (players db)) = Some p →
  PlayerService.findOrCreate u db = (db, inr p).
Proof.
  intros Hp. unfold PlayerService.findOrCreate.
  erewrite bind_inr by reflexivity. by rewrite Hp.
Qed.

(** The ids [addMembers] takes for existing, read from the rows. *)
Lemma existingIds_spec db group pid :
  (g_id group, pid) ∈ m_key <$> memberships db →
  (∃ p, p ∈ players db ∧ p_id p = pid) →
  pid ∈ p_id ∘ fst <$>
    omap (λ m, if bool_decide (m_groupId m = g_id group)
               then p ← find_player (m_playerId m) db; Some (p, m)
               else None)
      (memberships db).
Proof.
  intros (m & Hk & Hm)%list_elem_of_fmap (p & Hp & Hpid).
  injection Hk as Hg Hpl.
  destruct (head_filter_elem_of (λ q, p_id q = m_playerId m) (players db) p)
    as [q Hq]; [done|congruence|].
  apply list_elem_of_fmap. exists (q, m). split.
  - simpl. apply head_filter_Some in Hq as [_ ->]. done.
  - apply list_elem_of_omap. exists m. split; [done|].
    rewrite bool_decide_eq_true_2 by done.
    unfold find_player. by rewrite Hq.
Qed.

Lemma addMembers_already_members db id verificationCode members :
  (∀ l, members = Some l → Forall (already_member id db) l) →
  outcome (eq db) (λ _, False) bad_request (addMembers id verificationCode members).
Proof.
  intros Hall. unfold addMembers.
  destruct (negb (truthy_num id)); [by apply outcome_throw|].
  destruct (negb (truthy_string verificationCode)); [by apply outcome_throw|].
  destruct members as [l|]; [|by apply outcome_throw].
  specialize (Hall l eq_refl).
  case_bool_decide; [by apply outcome_throw|].
  destruct (negb _); [by apply outcome_throw|].
  eapply outcome_bind; [apply outcome_query|].
  intros group (? & <- & ->).
  destruct (head (filter _ (groups db))) as [group|] eqn:Hgroup;
    [|by apply outcome_throw].
  apply head_filter_Some in Hgroup as [_ Hid].
  destruct (negb _); [by apply outcome_throw|].
  eapply outcome_bind; [apply outcome_query|].
  intros existing (? & <- & ->).
  eapply outcome_bind.
  { apply (outcome_mapM _ _
             (λ _ p, p_id p ∈ p_id ∘ fst <$>
                omap (λ m, if bool_decide (m_groupId m = g_id group)
                           then p ← find_player (m_playerId m) db; Some (p, m)
                           else None)
                  (memberships db))).
    intros u (m & -> & Hm)%list_elem_of_fmap.
    rewrite Forall_forall in Hall.
    destruct (Hall m Hm) as (u & p & -> & Hp & Hrow).
    intros ? <-. unfold final, result. cbn [from_option]. unfold Datatypes.id.
    rewrite (findOrCreate_found _ _ _ Hp). split; [done|]. simpl.
    apply head_filter_Some in Hp as [Hp _].
    apply existingIds_spec; [by rewrite Hid|by exists p]. }
  intros players Hplayers. simpl in Hplayers.
  rewrite bool_decide_eq_true_2; [by apply outcome_throw|].
  apply length_zero_iff_nil, filter_none.
  apply Forall2_const_r in Hplayers.
  eapply Forall_impl; [exact Hplayers|]. tauto.
Qed.

End Mutations.
End MutationFacts.

Lemma unique_rows_of groupId playerId db :
  membership_unique db → (length (rows_of groupId playerId db) ≤ 1)%nat.
Proof.
  unfold membership_unique, rows_of.
  induction (memberships db) as [|m l IH]; [simpl; lia|].
  rewrite fmap_cons, NoDup_cons. intros [Hm Hl]. rewrite filter_cons.
  destruct (decide (m_key m = (groupId, playerId))) as [Hk|]; [|by apply IH].
  rewrite MutationFacts.filter_none; [simpl; lia|].
  apply Forall_forall. intros m' Hm' Hk'. apply Hm.
  apply list_elem_of_fmap. exists m'. split; [congruence|done].
Qed.

Lemma outcome_is_BadRequest {A} (m : M A) db :
  outcome (eq db) (λ _, False) bad_request m → is_BadRequest (result m db).
Proof.
  intros Hm. destruct (Hm db eq_refl) as [_ Hr].
  destruct (result m db) as [[]|]; done.
Qed.

(** C6: every mutation of the service ends, whether it returns or
    throws, in a store in which each (groupId, playerId) pair has at
    most one membership row, if it started in one; in particular after
    [addMembers] no player has two rows in the group, and [addMembers]
    fails with a validation error when every given username is a member
    already. *)
Theorem mutations_keep_membership_unique `{Services} (db : DB) :
  membership_unique db →
  (∀ name clanChat members,
     membership_unique (final (GroupService.create name clanChat members) db))
  ∧ (∀ id name clanChat verificationCode members,
       membership_unique
         (final (GroupService.edit id name clanChat verificationCode members) db))
  ∧ (∀ id verificationCode,
       membership_unique (final (GroupService.destroy id verificationCode) db))
  ∧ (∀ group members,
       membership_unique (final (GroupService.setMembers group members) db))
  ∧ (∀ id verificationCode usernames,
       membership_unique
         (final (GroupService.removeMembers id verificationCode usernames) db))
  ∧ (∀ id username role verificationCode,
       membership_unique
         (final (GroupService.changeRole id username role verificationCode) db))
  ∧ membership_unique (final GroupService.refreshScores db)
  ∧ (∀ id verificationCode members,
       membership_unique
         (final (GroupService.addMembers id verificationCode members) db)
       ∧ (∀ playerId,
            (length (rows_of id playerId
                       (final (GroupService.addMembers id verificationCode members) db))
             ≤ 1)%nat)
       ∧ ((∀ l, members = Some l → Forall (already_member id db) l) →
          is_BadRequest
            (result (GroupService.addMembers id verificationCode members) db))).
Proof.
  intros Hdb. repeat split; intros.
  - by apply MutationFacts.keeps_create.
  - by apply MutationFacts.keeps_edit.
  - by apply MutationFacts.keeps_destroy.
  - by apply MutationFacts.keeps_setMembers.
  - by apply MutationFacts.keeps_removeMembers.
  - by apply MutationFacts.keeps_changeRole.
  - by apply MutationFacts.keeps_refreshScores.
  - by apply MutationFacts.keeps_addMembers.
  - by apply unique_rows_of, MutationFacts.keeps_addMembers.
  - by apply outcome_is_BadRequest, MutationFacts.addMembers_already_members.
Qed.

Section MutationExamples.
Import Examples.

Lemma two_members_already_members :
  Forall (already_member 1 big_db) two_members.
Proof.
  repeat constructor.
  - exists (lit "P1"), (mkPlayer 1 (lit "p1") (lit "P1") (lit "regular") 10).
    split; [done|]. split; [vm_refl|vm_decide].
  - exists (lit "p2"), (mkPlayer 2 (lit "p2") (lit "P2") (lit "regular") 10).
    split; [done|]. split; [vm_refl|vm_decide].
Qed.

Lemma mutations_keep_membership_unique_witness :
  membership_unique big_db
  ∧ membership_unique
      (final (GroupService.addMembers 1 (lit "123-456-789")
                (Some [mkMemberInput (Some (lit "Zezima")) None])) big_db)
  ∧ is_BadRequest
      (result (GroupService.addMembers 1 (lit "123-456-789") (Some two_members))
         big_db).
Proof.
  assert (membership_unique big_db) as Hdb by vm_decide.
  pose proof (mutations_keep_membership_unique big_db Hdb)
    as (_ & _ & _ & _ & _ & _ & _ & Hadd).
  split; [exact Hdb|]. split.
  - apply Hadd.
  - apply Hadd. intros l [= <-]. apply two_members_already_members.
Defined.

End MutationExamples.

(** ** The verification hash *)

Module FormatFacts.
Import MonadFacts KeepsFacts GroupService.

Section Format.
Context `{Services}.

Abbreviation anywhere := (λ _ : DB, True).

Lemma keeps_trivial {A} (m : M A) : keeps anywhere (λ _, True) m.
Proof. intros db _. split; [done|]. by destruct (result m db). Qed.

Lemma format_hides group : hides_verificationHash (format group).
Proof. apply lookup_delete_eq. Qed.

Lemma insert_hides k v (o : obj) :
  k ≠ "verificationHash" →
  hides_verificationHash o → hides_verificationHash (<[k := v]> o).
Proof. intros Hk Ho. unfold hides_verificationHash. by rewrite lookup_insert_ne. Qed.

Lemma keeps_attachMembersCount groups :
  Forall hides_verificationHash groups →
  keeps anywhere (Forall hides_verificationHash) (attachMembersCount groups).
Proof.
  intros Hgroups. eapply keeps_weaken; [apply keeps_query|].
  intros l (db & _ & ->). apply Forall_fmap.
  eapply Forall_impl; [exact Hgroups|].
  intros g Hg. by apply insert_hides.
Qed.

Lemma Forall_format groups : Forall hides_verificationHash (format <$> groups).
Proof. apply Forall_fmap, Forall_true. intros g. apply format_hides. Qed.

(** A step through a computation of which only the last value matters. *)
Ltac last_step :=
  lazymatch goal with
  | |- keeps _ _ (mret _) =>
      apply keeps_ret; by repeat first [apply format_hides | apply insert_hides]
  | |- keeps _ _ (throw _) => apply keeps_throw
  | |- keeps _ _ (BadRequest _) => apply keeps_throw
  | |- keeps _ _ (not_found _) => apply keeps_throw
  | |- keeps _ _ (name_taken_error _) => apply keeps_throw
  | |- keeps _ _ (invalid_usernames _) => apply keeps_throw
  | |- keeps _ _ (attachMembersCount _) =>
      apply keeps_attachMembersCount, Forall_format
  | |- keeps _ _ (if ?b then _ else _) => destruct b
  | |- keeps _ _ (match ?x with _ => _ end) => destruct x
  | |- keeps _ _ (_ ≫= _) => apply keeps_bind_any; [apply keeps_trivial|intros]
  end.

Lemma keeps_list name pagination :
  keeps anywhere (Forall hides_verificationHash) (list_ name pagination).
Proof. unfold list_. repeat last_step. Qed.

Lemma keeps_findForPlayer playerId pagination :
  keeps anywhere (Forall hides_verificationHash) (findForPlayer playerId pagination).
Proof.
  unfold findForPlayer. repeat last_step.
Qed.

Lemma keeps_view id : keeps anywhere hides_verificationHash (view id).
Proof. unfold view. repeat last_step. Qed.

Lemma keeps_create_hides name clanChat members :
  keeps anywhere hides_verificationHash (create name clanChat members).
Proof. unfold create. repeat last_step. Qed.

Lemma keeps_edit_hides id name clanChat verificationCode members :
  keeps anywhere hides_verificationHash
    (edit id name clanChat verificationCode members).
Proof. unfold edit. repeat last_step. Qed.

End Format.
End FormatFacts.

(** C3 (as amended): every group record returned by [list],
    [findForPlayer], [view], [create] and [edit] has no
    [verificationHash] property. *)
Theorem formatted_groups_hide_verificationHash `{Services} (db : DB) :
  (∀ name pagination groups,
     result (GroupService.list_ name pagination) db = inr groups →
     Forall hides_verificationHash groups)
  ∧ (∀ playerId pagination groups,
       result (GroupService.findForPlayer playerId pagination) db = inr groups →
       Forall hides_verificationHash groups)
  ∧ (∀ id group,
       result (GroupService.view id) db = inr group →
       hides_verificationHash group)
  ∧ (∀ name clanChat members group,
       result (GroupService.create name clanChat members) db = inr group →
       hides_verificationHash group)
  ∧ (∀ id name clanChat verificationCode members group,
       result (GroupService.edit id name clanChat verificationCode members) db
       = inr group →
       hides_verificationHash group).
Proof.
  assert (∀ A (R : A → Prop) (m : M A) x,
            keeps (λ _, True) R m → result m db = inr x → R x) as Hkeeps.
  { intros A R m x Hm Hx. destruct (Hm db I) as [_ HR]. by rewrite Hx in HR. }
  repeat split; intros *; apply Hkeeps.
  - apply FormatFacts.keeps_list.
  - apply FormatFacts.keeps_findForPlayer.
  - apply FormatFacts.keeps_view.
  - apply FormatFacts.keeps_create_hides.
  - apply FormatFacts.keeps_edit_hides.
Qed.

Section FormatExamples.
Import Examples.

Lemma formatted_groups_hide_verificationHash_witness :
  result (GroupService.view 1) two_groups_db = inr (GroupService.format low_group)
  ∧ hides_verificationHash (GroupService.format low_group).
Proof.
  assert (result (GroupService.view 1) two_groups_db
          = inr (GroupService.format low_group)) as Hview by vm_refl.
  split; [exact Hview|].
  exact (proj1 (proj2 (proj2 (formatted_groups_hide_verificationHash two_groups_db)))
           1 _ Hview).
Defined.

(** C3, counterexample for [findOne]: the record it returns
    is the stored row, verification hash included. *)
Lemma findOne_returns_verificationHash :
  result (GroupService.findOne 1) two_groups_db = inr (Some low_group)
  ∧ Group_toJSON low_group !! "verificationHash" = Some (VStr (lit "h1"))
  ∧ ¬ hides_verificationHash (Group_toJSON low_group).
Proof.
  split; [vm_refl|]. split; [vm_refl|].
  unfold hides_verificationHash.
  assert (Group_toJSON low_group !! "verificationHash" = Some (VStr (lit "h1")))
    as -> by vm_refl.
  discriminate.
Qed.

End FormatExamples.

(** ** Groups without members, periods and metrics *)

Module LeaderboardFacts.
Import MonadFacts KeepsFacts GroupService.

Section Leaderboards.
Context `{Services}.

Abbreviation never := (λ _, False).

Lemma outcome_result {A} (R : A → Prop) (E : error → Prop) (m : M A) db :
  outcome (eq db) R E m →
  match result m db with
  | inr x => R x
  | inl e => E e
  end.
Proof. intros Hm. by destruct (Hm db eq_refl). Qed.

Lemma fails_is_BadRequest {A} (m : M A) db :
  outcome (eq db) never bad_request m → is_BadRequest (result m db).
Proof.
  intros Hm%outcome_result. by destruct (result m db) as [[]|].
Qed.

Lemma no_members_filter groupId db :
  no_members groupId db →
  filter (λ m, m_groupId m = groupId) (memberships db) = [].
Proof.
  intros Hno. apply MutationFacts.filter_none.
  eapply Forall_impl; [exact Hno|]. done.
Qed.

Lemma outside_not_included x xs : outside x xs → not_included x xs = true.
Proof.
  destruct x as [s|]; [|done]. simpl. intros Hs.
  rewrite (bool_decide_eq_false_2 _ Hs). apply orb_true_r.
Qed.

Lemma getDeltas_no_members db groupId period metric pagination :
  no_members groupId db →
  outcome (eq db) never bad_request (getDeltas groupId period metric pagination).
Proof.
  intros Hno. unfold getDeltas.
  destruct (negb _); [by apply outcome_throw|].
  destruct (not_included period _); [by apply outcome_throw|].
  destruct (not_included metric _); [by apply outcome_throw|].
  eapply outcome_bind; [apply outcome_query|].
  intros memberships (? & <- & ->).
  rewrite (no_members_filter _ _ Hno). by apply outcome_throw.
Qed.

Lemma getRecords_no_members db groupId metric period pagination :
  no_members groupId db →
  outcome (eq db) never bad_request (getRecords groupId metric period pagination).
Proof.
  intros Hno. unfold getRecords.
  destruct (negb _); [by apply outcome_throw|].
  destruct (not_included period _); [by apply outcome_throw|].
  destruct (not_included metric _); [by apply outcome_throw|].
  eapply outcome_bind; [apply outcome_query|].
  intros memberships (? & <- & ->).
  rewrite (no_members_filter _ _ Hno). by apply outcome_throw.
Qed.

Lemma getAchievements_no_members db groupId pagination :
  no_members groupId db →
  outcome (eq db) never bad_request (getAchievements groupId pagination).
Proof.
  intros Hno. unfold getAchievements.
  destruct (negb _); [by apply outcome_throw|].
  eapply outcome_bind; [apply outcome_query|].
  intros memberships (? & <- & ->).
  rewrite (no_members_filter _ _ Hno). by apply outcome_throw.
Qed.

Lemma getMonthlyTopPlayer_no_members db groupId :
  no_members groupId db → groupId ≠ 0 →
  outcome (eq db) (λ player, player = VNull) never (getMonthlyTopPlayer groupId).
Proof.
  intros Hno Hid. unfold getMonthlyTopPlayer, truthy_num.
  rewrite (proj2 (Z.eqb_neq _ _) Hid). cbn [negb].
  eapply outcome_bind; [apply outcome_query|].
  intros memberships (? & <- & ->).
  rewrite (no_members_filter _ _ Hno). by apply outcome_ret.
Qed.

Lemma getDeltas_outside db groupId period metric pagination :
  outside period PERIODS ∨ outside metric ALL_METRICS →
  outcome (eq db) never bad_request (getDeltas groupId period metric pagination).
Proof.
  intros Hout. unfold getDeltas.
  destruct (negb _); [by apply outcome_throw|].
  destruct (not_included period _) eqn:Ep; [by apply outcome_throw|].
  destruct (not_included metric _) eqn:Em; [by apply outcome_throw|].
  destruct Hout as [Hout|Hout]; apply outside_not_included in Hout; congruence.
Qed.

Lemma getRecords_outside db groupId metric period pagination :
  outside period PERIODS ∨ outside metric ALL_METRICS →
  outcome (eq db) never bad_request (getRecords groupId metric period pagination).
Proof.
  intros Hout. unfold getRecords.
  destruct (negb _); [by apply outcome_throw|].
  destruct (not_included period _) eqn:Ep; [by apply outcome_throw|].
  destruct (not_included metric _) eqn:Em; [by apply outcome_throw|].
  destruct Hout as [Hout|Hout]; apply outside_not_included in Hout; congruence.
Qed.

End Leaderboards.
End LeaderboardFacts.

(** C4 (as amended): on a group without members [getDeltas],
    [getAchievements] and [getRecords] fail with a validation error,
    and [getMonthlyTopPlayer], given a group id, returns [null]; and
    [getDeltas] and [getRecords] fail with a validation error whenever
    the period is outside [PERIODS] or the metric outside
    [ALL_METRICS]. *)
Theorem empty_groups_periods_and_metrics `{Services} (db : DB) (groupId : Z)
    (period metric : option jsstring) (pagination : Pagination) :
  (no_members groupId db →
   is_BadRequest (result (GroupService.getDeltas groupId period metric pagination) db)
   ∧ is_BadRequest (result (GroupService.getAchievements groupId pagination) db)
   ∧ is_BadRequest (result (GroupService.getRecords groupId metric period pagination) db)
   ∧ (groupId ≠ 0 → result (GroupService.getMonthlyTopPlayer groupId) db = inr VNull))
  ∧ (outside period PERIODS ∨ outside metric ALL_METRICS →
     is_BadRequest (result (GroupService.getDeltas groupId period metric pagination) db)
     ∧ is_BadRequest
         (result (GroupService.getRecords groupId metric period pagination) db)).
Proof.
  split.
  - intros Hno. repeat split.
    + by apply LeaderboardFacts.fails_is_BadRequest,
        LeaderboardFacts.getDeltas_no_members.
    + by apply LeaderboardFacts.fails_is_BadRequest,
        LeaderboardFacts.getAchievements_no_members.
    + by apply LeaderboardFacts.fails_is_BadRequest,
        LeaderboardFacts.getRecords_no_members.
    + intros Hid.
      pose proof (LeaderboardFacts.outcome_result _ _ _ _
                    (LeaderboardFacts.getMonthlyTopPlayer_no_members
                       db groupId Hno Hid)) as Hr.
      destruct (result _ db) as [|player]; [done|]. by rewrite Hr.
  - intros Hout. split.
    + by apply LeaderboardFacts.fails_is_BadRequest,
        LeaderboardFacts.getDeltas_outside.
    + by apply LeaderboardFacts.fails_is_BadRequest,
        LeaderboardFacts.getRecords_outside.
Qed.

Section LeaderboardExamples.
Import Examples.

Lemma empty_groups_periods_and_metrics_witness :
  no_members 1 empty_clan_db
  ∧ (outside (Some (lit "fortnight")) PERIODS ∨ outside (Some (lit "overall")) ALL_METRICS)
  ∧ is_BadRequest
      (result (GroupService.getAchievements 1 (mkPagination 20 0)) empty_clan_db)
  ∧ result (GroupService.getMonthlyTopPlayer 1) empty_clan_db = inr VNull
  ∧ is_BadRequest
      (result (GroupService.getDeltas 1 (Some (lit "fortnight")) (Some (lit "overall"))
                 (mkPagination 20 0)) empty_clan_db).
Proof.
  assert (no_members 1 empty_clan_db) as Hno by constructor.
  assert (outside (Some (lit "fortnight")) PERIODS
          ∨ outside (Some (lit "overall")) ALL_METRICS) as Hout
    by (left; vm_decide).
  pose proof (empty_groups_periods_and_metrics empty_clan_db 1
                (Some (lit "fortnight")) (Some (lit "overall")) (mkPagination 20 0))
    as [Hempty Houtside].
  split; [exact Hno|]. split; [exact Hout|].
  destruct (Hempty Hno) as (_ & Hachievements & _ & Htop).
  split; [exact Hachievements|]. split; [by apply Htop|].
  exact (proj1 (Houtside Hout)).
Defined.

(** C4, counterexample for [getMonthlyTopPlayer]: on a group
    without members it returns [null] and throws nothing. *)
Lemma getMonthlyTopPlayer_empty_group_returns_null :
  no_members 1 empty_clan_db
  ∧ result (GroupService.getMonthlyTopPlayer 1) empty_clan_db = inr VNull
  ∧ ¬ is_BadRequest (result (GroupService.getMonthlyTopPlayer 1) empty_clan_db).
Proof.
  assert (result (GroupService.getMonthlyTopPlayer 1) empty_clan_db = inr VNull)
    as Hr by vm_refl.
  split; [constructor|]. split; [exact Hr|]. rewrite Hr. by intros [].
Qed.

End LeaderboardExamples.

(** ** Roles *)

Module RoleFacts.
Import MonadFacts GroupService.

Section Roles.
Context `{Services}.

Lemma query_run {A} (F : DB → A) db : (db' ← get; mret (F db')) db = (db, inr (F db)).
Proof. done. Qed.

Lemma truthy_num_ne id : id ≠ 0 → negb (truthy_num id) = false.
Proof. intros Hid. unfold truthy_num. by rewrite (proj2 (Z.eqb_neq _ _) Hid). Qed.

Lemma truthy_string_ne s : s ≠ [] → negb (truthy_string s) = false.
Proof. by destruct s. Qed.

Section Call.
Context (db : DB) (id : Z) (username role verificationCode : jsstring)
  (group : Group) (membership : Membership) (player : Player).
Context (Hid : id ≠ 0) (Husername : username ≠ []) (Hrole : role ≠ [])
  (Hcode : verificationCode ≠ []).
Context (Hgroup : result (findOne id) db = inr (Some group)).
Context (Hverified : verifyCode (g_verificationHash group) verificationCode = true).
Context (Hmembership :
  result (Membership_findOne_username id (standardize username)) db
  = inr (Some (membership, player))).

Lemma changeRole_same_role :
  m_role membership = role →
  ∃ message, changeRole id username role verificationCode db
             = (db, inl (BadRequestError message None)).
Proof.
  intros Hsame. unfold changeRole.
  rewrite truthy_num_ne, !truthy_string_ne by done.
  unfold result, findOne, Group_findOne in Hgroup. rewrite query_run in Hgroup.
  unfold Group_findOne. erewrite bind_inr by apply query_run.
  simpl in Hgroup. injection Hgroup as ->. rewrite Hverified. cbn [negb].
  unfold result, Membership_findOne_username in Hmembership.
  rewrite query_run in Hmembership. simpl in Hmembership.
  injection Hmembership as Hm.
  unfold Membership_findOne_username. erewrite bind_inr by apply query_run.
  rewrite Hm. rewrite bool_decide_eq_true_2 by done. by eexists.
Qed.

Lemma changeRole_other_role :
  m_role membership ≠ role →
  changeRole id username role verificationCode db
  = (set_groups (update_group (g_id group) (with_updatedAt now))
       (set_memberships (fmap (with_role (m_key membership) role)) db),
     inr (<["player" := VObj (<["role" := VStr role]> (Player_toJSON player))]>
          (<["newRole" := VStr role]>
          (<["oldRole" := VStr (m_role membership)]> ∅)))).
Proof.
  intros Hother. unfold changeRole.
  rewrite truthy_num_ne, !truthy_string_ne by done.
  unfold result, findOne, Group_findOne in Hgroup. rewrite query_run in Hgroup.
  unfold Group_findOne. erewrite bind_inr by apply query_run.
  simpl in Hgroup. injection Hgroup as ->. rewrite Hverified. cbn [negb].
  unfold result, Membership_findOne_username in Hmembership.
  rewrite query_run in Hmembership. simpl in Hmembership.
  injection Hmembership as Hm.
  unfold Membership_findOne_username. erewrite bind_inr by apply query_run.
  rewrite Hm. by rewrite bool_decide_eq_false_2 by done.
Qed.

End Call.
End Roles.
End RoleFacts.

Module RoleQueryFacts.
Import GroupService.

Section RoleQuery.
Context `{Services}.

(** The lookup of [changeRole], on the rows and players of a store. *)
Lemma findOne_username_with_role db db' id username key role :
  players db' = players db →
  memberships db' = with_role key role <$> memberships db →
  result (Membership_findOne_username id username) db'
  = inr (prod_map (with_role key role) Datatypes.id
           <$> head (omap (λ m,
                       if bool_decide (m_groupId m = id) then
                         p ← find_player (m_playerId m) db;
                         if bool_decide (p_username p = username)
                         then Some (m, p) else None
                       else None)
                     (memberships db))).
Proof.
  intros Hplayers Hrows. unfold result, Membership_findOne_username.
  rewrite RoleFacts.query_run. cbn [snd]. f_equal.
  rewrite Hrows. unfold find_player. rewrite Hplayers. clear Hrows Hplayers.
  induction (memberships db) as [|m l IH]; [done|].
  rewrite fmap_cons. cbn [omap list_omap].
  assert (m_groupId (with_role key role m) = m_groupId m
          ∧ m_playerId (with_role key role m) = m_playerId m) as [-> ->]
    by (unfold with_role; by case_bool_decide).
  case_bool_decide; [|exact IH].
  destruct (head (filter _ (players db))) as [p|]; [|exact IH].
  cbn [mbind option_bind]. case_bool_decide; [done|exact IH].
Qed.

End RoleQuery.
End RoleQueryFacts.

(** C8: when the verification code is accepted and the named player is
    a member of the group, [changeRole] to the role the member holds
    fails with a validation error and leaves the store as it is;
    [changeRole] to another role returns the old and the new role and
    leaves the membership with the new role. *)
Theorem changeRole_current_or_other_role `{Services} (db : DB) (id : Z)
    (username role verificationCode : jsstring)
    (group : Group) (membership : Membership) (player : Player) :
  id ≠ 0 → username ≠ [] → role ≠ [] → verificationCode ≠ [] →
  result (GroupService.findOne id) db = inr (Some group) →
  verifyCode (g_verificationHash group) verificationCode = true →
  result (Membership_findOne_username id (standardize username)) db
  = inr (Some (membership, player)) →
  let call := GroupService.changeRole id username role verificationCode in
  (m_role membership = role →
   is_BadRequest (result call db) ∧ final call db = db)
  ∧ (m_role membership ≠ role →
     ∃ returned : obj,
       result call db = inr returned
       ∧ returned !! "oldRole" = Some (VStr (m_role membership))
       ∧ returned !! "newRole" = Some (VStr role)
       ∧ memberships (final call db)
         = with_role (m_key membership) role <$> memberships db
       ∧ result (Membership_findOne_username id (standardize username))
           (final call db)
         = inr (Some (mkMembership (m_playerId membership) (m_groupId membership) role,
                      player))).
Proof.
  intros Hid Husername Hrole Hcode Hgroup Hverified Hmembership call. split.
  - intros Hsame.
    destruct (RoleFacts.changeRole_same_role db id username role verificationCode
                group membership player) as [message Hcall]; try done.
    unfold result, final, call. by rewrite Hcall.
  - intros Hother.
    pose proof (RoleFacts.changeRole_other_role db id username role verificationCode
                  group membership player Hid Husername Hrole Hcode Hgroup Hverified
                  Hmembership Hother) as Hcall.
    change (result call db) with (snd (call db)).
    change (final call db) with (fst (call db)).
    unfold call. rewrite Hcall. cbn [fst snd].
    eexists. split; [done|]. split; [done|]. split; [done|]. split; [done|].
    rewrite (RoleQueryFacts.findOne_username_with_role
               db _ id _ (m_key membership) role) by reflexivity.
    unfold result, Membership_findOne_username in Hmembership.
    rewrite RoleFacts.query_run in Hmembership. cbn [snd] in Hmembership.
    injection Hmembership as ->. cbn [fmap option_fmap option_map prod_map fst snd].
    unfold with_role. by rewrite bool_decide_eq_true_2.
Qed.

Section RoleExamples.
Import Examples.

Lemma changeRole_current_or_other_role_witness :
  (result (GroupService.findOne 1) big_db = inr (Some clan)
   ∧ verifyCode (g_verificationHash clan) (lit "123-456-789") = true
   ∧ result (Membership_findOne_username 1 (standardize (lit "P1"))) big_db
     = inr (Some (first_membership, first_player)))
  ∧ (is_BadRequest
       (result (GroupService.changeRole 1 (lit "P1") (lit "leader") (lit "123-456-789"))
          big_db)
     ∧ final (GroupService.changeRole 1 (lit "P1") (lit "leader") (lit "123-456-789"))
         big_db = big_db)
  ∧ ∃ returned : obj,
      result (GroupService.changeRole 1 (lit "P1") (lit "member") (lit "123-456-789"))
        big_db = inr returned
      ∧ returned !! "oldRole" = Some (VStr (lit "leader"))
      ∧ returned !! "newRole" = Some (VStr (lit "member")).
Proof.
  assert (result (GroupService.findOne 1) big_db = inr (Some clan)) as Hgroup
    by vm_refl.
  assert (verifyCode (g_verificationHash clan) (lit "123-456-789") = true)
    as Hverified by vm_refl.
  assert (result (Membership_findOne_username 1 (standardize (lit "P1"))) big_db
          = inr (Some (first_membership, first_player))) as Hmembership by vm_refl.
  split; [done|]. split.
  - refine (proj1 (changeRole_current_or_other_role big_db 1 (lit "P1") (lit "leader")
                     (lit "123-456-789") clan first_membership first_player
                     _ _ _ _ Hgroup Hverified Hmembership) eq_refl);
      vm_discriminate.
  - destruct (proj2 (changeRole_current_or_other_role big_db 1 (lit "P1")
                       (lit "member") (lit "123-456-789") clan first_membership
                       first_player ltac:(vm_discriminate) ltac:(vm_discriminate)
                       ltac:(vm_discriminate) ltac:(vm_discriminate)
                       Hgroup Hverified Hmembership)
                ltac:(vm_discriminate))
      as (returned & Hreturned & Hold & Hnew & _).
    exists returned. by repeat split.
Defined.

End RoleExamples.

(** ** Sorting *)

Module SortFacts.

Lemma lex_compare_antisym a b : lex_compare b a = CompOpp (lex_compare a b).
Proof.
  revert b. induction a as [|x a IH]; intros [|y b]; try done.
  simpl. rewrite (N.compare_antisym x y).
  destruct (x ?= y)%N; simpl; [apply IH|done|done].
Qed.

Lemma lex_le_nil b : lex_le [] b.
Proof. by destruct b. Qed.

Lemma lex_le_cons x a y b :
  lex_le (x :: a) (y :: b) ↔ (x < y)%N ∨ (x = y ∧ lex_le a b).
Proof.
  unfold lex_le. simpl. destruct (N.compare_spec x y) as [->|Hlt|Hgt].
  - split; [intros ?; right; done|]. intros [?|[_ ?]]; [lia|done].
  - split; [by left|done].
  - split; [done|]. intros [?|[-> _]]; lia.
Qed.

Lemma lex_le_total a b : lex_le a b ∨ lex_le b a.
Proof.
  unfold lex_le. rewrite (lex_compare_antisym a b).
  destruct (lex_compare a b); simpl; auto.
Qed.

Lemma lex_le_trans a b c : lex_le a b → lex_le b c → lex_le a c.
Proof.
  revert b c. induction a as [|x a IH]; intros b c; [intros; apply lex_le_nil|].
  destruct b as [|y b]; [done|]. destruct c as [|z c]; [done|].
  rewrite !lex_le_cons. intros [Hxy|[-> Hab]] [Hyz|[-> Hbc]].
  - left. lia.
  - by left.
  - by left.
  - right. split; [done|]. by apply (IH b).
Qed.

Section Sorted.
Context {A : Type} (cmp : A → A → Z).

Lemma sort_insert_perm x l : sort_insert cmp x l ≡ₚ x :: l.
Proof.
  induction l as [|y l IH]; [done|]. simpl.
  destruct (cmp x y <=? 0); [done|]. rewrite IH. apply Permutation_swap.
Qed.

Lemma sort_perm l : sort cmp l ≡ₚ l.
Proof.
  induction l as [|x l IH]; [done|].
  unfold sort in *. simpl. by rewrite sort_insert_perm, IH.
Qed.

Lemma elem_of_sort x l : x ∈ sort cmp l ↔ x ∈ l.
Proof. by rewrite sort_perm. Qed.

(** The comparator decides a total preorder [R] on the elements that
    satisfy [P]. *)
Context (P : A → Prop) (R : A → A → Prop).
Context (Hcmp : ∀ x y, P x → P y → (cmp x y ≤ 0 ↔ R x y)).
Context (Htotal : ∀ x y, P x → P y → R x y ∨ R y x).
Context (Htrans : ∀ x y z, P x → P y → P z → R x y → R y z → R x z).

Lemma sort_insert_sorted x l :
  P x → Forall P l → StronglySorted R l → StronglySorted R (sort_insert cmp x l).
Proof.
  intros Hx HP Hl. induction Hl as [|y l Hl IH Hy]; simpl.
  - by repeat constructor.
  - apply Forall_cons in HP as [HPy HPl].
    destruct (cmp x y <=? 0) eqn:E.
    + apply Z.leb_le, Hcmp in E; [|done|done].
      constructor; [by constructor|].
      constructor; [done|].
      rewrite Forall_forall in Hy, HPl |- *. intros z Hz.
      apply (Htrans x y z); auto.
    + apply Z.leb_gt in E.
      assert (R y x) as Hyx.
      { destruct (Htotal x y) as [Hxy|]; [done|done| |done].
        apply Hcmp in Hxy; [lia|done|done]. }
      constructor; [by apply IH|].
      rewrite sort_insert_perm. by constructor.
Qed.

Lemma sort_sorted l : Forall P l → StronglySorted R (sort cmp l).
Proof.
  induction l as [|x l IH]; [constructor|].
  intros [Hx Hl]%Forall_cons. unfold sort in *. simpl.
  apply sort_insert_sorted; [done| |by apply IH].
  change (foldr (sort_insert cmp) [] l) with (sort cmp l).
  by rewrite sort_perm.
Qed.

End Sorted.
End SortFacts.

(** ** The member list *)

Module MemberListFacts.
Import MonadFacts KeepsFacts SortFacts GroupService.

Section MemberList.
Context `{Services}.

Lemma keyBy_lookup_None {A} (key : A → Z) (rows : list A) k :
  Forall (λ r, key r ≠ k) rows → keyBy key rows !! k = None.
Proof.
  unfold keyBy. generalize (∅ : gmap Z A) (lookup_empty (M:=gmap Z) (A:=A) k).
  induction rows as [|r rows IH]; intros m Hm Hrows; [done|].
  apply Forall_cons in Hrows as [Hr Hrows]. cbn [foldl].
  apply IH; [|done]. by rewrite lookup_insert_ne.
Qed.

Lemma member_object_id experienceMap m :
  prop_num "id" (member_object experienceMap m) = Some (p_id (fst m)).
Proof. done. Qed.

Lemma member_object_role experienceMap m :
  prop_string "role" (member_object experienceMap m) = snd m.
Proof. done. Qed.

Lemma member_object_experience experienceMap m :
  experienceMap !! p_id (fst m) = None →
  member_object experienceMap m !! "overallExperience" = Some (VNum 0).
Proof.
  intros Hm. unfold member_object. rewrite lookup_insert_eq.
  change (prop_num "id" _) with (Some (p_id (fst m))). cbn [mbind option_bind].
  by rewrite Hm.
Qed.

Lemma latest_snapshots_no_snapshots db (ids : list Z) playerId :
  no_snapshots playerId db →
  Forall (λ s, s_playerId s ≠ playerId)
    (sort (λ a b, s_playerId a - s_playerId b)
       (filter (λ s, s_playerId s ∈ ids
                     ∧ max_date (s_playerId s) (snapshots db) = Some (s_createdAt s))
          (snapshots db))).
Proof.
  intros Hno. apply Forall_forall. intros s [_ Hs]%elem_of_sort%list_elem_of_filter.
  unfold no_snapshots in Hno. rewrite Forall_forall in Hno. by apply Hno.
Qed.

Lemma getMembersList_outcome db id :
  outcome (eq db)
    (λ members,
       (∀ member playerId,
          member ∈ members → prop_num "id" member = Some playerId →
          no_snapshots playerId db →
          member !! "overallExperience" = Some (VNum 0))
       ∧ (localeCompare_is_consistent (roles_of id db) →
          StronglySorted role_locale_le members)
       ∧ (localeCompare_is_code_unit_order (roles_of id db) →
          StronglySorted role_le members))
    (λ _, True) (getMembersList id).
Proof.
  unfold getMembersList.
  destruct (negb _); [by apply outcome_throw|].
  eapply outcome_bind; [apply outcome_query|].
  intros group (? & <- & ->).
  destruct (head _) as [group|]; [|by apply outcome_throw].
  eapply outcome_bind; [apply outcome_query|].
  intros memberships (? & <- & ->).
  case_bool_decide.
  { apply outcome_ret. split_and!; [|constructor|constructor].
    by intros ? ? ?%elem_of_nil. }
  eapply outcome_bind.
  { apply (outcome_mapM _ _ (λ m y, snd y ∈ roles_of id db)).
    intros [m player] (m' & [= -> ->] & Hm')%list_elem_of_fmap.
    destruct (find_player _ db) as [p|]; [|by apply outcome_throw].
    apply outcome_ret. simpl. unfold roles_of. by apply list_elem_of_fmap_2. }
  intros members Hmembers%MutationFacts.Forall2_const_r.
  eapply outcome_bind; [apply outcome_query|].
  intros experienceSnapshots (? & <- & ->).
  apply outcome_ret.
  set (experienceMap := s_overallExperience <$> keyBy s_playerId _).
  rewrite <- list_fmap_compose.
  change (sort ?cmp _) with (sort cmp (member_object experienceMap <$> members)).
  assert (Forall (λ o, prop_string "role" o ∈ roles_of id db)
            (member_object experienceMap <$> members)) as Hroles.
  { apply Forall_fmap. eapply Forall_impl; [exact Hmembers|].
    intros m Hm. simpl. by rewrite member_object_role. }
  split_and!.
  - intros member playerId (m & -> & Hm)%elem_of_sort%list_elem_of_fmap.
    rewrite member_object_id. intros [= <-] Hno.
    apply member_object_experience. unfold experienceMap.
    rewrite lookup_fmap, keyBy_lookup_None; [done|].
    by apply latest_snapshots_no_snapshots.
  - intros [Htotal Htrans].
    apply (sort_sorted _ (λ o, prop_string "role" o ∈ roles_of id db));
      [done| | |exact Hroles].
    + intros a b Ha Hb. by apply Htotal.
    + intros a b c Ha Hb Hc. by apply Htrans.
  - intros Hlocale.
    apply (sort_sorted _ (λ o, prop_string "role" o ∈ roles_of id db));
      [| | |exact Hroles].
    + intros a b Ha Hb. by apply Hlocale.
    + intros a b _ _. apply lex_le_total.
    + intros a b c _ _ _. apply lex_le_trans.
Qed.

End MemberList.
End MemberListFacts.

(** C10: in the list that [getMembersList] returns, a member whose
    player has no snapshot has [overallExperience] 0, and the members
    are in ascending order of their role strings under [localeCompare],
    a consistent comparator; that is the ascending code-unit order of
    the role strings where [localeCompare] orders the roles held in
    the group as their code units do. *)
Theorem getMembersList_experience_and_order `{Services} (db : DB) (id : Z)
    (members : list obj) :
  result (GroupService.getMembersList id) db = inr members →
  (∀ member playerId,
     member ∈ members → GroupService.prop_num "id" member = Some playerId →
     no_snapshots playerId db →
     member !! "overallExperience" = Some (VNum 0))
  ∧ (localeCompare_is_consistent (roles_of id db) →
     StronglySorted role_locale_le members)
  ∧ (localeCompare_is_code_unit_order (roles_of id db) →
     StronglySorted role_le members).
Proof.
  intros Hmembers.
  destruct (MemberListFacts.getMembersList_outcome db id db eq_refl)
    as [_ Hresult].
  by rewrite Hmembers in Hresult.
Qed.

Section MemberListExamples.
Import Examples.

Lemma code_unit_compare_le a b : code_unit_compare a b ≤ 0 ↔ lex_le a b.
Proof.
  unfold code_unit_compare, lex_le. by destruct (lex_compare a b).
Qed.

Lemma getMembersList_experience_and_order_witness :
  result (GroupService.getMembersList 1) small_db = inr small_members
  ∧ no_snapshots 3 small_db
  ∧ GroupService.prop_num "id" <$> small_members = [Some 2; Some 1; Some 3]
  ∧ (∀ member,
       member ∈ small_members → GroupService.prop_num "id" member = Some 3 →
       member !! "overallExperience" = Some (VNum 0))
  ∧ localeCompare_is_consistent (roles_of 1 small_db)
  ∧ StronglySorted role_locale_le small_members
  ∧ localeCompare_is_code_unit_order (roles_of 1 small_db)
  ∧ StronglySorted role_le small_members.
Proof.
  assert (localeCompare_is_code_unit_order (roles_of 1 small_db)) as Hlocale
    by (intros a b _ _; apply code_unit_compare_le).
  assert (localeCompare_is_consistent (roles_of 1 small_db)) as Hconsistent.
  { split.
    - intros a b _ _. rewrite !code_unit_compare_le. apply SortFacts.lex_le_total.
    - intros a b c _ _ _. rewrite !code_unit_compare_le. apply SortFacts.lex_le_trans. }
  assert (result (GroupService.getMembersList 1) small_db = inr small_members)
    as Hmembers by vm_refl.
  assert (no_snapshots 3 small_db) as Hno by vm_decide.
  pose proof (getMembersList_experience_and_order small_db 1 small_members Hmembers)
    as (Hexperience & Hcollated & Hsorted).
  split; [exact Hmembers|]. split; [exact Hno|]. split; [vm_refl|].
  split; [intros member Hmember Hid; by apply (Hexperience member 3)|].
  split; [exact Hconsistent|]. split; [exact (Hcollated Hconsistent)|].
  split; [exact Hlocale|]. exact (Hsorted Hlocale).
Defined.

(** C10, as the claim has it: on a host whose collation puts a before
    B, a consistent comparator on the two, the members of the roles B
    and a are returned with a first, which is not the order of the
    code units. *)
Lemma getMembersList_follows_the_collation :
  localeCompare_is_consistent (H := collation_services) (roles_of 1 mixed_case_db)
  ∧ result (GroupService.getMembersList (H := collation_services) 1) mixed_case_db
    = inr mixed_case_members
  ∧ GroupService.prop_string "role" <$> mixed_case_members = [lit "a"; lit "B"]
  ∧ lex_compare (lit "a") (lit "B") = Gt
  ∧ ¬ StronglySorted role_le mixed_case_members.
Proof.
  split.
  { assert (roles_of 1 mixed_case_db = [lit "B"; lit "a"]) as -> by vm_refl.
    split.
    - intros x y Hx Hy.
      apply elem_of_cons in Hx as [Hx|Hx%list_elem_of_singleton];
        apply elem_of_cons in Hy as [Hy|Hy%list_elem_of_singleton];
        subst x y; vm_compute; intuition congruence.
    - intros x y z Hx Hy Hz.
      apply elem_of_cons in Hx as [Hx|Hx%list_elem_of_singleton];
        apply elem_of_cons in Hy as [Hy|Hy%list_elem_of_singleton];
        apply elem_of_cons in Hz as [Hz|Hz%list_elem_of_singleton];
        subst x y z; vm_compute; intuition congruence. }
  split; [vm_refl|]. split; [vm_refl|]. split; [vm_refl|].
  intros Hsorted.
  pose (first := default ∅ (mixed_case_members !! 0%nat)).
  pose (second := default ∅ (mixed_case_members !! 1%nat)).
  assert (mixed_case_members = [first; second]) as Hlist by vm_refl.
  assert (GroupService.prop_string "role" first = lit "a") as Hfirst by vm_refl.
  assert (GroupService.prop_string "role" second = lit "B") as Hsecond by vm_refl.
  rewrite Hlist in Hsorted.
  apply StronglySorted_inv in Hsorted as [_ Hfirst_le].
  apply Forall_cons in Hfirst_le as [Hle _].
  unfold role_le, lex_le in Hle. rewrite Hfirst, Hsecond in Hle.
  by apply Hle.
Qed.

End MemberListExamples.

(** ** The pages of [findForPlayer] *)

Module PageFacts.
Import MonadFacts KeepsFacts SortFacts GroupService.

Section Pages.
Context `{Services}.

Lemma uniqBy_aux_NoDup {A K} `{EqDecision K} (f : A → K) seen (l : list A) :
  NoDup (f <$> uniqBy_aux f seen l)
  ∧ ∀ k, k ∈ f <$> uniqBy_aux f seen l → k ∉ seen.
Proof.
  revert seen. induction l as [|x l IH]; intros seen; simpl.
  - split; [constructor|]. by intros k ?%elem_of_nil.
  - case_bool_decide as Hx; [apply IH|].
    destruct (IH (f x :: seen)) as [Hnodup Hseen].
    rewrite fmap_cons. split.
    + constructor; [|done]. intros Hin. apply (Hseen _ Hin). by left.
    + intros k [->|Hk]%elem_of_cons; [done|].
      intros Hin. apply (Hseen _ Hk). by right.
Qed.

Lemma uniqBy_NoDup {A K} `{EqDecision K} (f : A → K) (l : list A) :
  NoDup (f <$> uniqBy f l).
Proof. apply uniqBy_aux_NoDup. Qed.

Lemma slice_sublist {A} start stop (l : list A) : slice start stop l `sublist_of` l.
Proof.
  unfold slice. etrans; [apply sublist_take|apply sublist_drop].
Qed.

(** A returned group, from its row and its count. *)
Lemma returned_group_score group count :
  score_of (<["memberCount" := VNum count]> (format group)) = g_score group.
Proof. unfold format, Group_toJSON. by destruct (g_verificationCode group). Qed.

Lemma returned_group_id group count :
  prop_num "id" (<["memberCount" := VNum count]> (format group)) = Some (g_id group).
Proof. unfold format, Group_toJSON. by destruct (g_verificationCode group). Qed.

(** Every page of [findForPlayer] is in descending order of score and
    holds no group twice. *)
Lemma findForPlayer_page db playerId pagination :
  outcome (eq db)
    (λ page, score_descending page ∧ NoDup (prop_num "id" <$> page))
    (λ _, True) (findForPlayer playerId pagination).
Proof.
  unfold findForPlayer. destruct (negb _); [by apply outcome_throw|].
  eapply outcome_bind; [apply outcome_query|]. intros ? (? & <- & ->).
  eapply outcome_bind; [apply (outcome_mapM _ _ (λ _ _, True))|].
  { intros [m [group|]] _; [by apply outcome_ret|by apply outcome_throw]. }
  intros memberships _.
  eapply outcome_weaken; [apply outcome_query|].
  intros page (? & <- & ->).
  rewrite <- list_fmap_compose.
  set (groups := sort _ _).
  split.
  - apply (StronglySorted_fmap _ (λ a b, g_score b ≤ g_score a)).
    { intros a b Hab. simpl.
      destruct (prop_num "id" (format a) ≫= _), (prop_num "id" (format b) ≫= _);
        simpl; by rewrite !returned_group_score. }
    apply (sort_sorted _ (λ _, True)).
    + intros a b _ _. lia.
    + intros a b _ _. lia.
    + intros a b c _ _ _. lia.
    + by apply Forall_true.
  - rewrite <- list_fmap_compose.
    erewrite list_fmap_ext; [|intros i group _; simpl; apply returned_group_id].
    rewrite (list_fmap_compose g_id Some). apply NoDup_fmap_2; [apply _|].
    unfold groups. rewrite sort_perm, <- list_fmap_compose.
    apply (sublist_NoDup _
             (g_id ∘ snd <$> uniqBy (λ m : Membership * Group, g_id (snd m))
                               memberships)).
    + apply (uniqBy_NoDup (λ m : Membership * Group, g_id (snd m))).
    + apply fmap_sublist, slice_sublist.
Qed.

End Pages.
End PageFacts.

(** ** What [edit] leaves alone *)

Module EditFacts.
Import MonadFacts KeepsFacts UniqueFacts GroupService.

Section Edit.
Context `{Services}.

Lemma keeps_memberships_set_groups rows f :
  keeps (λ db, memberships db = rows) (λ _, True) (modify (set_groups f)).
Proof. by apply keeps_modify. Qed.

Lemma keeps_memberships_update rows group name clanChat :
  keeps (λ db, memberships db = rows) (λ _, True)
    (Group_update_name_clanChat group name clanChat).
Proof.
  unfold Group_update_name_clanChat.
  apply keeps_bind_any; [apply keeps_get_any|]. intros db.
  keeps_steps.
Qed.

(** When [members] is not provided, [edit] leaves the membership rows
    as they are, whether it returns or throws. *)
Lemma edit_without_members_keeps_memberships db id name clanChat verificationCode :
  memberships (final (edit id name clanChat verificationCode None) db)
  = memberships db.
Proof.
  assert (keeps (λ db', memberships db' = memberships db) (λ _, True)
            (edit id name clanChat verificationCode None)) as Hedit.
  { unfold edit. keeps_steps. apply keeps_memberships_update. }
  by destruct (Hedit db eq_refl).
Qed.

End Edit.
End EditFacts.

(** ** Where the code does not do what the specification asks *)

Section Divergences.
Import Examples.

(** C2: [findForPlayer] cuts the page out of the membership order and
    sorts what is left.  The player of [two_groups_db] is in group 1
    (score 10) and group 2 (score 20): the first page of one group is
    group 1 and the second is group 2, where sorting before paginating
    gives group 2 first. *)
Theorem findForPlayer_paginates_before_sorting :
  g_score low_group = 10 ∧ g_score high_group = 20
  ∧ group_ids (result (GroupService.findForPlayer 7 (mkPagination 1 0)) two_groups_db)
    = inr [Some 1]
  ∧ group_ids (result (GroupService.findForPlayer 7 (mkPagination 1 1)) two_groups_db)
    = inr [Some 2]
  ∧ group_ids (result (findForPlayer_sorted_then_paginated 7 (mkPagination 1 0))
                 two_groups_db)
    = inr [Some 2]
  ∧ group_ids (result (findForPlayer_sorted_then_paginated 7 (mkPagination 1 1))
                 two_groups_db)
    = inr [Some 1].
Proof. repeat split; vm_refl. Qed.

(** C5: [setMembers] reads the role of the i-th player from the i-th
    entry of the input, also after the usernames were deduplicated.
    For the entries a, A, b (leader) the players are a and b, and b
    gets the role of the second entry, 'member'. *)
Theorem setMembers_reads_roles_by_position :
  usernames_and_roles
    (result (GroupService.setMembers (Some clan) members_with_duplicate;;
             GroupService.getMembers 1) empty_clan_db)
  = inr [(lit "a", lit "member"); (lit "b", lit "member")]
  ∧ expected_members members_with_duplicate
    = [(lit "a", lit "member"); (lit "b", lit "leader")].
Proof. split; vm_refl. Qed.

(** C7: [edit] with a name and no clan chat writes [null] over the clan
    chat of the group, while [edit] with a clan chat and no name leaves
    the name as it is. *)
Theorem edit_name_clears_clanChat :
  clanChat_of 1 empty_clan_db = Some (Some (lit "clanchat"))
  ∧ returned
      (result (GroupService.edit 1 (Some (lit "New Name")) None (lit "123-456-789") None)
         empty_clan_db) = true
  ∧ clanChat_of 1
      (final (GroupService.edit 1 (Some (lit "New Name")) None (lit "123-456-789") None)
         empty_clan_db)
    = Some None
  ∧ name_of 1
      (final (GroupService.edit 1 None (Some (lit "newchat")) (lit "123-456-789") None)
         empty_clan_db)
    = Some (lit "Clan").
Proof.
  repeat split; vm_refl.
Qed.

End Divergences.

(** * Further properties of the service *)

(** ** The names of groups *)

Module SeparatorFacts.

Lemma separators_as_spaces a b :
  same_up_to_separators a b →
  replace_all HYPHEN SPACE (replace_all UNDERSCORE SPACE a)
  = replace_all HYPHEN SPACE (replace_all UNDERSCORE SPACE b).
Proof.
  unfold replace_all. induction 1 as [|x y a b Hxy _ IH]; [done|].
  rewrite !fmap_cons, IH. f_equal.
  destruct Hxy as [->|[Hx Hy]]; [done|].
  unfold is_separator in *.
  destruct Hx as [Hx|[Hx|Hx]], Hy as [Hy|[Hy|Hy]]; by subst.
Qed.

Lemma remove_spaces_length s :
  (length (remove_spaces_before_space s) ≤ length s)%nat.
Proof.
  induction s as [|c [|d s] IH]; [done|done|].
  change (remove_spaces_before_space (c :: d :: s))
    with (if bool_decide (c = SPACE) && bool_decide (d = SPACE)
          then remove_spaces_before_space (d :: s)
          else c :: remove_spaces_before_space (d :: s)).
  destruct (_ && _); simpl in *; lia.
Qed.

Lemma trimStart_length s : (length (trimStart s) ≤ length s)%nat.
Proof.
  induction s as [|c s IH]; [done|]. simpl.
  destruct (is_whitespace c); simpl; lia.
Qed.

Lemma trim_length s : (length (trim s) ≤ length s)%nat.
Proof.
  unfold trim, trimEnd. rewrite length_reverse.
  etrans; [apply trimStart_length|]. rewrite length_reverse.
  apply trimStart_length.
Qed.

End SeparatorFacts.

(** X1: a sanitized name holds no underscore and no hyphen, no two
    adjacent spaces and no white space at either end, and it is not
    longer than the name it was made from. *)
Theorem sanitizeName_normal_form (name : jsstring) :
  (UNDERSCORE ∉ sanitizeName name)
  ∧ (HYPHEN ∉ sanitizeName name)
  ∧ single_spaced (sanitizeName name)
  ∧ trim (sanitizeName name) = sanitizeName name
  ∧ (length (sanitizeName name) ≤ length name)%nat.
Proof.
  destruct (SanitizeFacts.sanitizeName_sanitized name)
    as (Hunderscore & Hhyphen & Hspaces & Htrim).
  rewrite Forall_forall in Hunderscore, Hhyphen.
  repeat split; [| |done|done|].
  - intros Hin. by apply (Hunderscore _ Hin).
  - intros Hin. by apply (Hhyphen _ Hin).
  - unfold sanitizeName. etrans; [apply SeparatorFacts.trim_length|].
    etrans; [apply SeparatorFacts.remove_spaces_length|].
    unfold replace_all. by rewrite !length_fmap.
Qed.

(** X2: [sanitizeName] reads an underscore and a hyphen as a space:
    names that differ only in which of the three stands at a position
    have the same sanitized name. *)
Theorem sanitizeName_separators (a b : jsstring) :
  same_up_to_separators a b → sanitizeName a = sanitizeName b.
Proof.
  intros Hab. unfold sanitizeName.
  by rewrite (SeparatorFacts.separators_as_spaces a b).
Qed.

Lemma sanitizeName_separators_witness :
  same_up_to_separators (lit "Iron_Mans-of  Lumbridge ") (lit "Iron Mans_of -Lumbridge_")
  ∧ sanitizeName (lit "Iron_Mans-of  Lumbridge ") = lit "Iron Mans of Lumbridge"
  ∧ sanitizeName (lit "Iron Mans_of -Lumbridge_") = lit "Iron Mans of Lumbridge".
Proof.
  assert (same_up_to_separators (lit "Iron_Mans-of  Lumbridge ")
            (lit "Iron Mans_of -Lumbridge_")) as Hsame.
  { unfold same_up_to_separators, is_separator.
    repeat (constructor; [by (left + (right; split; vm_compute; tauto))|]).
    constructor. }
  pose proof (sanitizeName_separators _ _ Hsame) as Heq.
  split; [exact Hsame|]. split; [vm_refl|]. rewrite <- Heq. vm_refl.
Defined.

(** ** Scores *)

Module BonusFacts.
Import GroupService.

Lemma bonus_points (P : Prop) `{Decision P} (condition : bool) n score :
  (condition = true ↔ P) → bonus condition n score = score + points P n.
Proof.
  intros Hcondition. unfold bonus, points.
  destruct condition, (decide P) as [HP|HP]; try lia.
  - destruct HP. by apply Hcondition.
  - by apply Hcondition in HP.
Qed.

Lemma filter_Exists {A} (P : A → Prop) `{∀ x, Decision (P x)} (l : list A) :
  (1 <=? Z.of_nat (length (filter P l))) = true ↔ Exists P l.
Proof.
  split; [|apply ScoreFacts.filter_Exists_length].
  intros Hl%Z.leb_le. destruct (filter P l) as [|x k] eqn:Hfilter; [simpl in Hl; lia|].
  assert (x ∈ filter P l) as [HP Hx]%list_elem_of_filter by (rewrite Hfilter; by left).
  apply Exists_exists. by exists x.
Qed.

End BonusFacts.

(** X3: for a group with members, the score that [calculateScore] returns is
    the sum of seven bonuses: 30 for a leader, 20 for ten members, 40
    for fifty, 50 for a clan chat, 100 for being verified, 50 for an
    ongoing and 30 for an upcoming competition.  The two tests on the
    average never add to it, so that it lies between 0 and 320. *)
Theorem calculateScore_is_the_sum_of_seven_bonuses `{Services} (db : DB)
    (group : Group) (members : list obj) :
  result (GroupService.getMembersList (g_id group)) db = inr members →
  members ≠ [] →
  let score :=
    points (Exists is_leader members) 30
    + points (10 ≤ length members)%nat 20
    + points (50 ≤ length members)%nat 40
    + points (truthy_opt_string (g_clanChat group) = true) 50
    + points (g_verified group = true) 100
    + points (Exists ongoing (competitions_of group)) 50
    + points (Exists upcoming (competitions_of group)) 30 in
  result (GroupService.calculateScore group) db = inr score ∧ 0 ≤ score ≤ 320.
Proof.
  intros Hmembers Hsome score. split.
  - rewrite (ScoreFacts.calculateScore_members _ _ _ Hmembers).
    rewrite ScoreFacts.averageOverallExp_NaN.
    rewrite bool_decide_eq_false_2 by (by intros ?%nil_length_inv).
    f_equal. unfold GroupService.experience_bonus, ge_const. cbn [GroupService.bonus].
    rewrite (BonusFacts.bonus_points (Exists upcoming (competitions_of group)))
      by apply BonusFacts.filter_Exists.
    rewrite (BonusFacts.bonus_points (Exists ongoing (competitions_of group)))
      by apply BonusFacts.filter_Exists.
    rewrite (BonusFacts.bonus_points (g_verified group = true)) by done.
    rewrite (BonusFacts.bonus_points (truthy_opt_string (g_clanChat group) = true))
      by done.
    rewrite (BonusFacts.bonus_points (50 ≤ length members)%nat)
      by (rewrite Z.leb_le; lia).
    rewrite (BonusFacts.bonus_points (10 ≤ length members)%nat)
      by (rewrite Z.leb_le; lia).
    rewrite (BonusFacts.bonus_points (Exists is_leader members))
      by apply BonusFacts.filter_Exists.
    unfold score. lia.
  - unfold score, points.
    repeat match goal with |- context [decide ?P] => destruct (decide P) end; lia.
Qed.

Section ScoreSumExamples.
Import Examples.

Lemma calculateScore_is_the_sum_of_seven_bonuses_witness :
  result (GroupService.getMembersList (g_id clan)) small_db = inr small_members
  ∧ small_members ≠ []
  ∧ result (GroupService.calculateScore clan) small_db = inr 260
  ∧ result (GroupService.calculateScore clan) small_db
    = inr (points (Exists is_leader small_members) 30
           + points (10 ≤ length small_members)%nat 20
           + points (50 ≤ length small_members)%nat 40
           + points (truthy_opt_string (g_clanChat clan) = true) 50
           + points (g_verified clan = true) 100
           + points (Exists ongoing (competitions_of clan)) 50
           + points (Exists upcoming (competitions_of clan)) 30).
Proof.
  assert (result (GroupService.getMembersList (g_id clan)) small_db = inr small_members)
    as Hmembers by vm_refl.
  assert (small_members ≠ []) as Hsome.
  { assert (length small_members = 3%nat) as Hlength by vm_refl.
    intros Hnil. by rewrite Hnil in Hlength. }
  split; [exact Hmembers|]. split; [exact Hsome|]. split; [vm_refl|].
  exact (proj1 (calculateScore_is_the_sum_of_seven_bonuses small_db clan small_members
                  Hmembers Hsome)).
Defined.

End ScoreSumExamples.

(** ** Queries *)

Module QueryFacts.
Import MonadFacts KeepsFacts UniqueFacts GroupService.

Section Queries.
Context `{Services}.

Abbreviation any := (λ _, True).

Lemma keeps_final {A} (m : M A) db : keeps (eq db) any m → final m db = db.
Proof. intros Hm. by destruct (Hm db eq_refl) as [<- _]. Qed.

Section Kept.
Context (I : DB → Prop).

Lemma reads_limit_offset {A} pagination (rows : list A) :
  keeps I any (limit_offset pagination rows).
Proof. unfold limit_offset. keeps_steps. Qed.

Lemma reads_attachMembersCount groups : keeps I any (attachMembersCount groups).
Proof. apply keeps_query_any. Qed.

Lemma reads_list name pagination : keeps I any (list_ name pagination).
Proof.
  unfold list_, Group_findAll_ordered.
  keeps_steps;
    first [apply keeps_get_any|apply reads_limit_offset|apply reads_attachMembersCount].
Qed.

Lemma reads_findForPlayer playerId pagination :
  keeps I any (findForPlayer playerId pagination).
Proof.
  unfold findForPlayer.
  keeps_steps; first [apply keeps_query_any|apply reads_attachMembersCount].
Qed.

Lemma reads_view id : keeps I any (view id).
Proof. unfold view. keeps_steps. Qed.

Lemma reads_getMonthlyTopPlayer groupId : keeps I any (getMonthlyTopPlayer groupId).
Proof. unfold getMonthlyTopPlayer. keeps_steps; apply keeps_query_any. Qed.

Lemma reads_getDeltas groupId period metric pagination :
  keeps I any (getDeltas groupId period metric pagination).
Proof. unfold getDeltas, invalid. keeps_steps; apply keeps_query_any. Qed.

Lemma reads_getAchievements groupId pagination :
  keeps I any (getAchievements groupId pagination).
Proof. unfold getAchievements. keeps_steps. Qed.

Lemma reads_getRecords groupId metric period pagination :
  keeps I any (getRecords groupId metric period pagination).
Proof. unfold getRecords, invalid. keeps_steps; apply keeps_query_any. Qed.

Lemma reads_getMembersList id : keeps I any (getMembersList id).
Proof. unfold getMembersList. keeps_steps. Qed.

Lemma reads_getMembers groupId : keeps I any (getMembers groupId).
Proof. unfold getMembers. keeps_steps. Qed.

Lemma reads_getMemberStats id : keeps I any (getMemberStats id).
Proof. unfold getMemberStats. keeps_steps; apply keeps_query_any. Qed.

Lemma reads_getOutdatedMembers groupId : keeps I any (getOutdatedMembers groupId).
Proof. unfold getOutdatedMembers. keeps_steps; apply keeps_query_any. Qed.

Lemma reads_calculateScore group : keeps I any (calculateScore group).
Proof. unfold calculateScore. keeps_steps. apply reads_getMembersList. Qed.

End Kept.
End Queries.
End QueryFacts.

(** X4: the queries of the service leave the store as it is, whether
    they return or throw. *)
Theorem queries_leave_the_store `{Services} (db : DB) :
  (∀ name pagination, final (GroupService.list_ name pagination) db = db)
  ∧ (∀ playerId pagination,
       final (GroupService.findForPlayer playerId pagination) db = db)
  ∧ (∀ id, final (GroupService.view id) db = db)
  ∧ (∀ groupId, final (GroupService.getMonthlyTopPlayer groupId) db = db)
  ∧ (∀ groupId period metric pagination,
       final (GroupService.getDeltas groupId period metric pagination) db = db)
  ∧ (∀ groupId pagination,
       final (GroupService.getAchievements groupId pagination) db = db)
  ∧ (∀ groupId metric period pagination,
       final (GroupService.getRecords groupId metric period pagination) db = db)
  ∧ (∀ id, final (GroupService.getMembersList id) db = db)
  ∧ (∀ groupId, final (GroupService.getMembers groupId) db = db)
  ∧ (∀ groupId, final (GroupService.findOne groupId) db = db)
  ∧ (∀ id, final (GroupService.getMemberStats id) db = db)
  ∧ (∀ groupId, final (GroupService.getOutdatedMembers groupId) db = db)
  ∧ (∀ group, final (GroupService.calculateScore group) db = db).
Proof.
  split_and!; intros; apply QueryFacts.keeps_final.
  - apply QueryFacts.reads_list.
  - apply QueryFacts.reads_findForPlayer.
  - apply QueryFacts.reads_view.
  - apply QueryFacts.reads_getMonthlyTopPlayer.
  - apply QueryFacts.reads_getDeltas.
  - apply QueryFacts.reads_getAchievements.
  - apply QueryFacts.reads_getRecords.
  - apply QueryFacts.reads_getMembersList.
  - apply QueryFacts.reads_getMembers.
  - apply UniqueFacts.keeps_Group_findOne.
  - apply QueryFacts.reads_getMemberStats.
  - apply QueryFacts.reads_getOutdatedMembers.
  - apply QueryFacts.reads_calculateScore.
Qed.

(** ** The verification code *)

Module VerificationFacts.
Import MonadFacts KeepsFacts GroupService.

Section Verification.
Context `{Services}.

Lemma fails_refused {A} (call : M A) db :
  outcome (eq db) (λ _, False) bad_request call → refused call db.
Proof.
  intros Hcall. split; [by apply outcome_is_BadRequest|].
  by destruct (Hcall db eq_refl) as [<- _].
Qed.

(** The lookup of the group and the test of the code, with what follows
    them in a mutation. *)
Lemma lookup_and_test_fail {A} db id verificationCode (rest : Group → M A) :
  code_not_accepted id verificationCode db →
  outcome (eq db) (λ _, False) bad_request
    (group ← Group_findOne id;
     match group with
     | None => not_found id
     | Some group =>
         if negb (verifyCode (g_verificationHash group) verificationCode)
         then BadRequest (lit "Incorrect verification code.") else rest group
     end).
Proof.
  intros Hcode. eapply outcome_bind; [apply outcome_query|].
  intros group (? & <- & ->).
  destruct (head _) as [group|] eqn:Hgroup; [|by apply outcome_throw].
  rewrite (Hcode group Hgroup). by apply outcome_throw.
Qed.

Lemma edit_fails db id name clanChat verificationCode members :
  code_not_accepted id verificationCode db →
  outcome (eq db) (λ _, False) bad_request
    (edit id name clanChat verificationCode members).
Proof.
  intros Hcode. unfold edit.
  destruct (negb _); [by apply outcome_throw|].
  destruct (negb _); [by apply outcome_throw|].
  destruct (_ && _); [by apply outcome_throw|].
  eapply (outcome_bind _ _ (λ _, True)).
  { destruct (truthy_opt_string name); [|by apply outcome_ret].
    eapply outcome_bind; [apply outcome_query|]. intros matching _.
    destruct matching; [|by apply outcome_ret].
    case_bool_decide; [by apply outcome_throw|by apply outcome_ret]. }
  intros _ _. by apply lookup_and_test_fail.
Qed.

Lemma destroy_fails db id verificationCode :
  code_not_accepted id verificationCode db →
  outcome (eq db) (λ _, False) bad_request (destroy id verificationCode).
Proof.
  intros Hcode. unfold destroy.
  destruct (negb _); [by apply outcome_throw|].
  destruct (negb _); [by apply outcome_throw|].
  by apply lookup_and_test_fail.
Qed.

Lemma addMembers_fails db id verificationCode members :
  code_not_accepted id verificationCode db →
  outcome (eq db) (λ _, False) bad_request (addMembers id verificationCode members).
Proof.
  intros Hcode. unfold addMembers.
  destruct (negb _); [by apply outcome_throw|].
  destruct (negb _); [by apply outcome_throw|].
  destruct members as [members|]; [|by apply outcome_throw].
  case_bool_decide; [by apply outcome_throw|].
  destruct (negb _); [by apply outcome_throw|].
  by apply lookup_and_test_fail.
Qed.

Lemma removeMembers_fails db id verificationCode usernames :
  code_not_accepted id verificationCode db →
  outcome (eq db) (λ _, False) bad_request
    (removeMembers id verificationCode usernames).
Proof.
  intros Hcode. unfold removeMembers.
  destruct (negb _); [by apply outcome_throw|].
  destruct (negb _); [by apply outcome_throw|].
  destruct usernames as [usernames|]; [|by apply outcome_throw].
  case_bool_decide; [by apply outcome_throw|].
  by apply lookup_and_test_fail.
Qed.

Lemma changeRole_fails db id username role verificationCode :
  code_not_accepted id verificationCode db →
  outcome (eq db) (λ _, False) bad_request
    (changeRole id username role verificationCode).
Proof.
  intros Hcode. unfold changeRole.
  do 4 (destruct (negb _); [by apply outcome_throw|]).
  by apply lookup_and_test_fail.
Qed.

End Verification.
End VerificationFacts.

(** X5: without the verification code of the group, [edit], [destroy],
    [addMembers], [removeMembers] and [changeRole] fail with a
    validation error and leave the store as it is, whatever their other
    arguments are. *)
Theorem mutations_need_the_verification_code `{Services} (db : DB) (id : Z)
    (verificationCode : jsstring) :
  code_not_accepted id verificationCode db →
  (∀ name clanChat members,
     refused (GroupService.edit id name clanChat verificationCode members) db)
  ∧ refused (GroupService.destroy id verificationCode) db
  ∧ (∀ members, refused (GroupService.addMembers id verificationCode members) db)
  ∧ (∀ usernames,
       refused (GroupService.removeMembers id verificationCode usernames) db)
  ∧ (∀ username role,
       refused (GroupService.changeRole id username role verificationCode) db).
Proof.
  intros Hcode. split_and!; intros; apply VerificationFacts.fails_refused.
  - by apply VerificationFacts.edit_fails.
  - by apply VerificationFacts.destroy_fails.
  - by apply VerificationFacts.addMembers_fails.
  - by apply VerificationFacts.removeMembers_fails.
  - by apply VerificationFacts.changeRole_fails.
Qed.

Section VerificationExamples.
Import Examples.

Lemma mutations_need_the_verification_code_witness :
  code_not_accepted 1 (lit "000-000-000") big_db
  ∧ refused (GroupService.destroy 1 (lit "000-000-000")) big_db
  ∧ refused (GroupService.removeMembers 1 (lit "000-000-000") (Some [lit "p1"])) big_db
  ∧ returned (result (GroupService.removeMembers 1 (lit "123-456-789") (Some [lit "p1"]))
                big_db) = true.
Proof.
  assert (code_not_accepted 1 (lit "000-000-000") big_db) as Hcode.
  { intros group [= <-]. vm_refl. }
  pose proof (mutations_need_the_verification_code big_db 1 _ Hcode)
    as (_ & Hdestroy & _ & Hremove & _).
  split; [exact Hcode|]. split; [exact Hdestroy|]. split; [apply Hremove|]. vm_refl.
Defined.

End VerificationExamples.

(** ** Failures *)

Module FailureFacts.
Import MonadFacts KeepsFacts GroupService.

Section Failure.
Context `{Services}.

Lemma clean_throw {A} e : clean (throw (A:=A) e).
Proof. by intros db e' _. Qed.


(** After a computation that does not write. *)
Lemma clean_bind {A B} (m : M A) (f : A → M B) :
  (∀ db, final m db = db) → (∀ x, clean (f x)) → clean (m ≫= f).
Proof.
  intros Hm Hf db e. unfold result, final in *.
  specialize (Hm db). destruct (m db) as [db' [e'|x]] eqn:Em; simpl in Hm; subst db'.
  - by rewrite (bind_inl _ _ _ _ _ Em).
  - rewrite (bind_inr _ _ _ _ _ Em). apply Hf.
Qed.

Lemma filter_all {A} (P : A → Prop) `{∀ x, Decision (P x)} (l : list A) :
  Forall P l → filter P l = l.
Proof.
  induction 1 as [|x l Hx _ IH]; [done|].
  by rewrite filter_cons_True, IH.
Qed.

Lemma filter_length_0 {A} (P : A → Prop) `{∀ x, Decision (P x)} (l : list A) :
  length (filter P l) = 0%nat → Forall (λ x, ¬ P x) l.
Proof.
  intros Hl%nil_length_inv. apply Forall_forall. intros x Hx HP.
  assert (x ∈ filter P l) as Hin by by apply list_elem_of_filter.
  rewrite Hl in Hin. by apply elem_of_nil in Hin.
Qed.


Lemma clean_lookup_and_test {A} id verificationCode (rest : Group → M A) :
  (∀ group, clean (rest group)) →
  clean
    (group ← Group_findOne id;
     match group with
     | None => not_found id
     | Some group =>
         if negb (verifyCode (g_verificationHash group) verificationCode)
         then BadRequest (lit "Incorrect verification code.") else rest group
     end).
Proof.
  intros Hrest. apply clean_bind; [done|]. intros [group|]; [|apply clean_throw].
  destruct (negb _); [apply clean_throw|apply Hrest].
Qed.

Lemma clean_destroy id verificationCode : clean (destroy id verificationCode).
Proof.
  unfold destroy.
  do 2 (destruct (negb _); [apply clean_throw|]).
  apply clean_lookup_and_test. intros group db e. discriminate.
Qed.

Lemma clean_changeRole id username role verificationCode :
  clean (changeRole id username role verificationCode).
Proof.
  unfold changeRole.
  do 4 (destruct (negb _); [apply clean_throw|]).
  apply clean_lookup_and_test. intros group.
  apply clean_bind; [done|]. intros [[membership player]|]; [|apply clean_throw].
  case_bool_decide; [apply clean_throw|]. intros db e. discriminate.
Qed.

Lemma clean_removeMembers id verificationCode usernames :
  clean (removeMembers id verificationCode usernames).
Proof.
  unfold removeMembers.
  do 2 (destruct (negb _); [apply clean_throw|]).
  destruct usernames as [usernames|]; [|apply clean_throw].
  case_bool_decide; [apply clean_throw|].
  apply clean_lookup_and_test. intros group.
  apply clean_bind; [done|]. intros playersToRemove.
  case_bool_decide; [apply clean_throw|].
  intros db e. unfold result, final, Group_removeMembers.
  erewrite bind_inr by reflexivity.
  destruct (negb (truthy_num _)) eqn:Hcount; [|discriminate].
  intros _. cbn [fst]. unfold truthy_num in Hcount.
  apply negb_true_iff, negb_false_iff, Z.eqb_eq in Hcount.
  assert (length (filter (λ m, bool_decide (m_groupId m = g_id group
                                 ∧ m_playerId m ∈ p_id <$> playersToRemove) = true)
                    (memberships db)) = 0%nat) as Hnone by lia.
  apply filter_length_0 in Hnone.
  destruct db as [gs ps ms ss gq pq]. unfold set_memberships. cbn in *. f_equal.
  apply filter_all. eapply Forall_impl; [exact Hnone|].
  intros m Hm. by apply not_true_is_false.
Qed.

End Failure.
End FailureFacts.

(** X6: a call of [destroy], [changeRole] or [removeMembers] that throws
    leaves the store as it is. *)
Theorem failed_mutations_change_nothing `{Services} (db : DB) (e : error) :
  (∀ id verificationCode,
     result (GroupService.destroy id verificationCode) db = inl e →
     final (GroupService.destroy id verificationCode) db = db)
  ∧ (∀ id username role verificationCode,
       result (GroupService.changeRole id username role verificationCode) db = inl e →
       final (GroupService.changeRole id username role verificationCode) db = db)
  ∧ (∀ id verificationCode usernames,
       result (GroupService.removeMembers id verificationCode usernames) db = inl e →
       final (GroupService.removeMembers id verificationCode usernames) db = db).
Proof.
  split_and!; intros *.
  - apply FailureFacts.clean_destroy.
  - apply FailureFacts.clean_changeRole.
  - apply FailureFacts.clean_removeMembers.
Qed.

Section FailureExamples.
Import Examples MoreExamples.

Lemma failed_mutations_change_nothing_witness :
  result (GroupService.removeMembers 1 (lit "123-456-789") (Some [lit "Dan"])) outsider_db
  = inl (BadRequestError (lit "None of the players given were members of that group.")
           None)
  ∧ final (GroupService.removeMembers 1 (lit "123-456-789") (Some [lit "Dan"]))
      outsider_db
    = outsider_db.
Proof.
  assert (result (GroupService.removeMembers 1 (lit "123-456-789") (Some [lit "Dan"]))
            outsider_db
          = inl (BadRequestError
                   (lit "None of the players given were members of that group.") None))
    as Hfails by vm_refl.
  split; [exact Hfails|].
  destruct (failed_mutations_change_nothing outsider_db
              (BadRequestError
                 (lit "None of the players given were members of that group.") None))
    as (_ & _ & Hremove).
  by apply Hremove.
Defined.

End FailureExamples.

(** ** Member counts and pages *)

Module CountFacts.
Import MonadFacts KeepsFacts SortFacts GroupService.

Section Counts.
Context `{Services}.

Lemma keyBy_fold_Some {A} (key : A → Z) (rows : list A) (m : gmap Z A) k r :
  foldl (λ m r, <[key r := r]> m) m rows !! k = Some r →
  (r ∈ rows ∧ key r = k) ∨ m !! k = Some r.
Proof.
  revert m. induction rows as [|x rows IH]; intros m; [by right|].
  cbn [foldl]. intros [[Hr Hk]|Hm]%IH.
  - left. split; [by right|done].
  - destruct (decide (key x = k)) as [<-|Hne].
    + rewrite lookup_insert_eq in Hm. injection Hm as ->. left. split; [by left|done].
    + rewrite lookup_insert_ne in Hm by done. by right.
Qed.

Lemma keyBy_lookup_Some {A} (key : A → Z) (rows : list A) k r :
  keyBy key rows !! k = Some r → r ∈ rows ∧ key r = k.
Proof. by intros [?|?]%keyBy_fold_Some. Qed.

Lemma keyBy_fold_is_Some {A} (key : A → Z) (rows : list A) (m : gmap Z A) k :
  is_Some (m !! k) ∨ k ∈ key <$> rows →
  is_Some (foldl (λ m r, <[key r := r]> m) m rows !! k).
Proof.
  revert m. induction rows as [|x rows IH]; intros m.
  - intros [?|?%elem_of_nil]; done.
  - cbn [foldl]. rewrite fmap_cons, elem_of_cons. intros Hk. apply IH.
    destruct (decide (key x = k)) as [<-|Hne].
    + left. by rewrite lookup_insert_eq.
    + rewrite lookup_insert_ne by done.
      destruct Hk as [Hk|[Hk|Hk]]; [by left|congruence|by right].
Qed.

Lemma keyBy_lookup_is_Some {A} (key : A → Z) (rows : list A) k :
  k ∈ key <$> rows → is_Some (keyBy key rows !! k).
Proof. intros Hk. apply keyBy_fold_is_Some. by right. Qed.

Lemma filter_filter_elem (ids : list Z) id (l : list Membership) :
  id ∈ ids →
  filter (λ m, m_groupId m = id) (filter (λ m, m_groupId m ∈ ids) l)
  = filter (λ m, m_groupId m = id) l.
Proof.
  intros Hid. induction l as [|m l IH]; [done|].
  rewrite !filter_cons. destruct (decide (m_groupId m = id)) as [Hm|Hm].
  - rewrite decide_True by by rewrite Hm.
    by rewrite filter_cons_True, IH by done.
  - destruct (decide (m_groupId m ∈ ids)); [|done].
    by rewrite filter_cons_False by done.
Qed.

(** The count that [attachMembersCount] looks up for a group it was
    given. *)
Lemma count_lookup (ids : list Z) id (l : list Membership) :
  id ∈ ids →
  let rows := filter (λ m, m_groupId m ∈ ids) l in
  let membersCount : list (Z * Z) :=
    (λ groupId, (groupId,
                 Z.of_nat (length (filter (λ m, m_groupId m = groupId) rows))))
      <$> remove_dups (m_groupId <$> rows) in
  default 0 ((snd <$> keyBy fst membersCount) !! id)
  = Z.of_nat (length (filter (λ m, m_groupId m = id) l)).
Proof.
  intros Hid rows membersCount. rewrite lookup_fmap.
  destruct (keyBy fst membersCount !! id) as [[groupId count]|] eqn:Hlookup.
  - apply keyBy_lookup_Some in Hlookup as [Hin Hkey]. simpl in Hkey. subst groupId.
    apply list_elem_of_fmap in Hin as (groupId & [= -> ->] & _). simpl.
    unfold rows. by rewrite filter_filter_elem.
  - simpl. rewrite MutationFacts.filter_none; [done|].
    apply Forall_forall. intros m Hm Hgroup.
    assert (is_Some (keyBy fst membersCount !! id)) as [? Hsome]; [|congruence].
    apply keyBy_lookup_is_Some. unfold membersCount.
    rewrite <- list_fmap_compose.
    erewrite list_fmap_ext; [rewrite list_fmap_id|by intros].
    apply elem_of_remove_dups, list_elem_of_fmap. exists m. split; [done|].
    apply list_elem_of_filter. split; [by rewrite Hgroup|done].
Qed.

Lemma attachMembersCount_run db groups :
  attachMembersCount groups db = (db, inr (with_member_count db <$> groups)).
Proof.
  unfold attachMembersCount. rewrite RoleFacts.query_run. do 2 f_equal.
  apply list_fmap_ext. intros i group Hgroup%list_elem_of_lookup_2.
  unfold with_member_count. do 2 f_equal.
  destruct (prop_num "id" group) as [id|] eqn:Hid; [|done].
  cbn [mbind option_bind from_option]. apply count_lookup.
  apply list_elem_of_omap. by exists group.
Qed.

Lemma with_member_count_format db group :
  with_member_count db (format group) = listed db group.
Proof.
  assert (prop_num "id" (format group) = Some (g_id group)) as Hid.
  { unfold format, Group_toJSON. by destruct (g_verificationCode group). }
  unfold with_member_count, listed. by rewrite Hid.
Qed.

Lemma sublist_StronglySorted {A} (R : A → A → Prop) (l k : list A) :
  l `sublist_of` k → StronglySorted R k → StronglySorted R l.
Proof.
  induction 1 as [|x l k Hlk IH|x l k Hlk IH]; [done| |].
  - intros [Hx Hk]%StronglySorted_cons. apply StronglySorted_cons.
    split; [|by apply IH]. apply Forall_forall. intros y Hy.
    rewrite Forall_forall in Hx. apply Hx. by apply (elem_of_sublist l k).
  - intros [_ Hk]%StronglySorted_cons. by apply IH.
Qed.

Lemma score_desc_id_asc_sorted (l : list Group) :
  StronglySorted by_score_then_id (sort score_desc_id_asc l).
Proof.
  apply (sort_sorted _ (λ _, True)); [| | |by apply Forall_true];
    unfold score_desc_id_asc, by_score_then_id.
  - intros a b _ _. destruct (Z.eqb_spec (g_score a) (g_score b)); lia.
  - intros a b _ _. lia.
  - intros a b c _ _ _. lia.
Qed.

Lemma limit_offset_run {A} db pagination (rows page : list A) :
  result (limit_offset pagination rows) db = inr page →
  page `sublist_of` rows ∧ Z.of_nat (length page) ≤ limit pagination.
Proof.
  unfold limit_offset, result. destruct (_ || _) eqn:Hbounds; [done|].
  apply orb_false_iff in Hbounds as [Hlimit%Z.ltb_ge _]. intros [= <-]. split.
  - etrans; [apply sublist_take|apply sublist_drop].
  - rewrite length_take. lia.
Qed.

Lemma limit_offset_final {A} db pagination (rows : list A) :
  fst (limit_offset pagination rows db) = db.
Proof. unfold limit_offset. by destruct (_ || _). Qed.

Lemma Group_findAll_ordered_run db pattern pagination :
  Group_findAll_ordered pattern pagination db
  = limit_offset pagination
      (sort score_desc_id_asc
         match pattern with
         | Some pat => filter (λ g, iLike (g_name g) pat = true) (groups db)
         | None => groups db
         end) db.
Proof. unfold Group_findAll_ordered. by erewrite bind_inr by reflexivity. Qed.

(** The page of [list]. *)
Lemma list_page db name pagination page :
  result (list_ name pagination) db = inr page →
  ∃ rows,
    page = listed db <$> rows
    ∧ rows ⊆+ groups db
    ∧ StronglySorted by_score_then_id rows
    ∧ Z.of_nat (length rows) ≤ limit pagination
    ∧ ∀ n, name = Some n → n ≠ [] → Forall (matches n) rows.
Proof.
  unfold list_. set (where_ := match name with Some n => _ | None => None end).
  unfold result at 1.
  destruct (Group_findAll_ordered where_ pagination db) as [db' [e|rows]] eqn:Hrun.
  { by rewrite (bind_inl _ _ _ _ _ Hrun). }
  rewrite (bind_inr _ _ _ _ _ Hrun), attachMembersCount_run. intros [= <-].
  rewrite Group_findAll_ordered_run in Hrun.
  pose proof (f_equal fst Hrun) as Hfinal.
  rewrite (limit_offset_final db) in Hfinal. simpl in Hfinal. subst db'.
  apply (f_equal snd) in Hrun.
  apply limit_offset_run in Hrun as [Hsub Hlength].
  exists rows. split_and!.
  - rewrite <- list_fmap_compose. apply list_fmap_ext. intros i g _.
    apply with_member_count_format.
  - etrans; [by apply sublist_submseteq|]. rewrite sort_perm.
    destruct where_; [|done]. apply sublist_submseteq, sublist_filter.
  - eapply sublist_StronglySorted; [exact Hsub|apply score_desc_id_asc_sorted].
  - done.
  - intros n -> Hn. apply Forall_forall. intros g Hg.
    apply (elem_of_sublist _ _ _ Hg), elem_of_sort in Hsub.
    unfold where_ in Hsub. destruct n; [done|].
    cbn [truthy_string] in Hsub. by apply list_elem_of_filter in Hsub as [? _].
Qed.

End Counts.
End CountFacts.

(** X7: [attachMembersCount] gives every group it is handed, as
    [memberCount], the number of membership rows of the group, 0 when
    there is none; it changes nothing else of the objects. *)
Theorem attachMembersCount_counts_the_rows `{Services} (db : DB) (groups : list obj) :
  result (GroupService.attachMembersCount groups) db
  = inr (with_member_count db <$> groups).
Proof. unfold result. by rewrite CountFacts.attachMembersCount_run. Qed.

(** X8: a page of [list] holds stored groups, each formatted and with
    the number of its membership rows, in descending order of score and
    ascending order of id among equal scores; it is not longer than
    the limit, and when a name is given every group of the page matches
    the pattern made of it. *)
Theorem list_page_is_ordered_and_counted `{Services} (db : DB)
    (name : option jsstring) (pagination : Pagination) (page : list obj) :
  result (GroupService.list_ name pagination) db = inr page →
  ∃ rows,
    page = listed db <$> rows
    ∧ rows ⊆+ groups db
    ∧ StronglySorted by_score_then_id rows
    ∧ Z.of_nat (length rows) ≤ limit pagination
    ∧ ∀ n, name = Some n → n ≠ [] → Forall (matches n) rows.
Proof. apply CountFacts.list_page. Qed.

Section ListExamples.
Import Examples.

Lemma list_page_is_ordered_and_counted_witness :
  result (GroupService.list_ (Some (lit "h")) (mkPagination 5 0)) two_groups_db
  = inr (listed two_groups_db <$> [high_group; low_group])
  ∧ ∃ rows,
      listed two_groups_db <$> [high_group; low_group] = listed two_groups_db <$> rows
      ∧ rows ⊆+ groups two_groups_db
      ∧ StronglySorted by_score_then_id rows
      ∧ Z.of_nat (length rows) ≤ 5
      ∧ ∀ n, Some (lit "h") = Some n → n ≠ [] → Forall (matches n) rows.
Proof.
  assert (result (GroupService.list_ (Some (lit "h")) (mkPagination 5 0)) two_groups_db
          = inr (listed two_groups_db <$> [high_group; low_group])) as Hpage
    by vm_refl.
  split; [exact Hpage|].
  exact (list_page_is_ordered_and_counted two_groups_db _ _ _ Hpage).
Defined.

End ListExamples.

Module PlayerPageFacts.
Import MonadFacts KeepsFacts SortFacts GroupService.

Section PlayerPages.
Context `{Services}.

Lemma outcome_attachMembersCount db (E : error → Prop) groups :
  outcome (eq db) (λ page, page = with_member_count db <$> groups) E
    (attachMembersCount groups).
Proof.
  intros ? <-. unfold final, result. by rewrite CountFacts.attachMembersCount_run.
Qed.

Lemma slice_length {A} start size (l : list A) :
  0 ≤ start → 0 ≤ size → Z.of_nat (length (slice start (start + size) l)) ≤ size.
Proof.
  intros Hstart Hsize. unfold slice. rewrite length_take.
  rewrite (proj2 (Z.ltb_ge start 0)), (proj2 (Z.ltb_ge (start + size) 0)) by lia.
  lia.
Qed.

Lemma uniqBy_sublist {A K} `{EqDecision K} (f : A → K) (l : list A) :
  uniqBy f l `sublist_of` l.
Proof.
  unfold uniqBy. generalize (@nil K).
  induction l as [|x l IH]; intros seen; [done|]. cbn [uniqBy_aux].
  destruct (bool_decide _); [by apply sublist_cons|by apply sublist_skip].
Qed.

(** The page of [findForPlayer]. *)
Lemma findForPlayer_rows db playerId pagination :
  outcome (eq db)
    (λ page, ∃ rows,
       page = listed db <$> rows
       ∧ StronglySorted by_score rows
       ∧ NoDup (g_id <$> rows)
       ∧ Forall (group_of_player playerId db) rows
       ∧ (0 ≤ offset pagination → 0 ≤ limit pagination →
          Z.of_nat (length rows) ≤ limit pagination))
    (λ _, True) (findForPlayer playerId pagination).
Proof.
  unfold findForPlayer. destruct (negb _); [by apply outcome_throw|].
  eapply outcome_bind; [apply outcome_query|]. intros ? (? & <- & ->).
  eapply outcome_bind.
  { apply (outcome_mapM _ _ (λ _ y, group_of_player playerId db (snd y))).
    intros [m group] (m' & [= -> ->] & [Hplayer Hm]%list_elem_of_filter)%list_elem_of_fmap.
    destruct (find_group _ db) as [group|] eqn:Hgroup; [|by apply outcome_throw].
    apply outcome_ret. simpl.
    apply MutationFacts.head_filter_Some in Hgroup as [Hin Hid].
    split; [done|]. apply list_elem_of_fmap. exists m'. split; [|done].
    unfold m_key. by rewrite Hid, Hplayer. }
  intros memberships Hmemberships%MutationFacts.Forall2_const_r.
  eapply outcome_weaken; [apply outcome_attachMembersCount|].
  intros page ->. set (rows := sort _ _). exists rows. split_and!.
  - rewrite <- list_fmap_compose. apply list_fmap_ext. intros i g _.
    apply CountFacts.with_member_count_format.
  - apply (sort_sorted _ (λ _, True)); [| | |by apply Forall_true];
      unfold by_score; intros; lia.
  - unfold rows. rewrite sort_perm, <- list_fmap_compose.
    apply (sublist_NoDup _
             (g_id ∘ snd <$> uniqBy (λ m : Membership * Group, g_id (snd m))
                               memberships)).
    + apply (PageFacts.uniqBy_NoDup (λ m : Membership * Group, g_id (snd m))).
    + apply fmap_sublist, PageFacts.slice_sublist.
  - apply Forall_forall. intros g Hg%elem_of_sort.
    apply list_elem_of_fmap in Hg as (m & -> & Hm).
    eapply elem_of_sublist in Hm; [|apply PageFacts.slice_sublist].
    rewrite Forall_forall in Hmemberships. apply Hmemberships.
    by apply (elem_of_sublist _ _ _ Hm), uniqBy_sublist.
  - intros Hoffset Hlimit. unfold rows.
    rewrite (Permutation_length (sort_perm _ _)), length_fmap.
    by apply slice_length.
Qed.

End PlayerPages.
End PlayerPageFacts.

(** X9: a page of [findForPlayer] holds groups in which the player has
    a membership row, each formatted and with the number of its rows,
    in descending order of score and none of them twice; with an offset
    and a limit that are not negative the page is not longer than the
    limit. *)
Theorem findForPlayer_page_is_sorted_and_counted `{Services} (db : DB)
    (playerId : Z) (pagination : Pagination) (page : list obj) :
  result (GroupService.findForPlayer playerId pagination) db = inr page →
  ∃ rows,
    page = listed db <$> rows
    ∧ StronglySorted by_score rows
    ∧ NoDup (g_id <$> rows)
    ∧ Forall (group_of_player playerId db) rows
    ∧ (0 ≤ offset pagination → 0 ≤ limit pagination →
       Z.of_nat (length rows) ≤ limit pagination).
Proof.
  intros Hpage.
  destruct (PlayerPageFacts.findForPlayer_rows db playerId pagination db eq_refl)
    as [_ Hrows].
  by rewrite Hpage in Hrows.
Qed.

Section PlayerPageExamples.
Import Examples.

Lemma findForPlayer_page_is_sorted_and_counted_witness :
  result (GroupService.findForPlayer 7 (mkPagination 5 0)) two_groups_db
  = inr (listed two_groups_db <$> [high_group; low_group])
  ∧ ∃ rows,
      listed two_groups_db <$> [high_group; low_group] = listed two_groups_db <$> rows
      ∧ StronglySorted by_score rows
      ∧ NoDup (g_id <$> rows)
      ∧ Forall (group_of_player 7 two_groups_db) rows
      ∧ (0 ≤ 0 → 0 ≤ 5 → Z.of_nat (length rows) ≤ 5).
Proof.
  assert (result (GroupService.findForPlayer 7 (mkPagination 5 0)) two_groups_db
          = inr (listed two_groups_db <$> [high_group; low_group])) as Hpage
    by vm_refl.
  split; [exact Hpage|].
  exact (findForPlayer_page_is_sorted_and_counted two_groups_db _ _ _ Hpage).
Defined.

End PlayerPageExamples.

(** ** Member lists *)

Module MemberRunFacts.
Import MonadFacts KeepsFacts SortFacts MemberListFacts GroupService.

Section MemberRun.
Context `{Services}.

Lemma max_date_upper playerId (l : list Snapshot) t s :
  max_date playerId l = Some t → s ∈ l → s_playerId s = playerId →
  s_createdAt s ≤ t.
Proof.
  revert t. induction l as [|x l IH]; intros t; [by intros _ ?%elem_of_nil|].
  cbn [max_date foldr]. fold (max_date playerId l).
  case_bool_decide as Hx.
  - intros [= <-] [->|Hs]%elem_of_cons Hplayer.
    + destruct (max_date playerId l); simpl; lia.
    + destruct (max_date playerId l) as [t'|] eqn:Ht; simpl.
      * specialize (IH t' eq_refl Hs Hplayer). lia.
      * exfalso. clear IH Hx. induction l as [|y l IH]; [by apply elem_of_nil in Hs|].
        cbn [max_date foldr] in Ht. fold (max_date playerId l) in Ht.
        apply elem_of_cons in Hs as [->|Hs].
        -- by rewrite bool_decide_eq_true_2 in Ht.
        -- case_bool_decide; [done|by apply IH].
  - intros Ht [->|Hs]%elem_of_cons Hplayer; [done|by apply IH].
Qed.

Lemma max_date_attained playerId (l : list Snapshot) :
  Exists (λ s, s_playerId s = playerId) l →
  ∃ s, s ∈ l ∧ s_playerId s = playerId ∧ max_date playerId l = Some (s_createdAt s).
Proof.
  induction l as [|x l IH]; [by intros ?%Exists_nil|].
  intros Hl. cbn [max_date foldr]. fold (max_date playerId l).
  destruct (max_date playerId l) as [t|] eqn:Ht.
  - destruct (decide (Exists (λ s, s_playerId s = playerId) l)) as [Hex|Hno].
    + destruct (IH Hex) as (s & Hs & Hplayer & [= ->]).
      case_bool_decide as Hx.
      * cbn [from_option]. destruct (Z.max_spec (s_createdAt x) (s_createdAt s))
          as [[_ ->]|[_ ->]].
        -- exists s. split; [by right|done].
        -- exists x. split; [by left|done].
      * exists s. split; [by right|done].
    + exfalso. apply Hno. clear IH Hl Hno.
      induction l as [|y l IH]; [done|].
      cbn [max_date foldr] in Ht. fold (max_date playerId l) in Ht.
      case_bool_decide; [by left|right; by apply IH].
  - apply Exists_cons in Hl as [Hx|Hl].
    + rewrite bool_decide_eq_true_2 by done. exists x. split; [by left|done].
    + destruct (IH Hl) as (? & ? & ? & ?). done.
Qed.

(** [mapM] over rows that are read without touching the store. *)
Lemma mapM_defined {A B C} (f : A → option B) (g : A → B → C) (l : list A) db :
  mapM (λ x, y ← defined (f x); mret (g x y)) l db
  = (db, match mapM (λ x, g x <$> f x) l with
         | Some ys => inr ys
         | None => inl TypeError
         end).
Proof.
  induction l as [|x l IH]; [done|]. cbn [mapM].
  destruct (mapM (λ x, g x <$> f x) l) as [ys|] eqn:Hl;
    destruct (f x) as [y|] eqn:Hfx; cbn [fmap option_fmap option_map mbind option_bind mret option_ret].
  - rewrite (bind_inr _ _ db db (g x y)) by done.
    by rewrite (bind_inr _ _ _ _ _ IH).
  - by rewrite (bind_inl _ _ db db TypeError).
  - rewrite (bind_inr _ _ db db (g x y)) by done.
    by rewrite (bind_inl _ _ _ _ _ IH).
  - by rewrite (bind_inl _ _ db db TypeError).
Qed.

Lemma mapM_fmap_option {A B C} (h : A → B) (f : B → option C) (l : list A) :
  mapM f (h <$> l) = mapM (f ∘ h) l.
Proof.
  induction l as [|x l IH]; [done|]. rewrite fmap_cons. cbn [mapM].
  by rewrite IH.
Qed.

(** What [getMembersList] returns. *)
Lemma getMembersList_returns db id members :
  result (getMembersList id) db = inr members →
  ∃ ms,
    players_and_roles db (rows_of_group id db) = Some ms
    ∧ members
      = sort (λ a b, localeCompare (prop_string "role" a) (prop_string "role" b))
          (member_object (experience_map db (p_id ∘ fst <$> ms)) <$> ms).
Proof.
  unfold getMembersList, result. destruct (negb _); [done|].
  erewrite bind_inr by reflexivity.
  destruct (head _) as [group|]; [|done].
  erewrite bind_inr by reflexivity.
  case_bool_decide as Hrows.
  { intros [= <-]. exists []. split; [|done].
    rewrite length_fmap in Hrows. apply nil_length_inv in Hrows.
    unfold players_and_roles, rows_of_group. by rewrite Hrows. }
  unfold mbind at 1, M_bind.
  rewrite (mapM_defined snd (λ m player, (player, m_role (fst m)))).
  rewrite mapM_fmap_option.
  change (mapM _ (filter _ (memberships db)))
    with (players_and_roles db (rows_of_group id db)).
  destruct (players_and_roles db _) as [ms|]; [|done].
  erewrite bind_inr by reflexivity. intros [= <-]. exists ms. split; [done|].
  by rewrite <- list_fmap_compose.
Qed.

Lemma players_and_roles_spec db rows ms :
  players_and_roles db rows = Some ms →
  Forall2 (λ row m, p_id (fst m) = m_playerId row ∧ snd m = m_role row) rows ms.
Proof.
  unfold players_and_roles. intros Hms%mapM_Some.
  eapply Forall2_impl; [exact Hms|]. intros row m. simpl.
  destruct (find_player _ db) as [p|] eqn:Hp; [|done]. intros [= <-].
  by apply MutationFacts.head_filter_Some in Hp as [_ Hp].
Qed.

End MemberRun.
End MemberRunFacts.

(** X10: [getMembersList] lists every membership row of the group once,
    with the id of its player and the role of the row. *)
Theorem getMembersList_lists_every_member `{Services} (db : DB) (id : Z)
    (members : list obj) :
  result (GroupService.getMembersList id) db = inr members →
  id_and_role <$> members
  ≡ₚ (λ row, (Some (m_playerId row), m_role row)) <$> rows_of_group id db.
Proof.
  intros (ms & Hms%MemberRunFacts.players_and_roles_spec & ->)
    %MemberRunFacts.getMembersList_returns.
  rewrite SortFacts.sort_perm, <- list_fmap_compose.
  generalize (experience_map db (p_id ∘ fst <$> ms)). intros experienceMap.
  induction Hms as [|row m rows ms [Hid Hrole] _ IH]; [done|].
  rewrite !fmap_cons, IH. unfold id_and_role at 1. cbn [compose].
  by rewrite MemberListFacts.member_object_id, MemberListFacts.member_object_role,
    Hid, Hrole.
Qed.

Section MemberRowsExamples.
Import Examples.

Lemma getMembersList_lists_every_member_witness :
  result (GroupService.getMembersList 1) small_db = inr small_members
  ∧ id_and_role <$> small_members
    = [(Some 2, lit "leader"); (Some 1, lit "member"); (Some 3, lit "member")]
  ∧ id_and_role <$> small_members
    ≡ₚ (λ row, (Some (m_playerId row), m_role row)) <$> rows_of_group 1 small_db.
Proof.
  assert (result (GroupService.getMembersList 1) small_db = inr small_members)
    as Hmembers by vm_refl.
  split; [exact Hmembers|]. split; [vm_refl|].
  exact (getMembersList_lists_every_member small_db 1 small_members Hmembers).
Defined.

End MemberRowsExamples.

Module ExperienceFacts.
Import MonadFacts SortFacts MemberListFacts MemberRunFacts GroupService.

Section Experience.
Context `{Services}.

(** The entry of the experience map for a listed player that has
    snapshots. *)
Lemma experience_map_latest db (ids : list Z) playerId :
  playerId ∈ ids → has_snapshots playerId db →
  ∃ s, latest_snapshot_of playerId db s
       ∧ experience_map db ids !! playerId = Some (s_overallExperience s).
Proof.
  intros Hid Hsnapshots. unfold experience_map. rewrite lookup_fmap.
  set (rows := sort _ _).
  assert (∀ s, s ∈ rows → s_playerId s = playerId →
               latest_snapshot_of playerId db s) as Hrows.
  { intros s [[_ Hmax] Hs]%elem_of_sort%list_elem_of_filter Hplayer.
    split; [done|]. split; [done|]. intros s' Hs' Hplayer'.
    rewrite Hplayer in Hmax. by apply (max_date_upper playerId (snapshots db)). }
  destruct (keyBy s_playerId rows !! playerId) as [s|] eqn:Hlookup.
  - apply CountFacts.keyBy_lookup_Some in Hlookup as [Hs Hplayer].
    exists s. split; [by apply Hrows|done].
  - exfalso. destruct (max_date_attained playerId (snapshots db) Hsnapshots)
      as (s & Hs & Hplayer & Hmax).
    assert (is_Some (keyBy s_playerId rows !! playerId)) as [? Hsome]; [|congruence].
    apply CountFacts.keyBy_lookup_is_Some, list_elem_of_fmap. exists s.
    split; [done|]. apply elem_of_sort, list_elem_of_filter.
    rewrite Hplayer. by split.
Qed.

Lemma member_object_experience_map experienceMap m :
  member_object experienceMap m !! "overallExperience"
  = Some (VNum (default 0 (experienceMap !! p_id (fst m)))).
Proof.
  unfold member_object. rewrite lookup_insert_eq.
  by change (prop_num "id" _) with (Some (p_id (fst m))).
Qed.

End Experience.
End ExperienceFacts.

(** X11: in the list that [getMembersList] returns, a member whose
    player has snapshots has as [overallExperience] that of a snapshot
    of the player than which none is later. *)
Theorem getMembersList_experience_is_the_latest `{Services} (db : DB) (id : Z)
    (members : list obj) (member : obj) (playerId : Z) :
  result (GroupService.getMembersList id) db = inr members →
  member ∈ members → GroupService.prop_num "id" member = Some playerId →
  has_snapshots playerId db →
  ∃ s, latest_snapshot_of playerId db s
       ∧ member !! "overallExperience" = Some (VNum (s_overallExperience s)).
Proof.
  intros (ms & _ & ->)%MemberRunFacts.getMembersList_returns.
  intros (m & -> & Hm)%SortFacts.elem_of_sort%list_elem_of_fmap.
  rewrite MemberListFacts.member_object_id. intros [= <-] Hsnapshots.
  destruct (ExperienceFacts.experience_map_latest db (p_id ∘ fst <$> ms)
              (p_id (fst m))) as (s & Hs & Hlookup); [|done|].
  { apply list_elem_of_fmap. by exists m. }
  exists s. split; [done|].
  by rewrite ExperienceFacts.member_object_experience_map, Hlookup.
Qed.

Section ExperienceExamples.
Import Examples MoreExamples.

Lemma getMembersList_experience_is_the_latest_witness :
  result (GroupService.getMembersList 1) small_db = inr small_members
  ∧ ann ∈ small_members
  ∧ GroupService.prop_num "id" ann = Some 1
  ∧ has_snapshots 1 small_db
  ∧ snapshots small_db = [mkSnapshot 1 5 1000; mkSnapshot 1 7 2000; mkSnapshot 2 6 3000]
  ∧ ann !! "overallExperience" = Some (VNum 2000)
  ∧ ∃ s, latest_snapshot_of 1 small_db s
         ∧ ann !! "overallExperience" = Some (VNum (s_overallExperience s)).
Proof.
  assert (result (GroupService.getMembersList 1) small_db = inr small_members)
    as Hmembers by vm_refl.
  assert (ann ∈ small_members) as Hann.
  { apply (list_elem_of_lookup_2 _ 1%nat). vm_refl. }
  assert (GroupService.prop_num "id" ann = Some 1) as Hid by vm_refl.
  assert (has_snapshots 1 small_db) as Hsnapshots by vm_decide.
  split; [exact Hmembers|]. split; [exact Hann|]. split; [exact Hid|].
  split; [exact Hsnapshots|]. split; [reflexivity|]. split; [vm_refl|].
  exact (getMembersList_experience_is_the_latest small_db 1 small_members ann 1
           Hmembers Hann Hid Hsnapshots).
Defined.

End ExperienceExamples.


Section MembersExamples.
Import Examples MoreExamples.


End MembersExamples.

(** ** Updates of the members *)

Module OutdatedFacts.
Import MonadFacts GroupService.

Section Outdated.
Context `{Services}.

Lemma getOutdatedMembers_run db groupId :
  groupId ≠ 0 →
  getOutdatedMembers groupId db
  = (db, inr (snd <$> omap (λ m,
                 if bool_decide (m_groupId m = groupId) then
                   p ← find_player (m_playerId m) db;
                   if bool_decide (p_updatedAt p < tenMinsAgo) then Some (m, p) else None
                 else None)
               (memberships db))).
Proof.
  intros Hid. unfold getOutdatedMembers. by rewrite RoleFacts.truthy_num_ne.
Qed.


Lemma elem_of_outdated db groupId player :
  player ∈ snd <$> omap (λ m,
                 if bool_decide (m_groupId m = groupId) then
                   p ← find_player (m_playerId m) db;
                   if bool_decide (p_updatedAt p < tenMinsAgo) then Some (m, p) else None
                 else None)
               (memberships db)
  ↔ outdated_member groupId db player.
Proof.
  unfold outdated_member, rows_of_group, tenMinsAgo. split.
  - intros ([row p] & -> & (m & Hm & Hrow)%list_elem_of_omap)%list_elem_of_fmap.
    case_bool_decide as Hgroup; [|done].
    destruct (find_player _ db) as [p'|] eqn:Hp; [|done]. simpl in Hrow.
    case_bool_decide as Hupdated; [|done]. injection Hrow as <- <-.
    exists m. split; [by apply list_elem_of_filter|]. split; [done|]. simpl. lia.
  - intros (row & [Hgroup Hrow]%list_elem_of_filter & Hp & Hupdated).
    apply list_elem_of_fmap. exists (row, player). split; [done|].
    apply list_elem_of_omap. exists row. split; [done|].
    rewrite bool_decide_eq_true_2, Hp by done. simpl.
    by rewrite bool_decide_eq_true_2 by lia.
Qed.

End Outdated.
End OutdatedFacts.

(** X13: given a group id, [getOutdatedMembers] returns exactly the
    players of the membership rows of the group that were last updated
    more than ten minutes before now. *)
Theorem getOutdatedMembers_are_the_outdated `{Services} (db : DB) (groupId : Z) :
  groupId ≠ 0 →
  ∃ players,
    result (GroupService.getOutdatedMembers groupId) db = inr players
    ∧ ∀ player, player ∈ players ↔ outdated_member groupId db player.
Proof.
  intros Hid. eexists. split.
  - unfold result. by rewrite OutdatedFacts.getOutdatedMembers_run.
  - apply OutdatedFacts.elem_of_outdated.
Qed.

Section OutdatedExamples.
Import Examples MoreExamples.

Lemma getOutdatedMembers_are_the_outdated_witness :
  result (GroupService.getOutdatedMembers 1) stale_db = inr [stale_player]
  ∧ ∃ players,
      result (GroupService.getOutdatedMembers 1) stale_db = inr players
      ∧ ∀ player, player ∈ players ↔ outdated_member 1 stale_db player.
Proof.
  split; [vm_refl|].
  apply (getOutdatedMembers_are_the_outdated stale_db 1). discriminate.
Defined.

End OutdatedExamples.

(** X14: [updateAllMembers] throws a validation error, and runs nothing,
    when the group has no member that is due; otherwise it runs the
    action on the members that are due, one after the other, and
    returns them when every action returned. *)
Theorem updateAllMembers_runs_the_action `{Services} (db : DB) (id : Z)
    (updateAction : Player → M ()) (members : list Player) :
  result (GroupService.getOutdatedMembers id) db = inr members →
  let call := GroupService.updateAllMembers id updateAction in
  (members = [] → refused call db)
  ∧ (members ≠ [] →
     final call db = final (mapM updateAction members) db
     ∧ (returned (result (mapM updateAction members) db) = true →
        result call db = inr members)).
Proof.
  intros Hmembers call. unfold call, GroupService.updateAllMembers.
  destruct (decide (id = 0)) as [->|Hid]; [done|].
  rewrite RoleFacts.truthy_num_ne by done.
  unfold result in Hmembers. rewrite OutdatedFacts.getOutdatedMembers_run in Hmembers
    by done.
  injection Hmembers as Hmembers. unfold refused, result, final.
  erewrite MonadFacts.bind_inr by (by apply OutdatedFacts.getOutdatedMembers_run).
  rewrite Hmembers. split.
  - by intros ->.
  - intros Hsome. rewrite bool_decide_eq_false_2
      by (by intros ?%nil_length_inv).
    destruct (mapM updateAction members db) as [db' [e|done]] eqn:Hrun.
    + by rewrite (MonadFacts.bind_inl _ _ _ _ _ Hrun).
    + by rewrite (MonadFacts.bind_inr _ _ _ _ _ Hrun).
Qed.

Section UpdateExamples.
Import Examples MoreExamples.

Lemma updateAllMembers_runs_the_action_witness :
  result (GroupService.getOutdatedMembers 1) stale_db = inr [stale_player]
  ∧ result (GroupService.updateAllMembers 1 take_snapshot) stale_db = inr [stale_player]
  ∧ snapshots (final (GroupService.updateAllMembers 1 take_snapshot) stale_db)
    = [mkSnapshot 1 5 1000; mkSnapshot 3 6 3000; mkSnapshot 1 1000 0]
  ∧ result (GroupService.getOutdatedMembers 1) small_db = inr []
  ∧ refused (GroupService.updateAllMembers 1 take_snapshot) small_db.
Proof.
  assert (result (GroupService.getOutdatedMembers 1) stale_db = inr [stale_player])
    as Hstale by vm_refl.
  assert (result (GroupService.getOutdatedMembers 1) small_db = inr []) as Hsmall
    by vm_refl.
  pose proof (updateAllMembers_runs_the_action stale_db 1 take_snapshot _ Hstale)
    as [_ Hrun].
  pose proof (updateAllMembers_runs_the_action small_db 1 take_snapshot _ Hsmall)
    as [Hnone _].
  destruct Hrun as [Hfinal Hresult]; [discriminate|].
  split; [exact Hstale|]. split; [by apply Hresult|].
  split; [by rewrite Hfinal|]. split; [exact Hsmall|]. by apply Hnone.
Defined.

End UpdateExamples.

(** ** Statistics *)

Module StatsFacts.
Import MonadFacts MemberRunFacts GroupService.

Section Stats.
Context `{Services}.

(** The entry of a player in the map of the latest snapshots. *)
Lemma latest_lookup db (ids : list Z) (rows : list Snapshot) playerId :
  (∀ s, s ∈ rows ↔
        s ∈ snapshots db
        ∧ s_playerId s ∈ ids
        ∧ max_date (s_playerId s) (snapshots db) = Some (s_createdAt s)) →
  playerId ∈ ids →
  match keyBy s_playerId rows !! playerId with
  | Some s => latest_snapshot_of playerId db s
  | None => ¬ has_snapshots playerId db
  end.
Proof.
  intros Hrows Hid.
  destruct (keyBy s_playerId rows !! playerId) as [s|] eqn:Hlookup.
  - apply CountFacts.keyBy_lookup_Some in Hlookup as [Hs Hplayer].
    apply Hrows in Hs as (Hs & _ & Hmax).
    split; [done|]. split; [done|]. intros s' Hs' Hplayer'.
    rewrite Hplayer in Hmax. by apply (max_date_upper playerId (snapshots db)).
  - intros Hsnapshots.
    destruct (max_date_attained playerId (snapshots db) Hsnapshots)
      as (s & Hs & Hplayer & Hmax).
    assert (is_Some (keyBy s_playerId rows !! playerId)) as [? Hsome]; [|congruence].
    apply CountFacts.keyBy_lookup_is_Some, list_elem_of_fmap. exists s.
    split; [done|]. apply Hrows. by rewrite Hplayer.
Qed.

(** What [getMemberStats] returns. *)
Lemma getMemberStats_returns db id stats :
  result (getMemberStats id) db = inr stats →
  let rows := rows_of_group id db in
  stats
  = omap (λ m, keyBy s_playerId
                 (filter (λ s, s_playerId s ∈ m_playerId <$> rows
                               ∧ max_date (s_playerId s) (snapshots db)
                                 = Some (s_createdAt s))
                    (snapshots db)) !! m_playerId m) rows.
Proof.
  unfold getMemberStats, result. destruct (negb _); [done|].
  erewrite bind_inr by reflexivity.
  destruct (head _) as [group|]; [|done].
  erewrite bind_inr by reflexivity.
  fold (rows_of_group id db).
  case_bool_decide as Hrows.
  { intros [= <-]. apply nil_length_inv in Hrows. by rewrite Hrows. }
  erewrite bind_inr by reflexivity. by intros [= <-].
Qed.

Lemma omap_latest db (ids : list Z) (snapshotMap : gmap Z Snapshot)
    (rows : list Membership) :
  (∀ playerId, playerId ∈ ids →
     match snapshotMap !! playerId with
     | Some s => latest_snapshot_of playerId db s
     | None => ¬ has_snapshots playerId db
     end) →
  Forall (λ m, m_playerId m ∈ ids) rows →
  let stats := omap (λ m, snapshotMap !! m_playerId m) rows in
  s_playerId <$> stats
  = filter (λ playerId, has_snapshots playerId db) (m_playerId <$> rows)
  ∧ Forall (λ s, latest_snapshot_of (s_playerId s) db s) stats.
Proof.
  intros Hmap. induction 1 as [|m rows Hm _ [IHids IHlatest]]; [done|].
  cbn [omap list_omap]. fold (omap (M:=list) (λ m, snapshotMap !! m_playerId m)).
  rewrite fmap_cons, filter_cons. specialize (Hmap _ Hm).
  destruct (snapshotMap !! m_playerId m) as [s|].
  - destruct Hmap as (Hs & Hplayer & Hlatest).
    rewrite decide_True by (apply Exists_exists; by exists s).
    rewrite fmap_cons, Hplayer. split; [by f_equal|].
    constructor; [by rewrite Hplayer|done].
  - by rewrite decide_False.
Qed.


End Stats.
End StatsFacts.

Lemma getMemberStats_latest `{Services} (db : DB) (id : Z) (stats : list Snapshot) :
  result (GroupService.getMemberStats id) db = inr stats →
  s_playerId <$> stats
  = filter (λ playerId, has_snapshots playerId db)
      (m_playerId <$> rows_of_group id db)
  ∧ Forall (λ s, latest_snapshot_of (s_playerId s) db s) stats.
Proof.
  intros ->%StatsFacts.getMemberStats_returns.
  apply (StatsFacts.omap_latest db (m_playerId <$> rows_of_group id db)).
  - intros playerId Hid.
    apply (StatsFacts.latest_lookup db (m_playerId <$> rows_of_group id db));
      [|done].
    intros s. rewrite list_elem_of_filter. tauto.
  - apply Forall_forall. intros m Hm. by apply list_elem_of_fmap_2.
Qed.

(** X15: [getMemberStats] returns, for the membership rows of the group
    whose player has snapshots and in the order of the rows, one
    snapshot of the player each, than which no snapshot of the player
    is later. *)
Theorem getMemberStats_are_the_latest_snapshots `{Services} (db : DB) (id : Z)
    (stats : list Snapshot) :
  result (GroupService.getMemberStats id) db = inr stats →
  s_playerId <$> stats
  = filter (λ playerId, has_snapshots playerId db)
      (m_playerId <$> rows_of_group id db)
  ∧ Forall (λ s, latest_snapshot_of (s_playerId s) db s) stats.
Proof. apply getMemberStats_latest. Qed.

Section StatsExamples.
Import Examples.

Lemma getMemberStats_are_the_latest_snapshots_witness :
  result (GroupService.getMemberStats 1) small_db
  = inr [mkSnapshot 1 7 2000; mkSnapshot 2 6 3000]
  ∧ s_playerId <$> [mkSnapshot 1 7 2000; mkSnapshot 2 6 3000]
    = filter (λ playerId, has_snapshots playerId small_db)
        (m_playerId <$> rows_of_group 1 small_db)
  ∧ Forall (λ s, latest_snapshot_of (s_playerId s) small_db s)
      [mkSnapshot 1 7 2000; mkSnapshot 2 6 3000].
Proof.
  assert (result (GroupService.getMemberStats 1) small_db
          = inr [mkSnapshot 1 7 2000; mkSnapshot 2 6 3000]) as Hstats by vm_refl.
  split; [exact Hstats|].
  exact (getMemberStats_are_the_latest_snapshots small_db 1 _ Hstats).
Defined.

End StatsExamples.

Module StatisticsFacts.
Import MonadFacts KeepsFacts StatsFacts GroupService.

Section Statistics.
Context `{Services}.

Lemma getMemberStats_throws db id e :
  result (getMemberStats id) db = inl e → bad_request e.
Proof.
  unfold getMemberStats, result. destruct (negb _); [by intros [= <-]|].
  erewrite bind_inr by reflexivity.
  destruct (head _) as [group|]; [|by intros [= <-]].
  erewrite bind_inr by reflexivity.
  case_bool_decide; [done|]. by erewrite bind_inr by reflexivity.
Qed.

Lemma filter_length_le {A} (P : A → Prop) `{∀ x, Decision (P x)} (l : list A) :
  (length (filter P l) ≤ length l)%nat.
Proof. apply sublist_length, sublist_filter. Qed.

End Statistics.
End StatisticsFacts.

(** X16: [getStatistics] fails with a validation error for a group none
    of whose members has a snapshot; the two counts of maxed members
    that it returns are at most the number of members that have
    snapshots. *)
Theorem getStatistics_counts_members_with_snapshots `{Services} (db : DB) (id : Z)
    (getCombatLevel getTotalLevel get200msCount : Snapshot → Z)
    (averageStats : list Snapshot → jsval) :
  let call :=
    GroupService.getStatistics getCombatLevel getTotalLevel get200msCount
      averageStats id in
  let with_snapshots :=
    filter (λ playerId, has_snapshots playerId db)
      (m_playerId <$> rows_of_group id db) in
  (with_snapshots = [] → is_BadRequest (result call db))
  ∧ (∀ statistics,
       result call db = inr statistics →
       ∃ maxedCombatCount maxedTotalCount,
         statistics !! "maxedCombatCount" = Some (VNum maxedCombatCount)
         ∧ statistics !! "maxedTotalCount" = Some (VNum maxedTotalCount)
         ∧ 0 ≤ maxedCombatCount ≤ Z.of_nat (length with_snapshots)
         ∧ 0 ≤ maxedTotalCount ≤ Z.of_nat (length with_snapshots)).
Proof.
  intros call with_snapshots. unfold call, GroupService.getStatistics, result.
  destruct (negb _); [done|].
  destruct (GroupService.getMemberStats id db) as [db' [e|stats]] eqn:Hrun.
  { rewrite (MonadFacts.bind_inl _ _ _ _ _ Hrun). split; [|done]. intros _.
    apply (f_equal snd), StatisticsFacts.getMemberStats_throws in Hrun.
    by destruct e. }
  rewrite (MonadFacts.bind_inr _ _ _ _ _ Hrun).
  apply (f_equal snd), getMemberStats_latest in Hrun as [Hids _].
  fold with_snapshots in Hids.
  assert (length stats = length with_snapshots) as Hlength
    by by rewrite <- Hids, length_fmap.
  split.
  - intros Hnone. rewrite Hnone in Hlength. by rewrite bool_decide_eq_true_2.
  - intros statistics. case_bool_decide; [done|]. intros [= <-].
    eexists _, _. split; [done|]. split; [done|]. rewrite <- Hlength.
    pose proof (StatisticsFacts.filter_length_le (λ s, getCombatLevel s = 126) stats).
    pose proof (StatisticsFacts.filter_length_le (λ s, getTotalLevel s = 2277) stats).
    lia.
Qed.

Section StatisticsExamples.
Import Examples MoreExamples.

Lemma getStatistics_counts_members_with_snapshots_witness :
  result (GroupService.getStatistics combat_level total_level (λ _, 0) (λ _, VNull) 1)
    small_db
  = inr (<["maxedCombatCount" := VNum 1]>
         (<["maxedTotalCount" := VNum 0]>
         (<["maxed200msCount" := VNum 0]>
         (<["averageStats" := VNull]> ∅))))
  ∧ filter (λ playerId, has_snapshots playerId small_db)
      (m_playerId <$> rows_of_group 1 small_db) = [1; 2]
  ∧ is_BadRequest
      (result (GroupService.getStatistics combat_level total_level (λ _, 0) (λ _, VNull) 1)
         empty_clan_db).
Proof.
  split; [vm_refl|]. split; [vm_refl|].
  by apply (getStatistics_counts_members_with_snapshots empty_clan_db 1).
Defined.

End StatisticsExamples.

(** ** Creation *)

Module CreateFacts.
Import MonadFacts KeepsFacts UniqueFacts GroupService.

Section Create.
Context `{Services}.

Abbreviation any := (λ _, True).

Section Groups.
Context (stored : list Group).

Abbreviation same_groups := (λ db, groups db = stored).

Lemma groups_findOrCreate username :
  keeps same_groups any (PlayerService.findOrCreate username).
Proof.
  unfold PlayerService.findOrCreate.
  apply keeps_bind_any; [apply keeps_get_any|]. intros db.
  keeps_steps.
Qed.

Lemma groups_findAllOrCreate usernames :
  keeps same_groups any (PlayerService.findAllOrCreate usernames).
Proof. apply keeps_mapM_any, groups_findOrCreate. Qed.

Lemma groups_set_memberships f : keeps same_groups any (modify (set_memberships f)).
Proof. by apply keeps_modify. Qed.

Lemma groups_setMembers group members :
  keeps same_groups any (setMembers group members).
Proof.
  unfold setMembers.
  keeps_steps; first [apply groups_findAllOrCreate|apply groups_set_memberships].
Qed.

End Groups.

Lemma head_filter_Exists {A} (P : A → Prop) `{∀ x, Decision (P x)} (l : list A) :
  Exists P l → is_Some (head (filter P l)).
Proof.
  intros (x & Hx & HP)%Exists_exists.
  destruct (MutationFacts.head_filter_elem_of P l x Hx HP) as [y Hy]. by exists y.
Qed.

Lemma create_name_in_use db name clanChat members :
  name_in_use (sanitized_name name) db →
  outcome (eq db) (λ _, False) bad_request (create name clanChat members).
Proof.
  intros Hname. unfold create. destruct (negb _); [by apply outcome_throw|].
  eapply outcome_bind; [apply outcome_query|]. intros existing (? & <- & ->).
  rewrite bool_decide_eq_true_2; [by apply outcome_throw|].
  by apply head_filter_Exists.
Qed.

Lemma Group_create_run db name clanChat verificationCode verificationHash :
  Group_create name clanChat verificationCode verificationHash db
  = if name_taken (group_seq db) name db then (db, inl DatabaseError)
    else (mkDB (groups db
                ++ [mkGroup (group_seq db) name clanChat 0 false verificationHash None
                      now now])
               (players db) (memberships db) (snapshots db) (group_seq db + 1)
               (player_seq db),
          inr (mkGroup (group_seq db) name clanChat 0 false verificationHash
                 (Some verificationCode) now now)).
Proof.
  unfold Group_create. erewrite bind_inr by reflexivity.
  by destruct (name_taken _ _ db).
Qed.

(** The run of a [create] that returns. *)
Lemma create_returns db name clanChat members group :
  result (create name clanChat members) db = inr group →
  ∃ newMembers,
    let row :=
      mkGroup (group_seq db) (sanitized_name name) (sanitizedClanChat clanChat) 0 false
        (snd generateVerification) None now now in
    groups (final (create name clanChat members) db) = groups db ++ [row]
    ∧ group
      = <["members" := VArr newMembers]>
          (format (mkGroup (group_seq db) (sanitized_name name)
                     (sanitizedClanChat clanChat) 0 false (snd generateVerification)
                     (Some (fst generateVerification)) now now)).
Proof.
  unfold create, result, final. destruct (negb _); [done|].
  erewrite bind_inr by reflexivity.
  destruct (bool_decide (is_Some _)); [done|].
  destruct (from_option _ false members); [done|].
  destruct (negb _); [done|].
  destruct generateVerification as [verificationCode verificationHash].
  destruct (name_taken (group_seq db) (sanitizeName (default [] name)) db) eqn:Htaken.
  { erewrite bind_inl; [done|]. by rewrite Group_create_run, Htaken. }
  erewrite bind_inr by (by rewrite Group_create_run, Htaken).
  destruct members as [members|].
  - set (db1 := mkDB _ _ _ _ _ _). set (created := mkGroup _ _ _ _ _ _ _ _ _).
    pose proof (groups_setMembers (groups db1) (Some created) members db1 eq_refl)
      as [Hgroups _].
    unfold final in Hgroups.
    destruct (setMembers (Some created) members db1) as [db2 [e|newMembers]] eqn:Hrun.
    + by rewrite (bind_inl _ _ _ _ _ Hrun).
    + rewrite (bind_inr _ _ _ _ _ Hrun). intros [= <-].
      exists (VObj <$> newMembers). by split.
  - intros [= <-]. by exists [].
Qed.

End Create.
End CreateFacts.

(** X17: [create] fails with a validation error, and leaves the store as
    it is, when a stored group has the sanitized name; and after a
    [create] that returned, a [create] with a name that sanitizes to the
    same name fails so. *)
Theorem create_refuses_a_name_in_use `{Services} (db : DB)
    (name clanChat : option jsstring) (members : option (list MemberInput)) :
  (name_in_use (sanitized_name name) db →
   refused (GroupService.create name clanChat members) db)
  ∧ (returned (result (GroupService.create name clanChat members) db) = true →
     ∀ name' clanChat' members',
       sanitized_name name' = sanitized_name name →
       refused (GroupService.create name' clanChat' members')
         (final (GroupService.create name clanChat members) db)).
Proof.
  split.
  - intros Hname. by apply VerificationFacts.fails_refused, CreateFacts.create_name_in_use.
  - destruct (result _ db) as [e|group] eqn:Hgroup; [done|]. intros _.
    apply CreateFacts.create_returns in Hgroup as (newMembers & Hgroups & _).
    intros name' clanChat' members' Hname.
    apply VerificationFacts.fails_refused, CreateFacts.create_name_in_use.
    unfold name_in_use. rewrite Hgroups, Hname.
    apply Exists_app. right. by left.
Qed.

Section CreateExamples.
Import Examples.

Lemma create_refuses_a_name_in_use_witness :
  name_in_use (sanitized_name (Some (lit " clan-"))) (final
    (GroupService.create (Some (lit "clan")) None None) empty_clan_db)
  ∧ returned (result (GroupService.create (Some (lit "clan")) None None) empty_clan_db)
    = true
  ∧ refused (GroupService.create (Some (lit " clan-")) None None)
      (final (GroupService.create (Some (lit "clan")) None None) empty_clan_db)
  ∧ refused (GroupService.create (Some (lit "_clan")) (Some (lit "chat")) None)
      (final (GroupService.create (Some (lit "clan")) None None) empty_clan_db).
Proof.
  assert (name_in_use (sanitized_name (Some (lit " clan-")))
            (final (GroupService.create (Some (lit "clan")) None None) empty_clan_db))
    as Hname by vm_decide.
  assert (returned (result (GroupService.create (Some (lit "clan")) None None)
                      empty_clan_db) = true) as Hreturned by vm_refl.
  split; [exact Hname|]. split; [exact Hreturned|]. split.
  - exact (proj1 (create_refuses_a_name_in_use _ _ None None) Hname).
  - apply (proj2 (create_refuses_a_name_in_use empty_clan_db _ None None) Hreturned).
    vm_refl.
Defined.

End CreateExamples.

(** X18: a [create] that returns has stored, after the groups there
    were, a group of the sanitized name with the hash that
    [generateVerification] gave, unverified and with score 0; the record
    it returns has the id and the name of that group and the
    verification code that belongs to the hash. *)
Theorem create_stores_the_group_and_returns_the_code `{Services} (db : DB)
    (name clanChat : option jsstring) (members : option (list MemberInput))
    (group : obj) :
  result (GroupService.create name clanChat members) db = inr group →
  ∃ row,
    groups (final (GroupService.create name clanChat members) db) = groups db ++ [row]
    ∧ g_name row = sanitized_name name
    ∧ g_verificationHash row = snd generateVerification
    ∧ g_score row = 0
    ∧ g_verified row = false
    ∧ group !! "id" = Some (VNum (g_id row))
    ∧ group !! "name" = Some (VStr (g_name row))
    ∧ group !! "verificationCode" = Some (VStr (fst generateVerification)).
Proof.
  intros (newMembers & Hgroups & ->)%CreateFacts.create_returns.
  eexists. split; [exact Hgroups|]. by repeat split.
Qed.

Section CreatedExamples.
Import Examples MoreExamples.

Lemma create_stores_the_group_and_returns_the_code_witness :
  result create_iron_men small_db = inr iron_men
  ∧ iron_men !! "name" = Some (VStr (lit "Iron Men"))
  ∧ iron_men !! "verificationCode" = Some (VStr (lit "123-456-789"))
  ∧ ∃ row,
      groups (final create_iron_men small_db) = groups small_db ++ [row]
      ∧ g_name row = sanitized_name (Some (lit "Iron_Men"))
      ∧ g_verificationHash row = snd generateVerification
      ∧ g_score row = 0
      ∧ g_verified row = false
      ∧ iron_men !! "id" = Some (VNum (g_id row))
      ∧ iron_men !! "name" = Some (VStr (g_name row))
      ∧ iron_men !! "verificationCode" = Some (VStr (fst generateVerification)).
Proof.
  assert (result create_iron_men small_db = inr iron_men) as Hgroup by vm_refl.
  split; [exact Hgroup|]. split; [vm_refl|]. split; [vm_refl|].
  exact (create_stores_the_group_and_returns_the_code small_db _ _ _ _ Hgroup).
Defined.

End CreatedExamples.

(** ** Deletion *)

Module DestroyFacts.
Import MonadFacts KeepsFacts GroupService.

Section Destroy.
Context `{Services}.

Lemma filter_other {A} (key : A → Z) (id id' : Z) (l : list A) :
  id' ≠ id →
  filter (λ x, key x = id') (filter (λ x, key x ≠ id) l) = filter (λ x, key x = id') l.
Proof.
  intros Hne. induction l as [|x l IH]; [done|]. rewrite !filter_cons.
  destruct (decide (key x = id')) as [Hx|Hx].
  - rewrite decide_True by congruence. by rewrite filter_cons_True, IH by done.
  - destruct (decide (key x ≠ id)); [|done]. by rewrite filter_cons_False by done.
Qed.

Lemma filter_same {A} (key : A → Z) (id : Z) (l : list A) :
  filter (λ x, key x = id) (filter (λ x, key x ≠ id) l) = [].
Proof.
  apply MutationFacts.filter_none, Forall_forall.
  by intros x [? _]%list_elem_of_filter.
Qed.

(** The run of a [destroy] that returns. *)
Lemma destroy_returns db id verificationCode name :
  result (destroy id verificationCode) db = inr name →
  id ≠ 0
  ∧ name_of id db = Some name
  ∧ final (destroy id verificationCode) db
    = mkDB (filter (λ g, g_id g ≠ id) (groups db)) (players db)
           (filter (λ m, m_groupId m ≠ id) (memberships db))
           (snapshots db) (group_seq db) (player_seq db).
Proof.
  unfold result, final.
  destruct (destroy id verificationCode db) as [db' [e|name']] eqn:Hrun; [done|].
  cbn [fst snd]. intros [= ->]. revert Hrun. unfold destroy, truthy_num.
  destruct (Z.eqb_spec id 0) as [->|Hid]; [done|]. cbn [negb].
  destruct (negb _); [done|].
  erewrite bind_inr by reflexivity. unfold name_of, find_group.
  destruct (head _) as [group|] eqn:Hgroup; [|done].
  apply MutationFacts.head_filter_Some in Hgroup as [_ <-].
  destruct (negb _); [done|]. erewrite bind_inr by reflexivity.
  by intros [= <- <-].
Qed.

End Destroy.
End DestroyFacts.

(** X19: a [destroy] that returns gives the name that the group had;
    after it [view] of the id fails with a validation error, the group
    has no membership row, and the other groups and their membership
    rows are as they were. *)
Theorem destroy_removes_the_group_and_its_rows `{Services} (db : DB) (id : Z)
    (verificationCode name : jsstring) :
  result (GroupService.destroy id verificationCode) db = inr name →
  let db' := final (GroupService.destroy id verificationCode) db in
  name_of id db = Some name
  ∧ refused (GroupService.view id) db'
  ∧ rows_of_group id db' = []
  ∧ ∀ id', id' ≠ id →
      find_group id' db' = find_group id' db
      ∧ rows_of_group id' db' = rows_of_group id' db.
Proof.
  intros (Hid & Hname & Hfinal)%DestroyFacts.destroy_returns db'.
  unfold db'. rewrite Hfinal. split; [done|].
  unfold refused, result, final, GroupService.view, rows_of_group, find_group.
  rewrite RoleFacts.truthy_num_ne by done.
  erewrite MonadFacts.bind_inr by reflexivity. cbn [groups memberships].
  rewrite !DestroyFacts.filter_same. split; [done|]. split; [done|].
  intros id' Hid'. by rewrite !DestroyFacts.filter_other.
Qed.

Section DestroyExamples.
Import Examples.

Lemma destroy_removes_the_group_and_its_rows_witness :
  result (GroupService.destroy 1 (lit "123-456-789")) big_db = inr (lit "Clan")
  ∧ refused (GroupService.view 1)
      (final (GroupService.destroy 1 (lit "123-456-789")) big_db)
  ∧ rows_of_group 1 (final (GroupService.destroy 1 (lit "123-456-789")) big_db) = [].
Proof.
  assert (result (GroupService.destroy 1 (lit "123-456-789")) big_db
          = inr (lit "Clan")) as Hname by vm_refl.
  destruct (destroy_removes_the_group_and_its_rows big_db 1 _ _ Hname)
    as (_ & Hview & Hrows & _).
  by split.
Defined.

End DestroyExamples.

(** ** Edition *)

Module RenameFacts.
Import MonadFacts KeepsFacts UniqueFacts GroupService.

Section Rename.
Context `{Services}.

Lemma find_group_update id f (l : list Group) :
  (∀ g, g_id (f g) = g_id g) →
  head (filter (λ g, g_id g = id) (update_group id f l))
  = f <$> head (filter (λ g, g_id g = id) l).
Proof.
  intros Hf. unfold update_group. induction l as [|g l IH]; [done|].
  rewrite fmap_cons, !filter_cons. case_bool_decide as Hg.
  - by rewrite !decide_True by (by rewrite ?Hf).
  - by rewrite !decide_False.
Qed.

Lemma find_group_update_other id id' f (l : list Group) :
  (∀ g, g_id (f g) = g_id g) → id' ≠ id →
  head (filter (λ g, g_id g = id') (update_group id f l))
  = head (filter (λ g, g_id g = id') l).
Proof.
  intros Hf Hne. unfold update_group. induction l as [|g l IH]; [done|].
  rewrite fmap_cons, !filter_cons. case_bool_decide as Hg.
  - rewrite !decide_False by (rewrite ?Hf; congruence). apply IH.
  - destruct (decide (g_id g = id')); [done|apply IH].
Qed.

(** The test of the name at the head of [edit]. *)
Lemma name_check_run db id (name : option jsstring) :
  let check : M () :=
    if truthy_opt_string name then
      matchingGroup ← Group_findOne_name (sanitizeName (default [] name));
      match matchingGroup with
      | Some g => if bool_decide (g_id g ≠ id)
                  then name_taken_error (sanitizeName (default [] name)) else mret ()
      | None => mret ()
      end
    else mret () in
  fst (check db) = db.
Proof.
  intros check. unfold check. destruct (truthy_opt_string name); [|done].
  erewrite bind_inr by reflexivity.
  destruct (head _); [|done]. by case_bool_decide.
Qed.

Lemma Group_update_run db group name clanChat :
  Group_update_name_clanChat group name clanChat db
  = let name' := default (g_name group) name in
    let f g := mkGroup (g_id g) name' clanChat (g_score g)
                 (g_verified g) (g_verificationHash g) (g_verificationCode g)
                 (g_createdAt g) now in
    if bool_decide (name' = g_name group ∧ clanChat = g_clanChat group)
    then (db, inr (f group))
    else if from_option (λ n, name_taken (g_id group) n db) false name
    then (db, inl DatabaseError)
    else (set_groups (update_group (g_id group) f) db, inr (f group)).
Proof.
  unfold Group_update_name_clanChat. erewrite bind_inr by reflexivity.
  cbn zeta. case_bool_decide; [done|].
  by destruct (from_option _ false name).
Qed.

(** The run of an [edit] that returns: the row found, the instance as
    it is afterwards, and the stored groups. *)
Lemma edit_returns db id name clanChat verificationCode members group :
  result (edit id name clanChat verificationCode members) db = inr group →
  ∃ stored updated newMembers,
    find_group id db = Some stored
    ∧ group = <["members" := VArr newMembers]> (format updated)
    ∧ let name' :=
        default (g_name stored)
          ((λ n, if truthy_string n then sanitizeName n else n) <$> name) in
      let f g :=
        mkGroup (g_id g) name' (sanitizedClanChat clanChat) (g_score g)
          (g_verified g) (g_verificationHash g) (g_verificationCode g)
          (g_createdAt g) now in
      let db' := final (edit id name clanChat verificationCode members) db in
      if truthy_opt_string name || truthy_opt_string clanChat
      then updated = f stored
           ∧ groups db'
             = (if bool_decide (name' = g_name stored
                                ∧ sanitizedClanChat clanChat = g_clanChat stored)
                then groups db else update_group id f (groups db))
      else updated = stored ∧ groups db' = groups db.
Proof.
  unfold result, final.
  destruct (edit id name clanChat verificationCode members db)
    as [db' [e|group']] eqn:Hrun; [done|].
  cbn [fst snd]. intros [= ->]. revert Hrun. unfold edit.
  destruct (negb _); [done|]. destruct (negb _); [done|].
  destruct (_ && _); [done|].
  pose proof (name_check_run db id name) as Hcheck. cbn zeta in Hcheck.
  match goal with
  | |- (?check ≫= _) db = _ → _ =>
      destruct (check db) as [db1 [e|[]]] eqn:Hrun1
  end.
  { by rewrite (bind_inl _ _ _ _ _ Hrun1). }
  rewrite (bind_inr _ _ _ _ _ Hrun1). cbn [fst] in Hcheck. subst db1. clear Hrun1.
  erewrite bind_inr by reflexivity. unfold find_group.
  destruct (head _) as [stored|] eqn:Hstored; [|done].
  apply MutationFacts.head_filter_Some in Hstored as [_ <-].
  destruct (negb _); [done|].
  match goal with
  | |- (?read ≫= _) db = _ → _ =>
      destruct (read db) as [db2 [e|groupMembers]] eqn:Hrun2
  end.
  { by rewrite (bind_inl _ _ _ _ _ Hrun2). }
  rewrite (bind_inr _ _ _ _ _ Hrun2).
  assert (groups db2 = groups db) as Hgroups.
  { destruct members as [members|].
    - destruct (negb _); [done|].
      pose proof (CreateFacts.groups_setMembers (groups db) (Some stored) members
                    db eq_refl) as [Hgroups _].
      unfold final in Hgroups. by rewrite Hrun2 in Hgroups.
    - erewrite bind_inr in Hrun2 by reflexivity. by injection Hrun2 as <- _. }
  destruct (truthy_opt_string name || truthy_opt_string clanChat).
  - match goal with
    | |- (?update ≫= _) db2 = _ → _ =>
        destruct (update db2) as [db3 [e|updated]] eqn:Hrun3
    end.
    { by rewrite (bind_inl _ _ _ _ _ Hrun3). }
    rewrite (bind_inr _ _ _ _ _ Hrun3). rewrite Group_update_run in Hrun3.
    cbn zeta in Hrun3.
    assert (match name with
            | Some n => Some (if truthy_string n then sanitizeName n else n)
            | None => None
            end = (λ n, if truthy_string n then sanitizeName n else n) <$> name)
      as Hname by by destruct name.
    rewrite Hname in Hrun3. clear Hname. cbn zeta.
    case_bool_decide.
    + injection Hrun3 as <- <-. intros [= <- <-].
      eexists stored, _, (VObj <$> groupMembers). split; [done|]. split; [done|].
      by rewrite bool_decide_eq_true_2.
    + destruct (from_option _ false _); [done|].
      injection Hrun3 as <- <-. intros [= <- <-].
      eexists stored, _, (VObj <$> groupMembers). split; [done|]. split; [done|].
      rewrite bool_decide_eq_false_2 by done.
      cbn [groups set_groups]. by rewrite Hgroups.
  - erewrite bind_inr by reflexivity. intros [= <- <-].
    by eexists stored, stored, (VObj <$> groupMembers).
Qed.

End Rename.
End RenameFacts.

(** X20: after an [edit] with a name that returns, the group has the
    sanitized name, which is also the name of the returned record, and
    the other groups are as they were. *)
Theorem edit_writes_the_sanitized_name `{Services} (db : DB) (id : Z)
    (name : jsstring) (clanChat : option jsstring) (verificationCode : jsstring)
    (members : option (list MemberInput)) (group : obj) :
  name ≠ [] →
  result (GroupService.edit id (Some name) clanChat verificationCode members) db
  = inr group →
  let db' :=
    final (GroupService.edit id (Some name) clanChat verificationCode members) db in
  name_of id db' = Some (sanitizeName name)
  ∧ group !! "name" = Some (VStr (sanitizeName name))
  ∧ ∀ id', id' ≠ id → find_group id' db' = find_group id' db.
Proof.
  intros Hname Hgroup db'.
  destruct (RenameFacts.edit_returns db id (Some name) clanChat verificationCode members
              group Hgroup) as (stored & updated & newMembers & Hstored & -> & Hrun).
  assert (truthy_string name = true) as Htruthy by by destruct name.
  cbn [truthy_opt_string from_option fmap option_fmap option_map orb] in Hrun.
  rewrite Htruthy in Hrun. cbn [orb] in Hrun. destruct Hrun as [-> Hgroups].
  subst db'. unfold name_of, find_group in *. rewrite Hgroups. split_and!.
  - case_bool_decide as Hsame.
    + destruct Hsame as [Hsame _]. rewrite Hstored. cbn in Hsame |- *.
      by rewrite <- Hsame.
    + rewrite RenameFacts.find_group_update by done. by rewrite Hstored.
  - unfold GroupService.format, Group_toJSON. cbn [g_verificationCode g_name].
    by destruct (g_verificationCode stored).
  - intros id' Hid'. case_bool_decide; [done|].
    by apply RenameFacts.find_group_update_other.
Qed.

Section RenameExamples.
Import Examples MoreExamples.

Lemma edit_writes_the_sanitized_name_witness :
  lit "Iron_Men " ≠ []
  ∧ result rename_clan small_db = inr renamed_clan
  ∧ name_of 1 small_db = Some (lit "Clan")
  ∧ sanitizeName (lit "Iron_Men ") = lit "Iron Men"
  ∧ name_of 1 (final rename_clan small_db) = Some (sanitizeName (lit "Iron_Men "))
  ∧ renamed_clan !! "name" = Some (VStr (sanitizeName (lit "Iron_Men "))).
Proof.
  assert (lit "Iron_Men " ≠ []) as Hname by vm_discriminate.
  assert (result rename_clan small_db = inr renamed_clan) as Hgroup by vm_refl.
  split; [exact Hname|]. split; [exact Hgroup|]. split; [vm_refl|]. split; [vm_refl|].
  destruct (edit_writes_the_sanitized_name small_db 1 _ _ _ _ renamed_clan Hname Hgroup)
    as (Hstored & Hreturned & _).
  by split.
Defined.

End RenameExamples.

Module EditViewFacts.
Import MonadFacts GroupService.

Section EditView.
Context `{Services}.

Lemma format_but_updatedAt (g : Group) name clanChat t :
  name = g_name g → clanChat = g_clanChat g →
  same_but_updatedAt (format g)
    (format (mkGroup (g_id g) name clanChat (g_score g) (g_verified g)
               (g_verificationHash g) (g_verificationCode g) (g_createdAt g) t)).
Proof.
  intros -> ->. unfold same_but_updatedAt, format, omit, Group_toJSON.
  cbn [g_id g_name g_clanChat g_score g_verified g_verificationHash
       g_verificationCode g_createdAt g_updatedAt].
  rewrite !(delete_delete _ "updatedAt" "verificationHash").
  destruct (g_verificationCode g);
    rewrite !(delete_insert_ne _ "updatedAt") by done;
    by rewrite !(delete_insert_eq _ "updatedAt").
Qed.

Lemma view_run db id stored :
  id ≠ 0 → find_group id db = Some stored →
  result (view id) db = inr (format stored).
Proof.
  intros Hid Hstored. unfold result, view. rewrite RoleFacts.truthy_num_ne by done.
  erewrite bind_inr by reflexivity.
  unfold find_group in Hstored. by rewrite Hstored.
Qed.

Lemma format_without_members (g : Group) members :
  delete "members" (<["members" := members]> (format g)) = format g.
Proof.
  rewrite delete_insert_eq. apply delete_id.
  unfold format, Group_toJSON. by destruct (g_verificationCode g).
Qed.

Lemma format_updatedAt (g : Group) :
  format g !! "updatedAt" = Some (VDate (g_updatedAt g)).
Proof. unfold format, Group_toJSON. by destruct (g_verificationCode g). Qed.

End EditView.
End EditViewFacts.

(** X21: after an [edit] that returns, [view] of the group returns the
    record that [edit] returned, without its members, but for
    [updatedAt] where [edit] asked for the name and the clan chat that
    the group held already: the record that [edit] returned has the
    time of the call then, and [view] returns what it returned before
    the call. *)
Theorem view_after_edit `{Services} (db : DB) (id : Z)
    (name clanChat : option jsstring) (verificationCode : jsstring)
    (members : option (list MemberInput)) (group : obj) :
  result (GroupService.edit id name clanChat verificationCode members) db = inr group →
  let db' :=
    final (GroupService.edit id name clanChat verificationCode members) db in
  ∃ stored viewed,
    find_group id db = Some stored
    ∧ result (GroupService.view id) db' = inr viewed
    ∧ same_but_updatedAt viewed (delete "members" group)
    ∧ (¬ edit_of_held_values stored name clanChat →
       viewed = delete "members" group)
    ∧ (edit_of_held_values stored name clanChat →
       result (GroupService.view id) db = inr viewed
       ∧ group !! "updatedAt" = Some (VDate now)).
Proof.
  intros Hgroup db'.
  assert (id ≠ 0) as Hid.
  { intros ->. by destruct name, clanChat, members. }
  destruct (RenameFacts.edit_returns db id name clanChat verificationCode members
              group Hgroup) as (stored & updated & newMembers & Hstored & -> & Hrun).
  cbn zeta in Hrun. fold db' in Hrun.
  rewrite EditViewFacts.format_without_members.
  exists stored.
  destruct (truthy_opt_string name || truthy_opt_string clanChat) eqn:Hcall.
  - destruct Hrun as [-> Hgroups]. case_bool_decide as Hsame.
    + exists (GroupService.format stored).
      assert (find_group id db' = Some stored) as Hstored'.
      { unfold find_group in *. by rewrite Hgroups. }
      destruct Hsame as [Hsame_name Hsame_chat].
      split; [done|]. split; [by apply EditViewFacts.view_run|].
      split; [by apply EditViewFacts.format_but_updatedAt|]. split.
      * intros Hnot. destruct Hnot. unfold edit_of_held_values. by rewrite Hcall.
      * intros _. split; [by apply EditViewFacts.view_run|].
        rewrite lookup_insert_ne by done. apply EditViewFacts.format_updatedAt.
    + eexists. split; [done|]. split.
      { apply EditViewFacts.view_run; [done|]. unfold find_group in *.
        rewrite Hgroups, RenameFacts.find_group_update by done.
        by rewrite Hstored. }
      split; [done|]. split; [done|].
      intros (_ & Hsame_name & Hsame_chat). by destruct Hsame.
  - destruct Hrun as [-> Hgroups]. exists (GroupService.format stored).
    assert (find_group id db' = Some stored) as Hstored'.
    { unfold find_group in *. by rewrite Hgroups. }
    split; [done|]. split; [by apply EditViewFacts.view_run|].
    split; [done|]. split; [done|].
    intros (Hcalled & _). by rewrite Hcall in Hcalled.
Qed.

Section ViewExamples.
Import Examples MoreExamples.

Lemma view_after_edit_witness :
  result edit_clan small_db = inr edited_clan
  ∧ result (GroupService.view 1) (final edit_clan small_db)
    = inr (delete "members" edited_clan)
  ∧ result edit_clan_again small_db = inr edited_clan_again
  ∧ result (GroupService.view 1) (final edit_clan_again small_db)
    = result (GroupService.view 1) small_db
  ∧ edited_clan_again !! "updatedAt" = Some (VDate 1000)
  ∧ GroupService.format clan !! "updatedAt" = Some (VDate 10).
Proof.
  assert (result edit_clan small_db = inr edited_clan) as Hgroup by vm_refl.
  assert (result edit_clan_again small_db = inr edited_clan_again) as Hagain
    by vm_refl.
  assert (find_group 1 small_db = Some clan) as Hclan by vm_refl.
  destruct (view_after_edit small_db 1 _ _ _ _ edited_clan Hgroup)
    as (stored & viewed & Hstored & Hview & _ & Hchanged & _).
  destruct (view_after_edit small_db 1 _ _ _ _ edited_clan_again Hagain)
    as (stored' & viewed' & Hstored' & Hview' & _ & _ & Hheld).
  rewrite Hclan in Hstored, Hstored'.
  injection Hstored as <-. injection Hstored' as <-.
  split; [exact Hgroup|]. split.
  { fold edit_clan in Hview. rewrite Hview. f_equal. apply Hchanged.
    intros (_ & _ & Hchat). vm_compute in Hchat. discriminate Hchat. }
  split; [exact Hagain|].
  destruct Hheld as [Hbefore Hstamp].
  { split; [vm_refl|]. split; vm_refl. }
  fold edit_clan_again in Hview'. rewrite Hview', Hbefore.
  split; [done|]. split; [exact Hstamp|]. vm_refl.
Defined.

End ViewExamples.

Module EditNameFacts.
Import MonadFacts KeepsFacts UniqueFacts GroupService.

Section EditName.
Context `{Services}.

Lemma edit_name_of_another db id (name : jsstring) clanChat verificationCode members
    other :
  name ≠ [] →
  head (filter (λ g, g_name g = sanitizeName name) (groups db)) = Some other →
  g_id other ≠ id →
  outcome (eq db) (λ _, False) bad_request
    (edit id (Some name) clanChat verificationCode members).
Proof.
  intros Hname Hother Hid. unfold edit.
  destruct (negb _); [by apply outcome_throw|].
  destruct (negb _); [by apply outcome_throw|].
  destruct (_ && _); [by apply outcome_throw|].
  assert (truthy_opt_string (Some name) = true) as -> by by destruct name.
  eapply outcome_bind with (R' := λ _, False); [|done].
  eapply outcome_bind; [apply outcome_query|]. intros ? (? & <- & ->).
  change (default [] (Some name)) with name.
  rewrite Hother, bool_decide_eq_true_2 by done.
  by apply outcome_throw.
Qed.

(** [edit] without a members list writes to the groups only. *)
Lemma edit_without_members_tables db id name clanChat verificationCode :
  keeps (λ db', players db' = players db ∧ memberships db' = memberships db
                ∧ snapshots db' = snapshots db)
    (λ _, True) (edit id name clanChat verificationCode None).
Proof.
  unfold edit. keeps_steps. unfold Group_update_name_clanChat.
  apply keeps_bind_any; [apply keeps_get_any|]. intros db'. keeps_steps.
Qed.

End EditName.
End EditNameFacts.

(** X22: [edit] with a name whose sanitized form is the name of another
    stored group fails with a validation error and leaves the store as
    it is. *)
Theorem edit_refuses_the_name_of_another_group `{Services} (db : DB) (id : Z)
    (name : jsstring) (clanChat : option jsstring) (verificationCode : jsstring)
    (members : option (list MemberInput)) (other : Group) :
  name ≠ [] →
  head (filter (λ g, g_name g = sanitizeName name) (groups db)) = Some other →
  g_id other ≠ id →
  refused (GroupService.edit id (Some name) clanChat verificationCode members) db.
Proof.
  intros Hname Hother Hid.
  by apply VerificationFacts.fails_refused, (EditNameFacts.edit_name_of_another _ _ _ _ _ _ other).
Qed.

Section EditNameExamples.
Import Examples.

Lemma edit_refuses_the_name_of_another_group_witness :
  head (filter (λ g, g_name g = sanitizeName (lit "_High_")) (groups two_groups_db))
  = Some high_group
  ∧ g_id high_group ≠ 1
  ∧ refused (GroupService.edit 1 (Some (lit "_High_")) None (lit "h1") None)
      two_groups_db.
Proof.
  assert (lit "_High_" ≠ []) as Hname by vm_discriminate.
  assert (head (filter (λ g, g_name g = sanitizeName (lit "_High_"))
                  (groups two_groups_db)) = Some high_group) as Hother by vm_refl.
  assert (g_id high_group ≠ 1) as Hid by discriminate.
  split; [exact Hother|]. split; [exact Hid|].
  exact (edit_refuses_the_name_of_another_group two_groups_db 1 _ None (lit "h1") None
           high_group Hname Hother Hid).
Defined.

End EditNameExamples.

(** X23: an [edit] without a members list writes to the groups only: the
    players, the membership rows and the snapshots are as they were,
    whether it returns or throws. *)
Theorem edit_without_members_writes_groups_only `{Services} (db : DB) (id : Z)
    (name clanChat : option jsstring) (verificationCode : jsstring) :
  let db' := final (GroupService.edit id name clanChat verificationCode None) db in
  players db' = players db
  ∧ memberships db' = memberships db
  ∧ snapshots db' = snapshots db.
Proof.
  by destruct (EditNameFacts.edit_without_members_tables db id name clanChat
                 verificationCode db) as [? _].
Qed.

(** ** Achievements *)

Module AchievementFacts.
Import MonadFacts MemberRunFacts GroupService.

Section Achievements.
Context `{Services}.

Lemma mapM_defined_plain {A B} (f : A → option B) (l : list A) db :
  mapM (λ x, defined (f x)) l db
  = (db, match mapM f l with
         | Some ys => inr ys
         | None => inl TypeError
         end).
Proof.
  induction l as [|x l IH]; [done|]. cbn [mapM].
  destruct (mapM f l) as [ys|] eqn:Hl;
    destruct (f x) as [y|] eqn:Hfx; cbn [mbind option_bind mret option_ret].
  - rewrite (bind_inr _ _ db db y) by done.
    by rewrite (bind_inr _ _ _ _ _ IH).
  - rewrite (bind_inl _ _ db db TypeError) by done. done.
  - rewrite (bind_inr _ _ db db y) by done.
    by rewrite (bind_inl _ _ _ _ _ IH).
  - rewrite (bind_inl _ _ db db TypeError) by done. done.
Qed.

(** What [getAchievements] returns. *)
Lemma getAchievements_returns db groupId pagination returned :
  result (getAchievements groupId pagination) db = inr returned →
  Forall2 (λ (a : Z * obj) o,
             ∃ player, member_player groupId db player ∧ p_id player = fst a
                       ∧ o = <["player" := VObj (player_summary player)]> (snd a))
    (achievementService_findAllForGroup (m_playerId <$> rows_of_group groupId db)
       pagination)
    returned.
Proof.
  unfold getAchievements, result. destruct (negb _); [done|].
  erewrite bind_inr by reflexivity. case_bool_decide; [done|].
  unfold mbind at 1, M_bind. rewrite (mapM_defined_plain snd), mapM_fmap_option.
  fold (rows_of_group groupId db).
  destruct (mapM _ (rows_of_group groupId db)) as [members|] eqn:Hmembers; [|done].
  apply mapM_Some in Hmembers.
  assert (p_id <$> members = m_playerId <$> rows_of_group groupId db) as ->.
  { induction Hmembers as [|row p rows ps Hp _ IH]; [done|].
    rewrite !fmap_cons, IH. f_equal. simpl in Hp.
    by apply MutationFacts.head_filter_Some in Hp as [_ Hp]. }
  rewrite (mapM_defined (λ a : Z * obj, keyBy p_id members !! fst a)
             (λ a p, <["player" := VObj (player_summary p)]> (snd a))).
  destruct (mapM _ _) as [objects|] eqn:Hobjects; [|done]. intros [= <-].
  apply mapM_Some in Hobjects.
  eapply Forall2_impl; [exact Hobjects|]. intros a o. simpl.
  destruct (keyBy p_id members !! fst a) as [p|] eqn:Hp; [|done]. intros [= <-].
  apply CountFacts.keyBy_lookup_Some in Hp as [Hin Hid].
  exists p. split; [|done].
  apply list_elem_of_lookup in Hin as [i Hi].
  destruct (Forall2_lookup_r _ _ _ _ _ Hmembers Hi) as (row & Hrow & Hfound).
  exists row. split; [by eapply list_elem_of_lookup_2|done].
Qed.

End Achievements.
End AchievementFacts.

(** X24: [getAchievements] returns the achievements that the achievement
    service gives for the players of the membership rows of the group,
    in the order it gives them, each with a [player] property that
    holds the id, username, display name and type of the member whose
    id the achievement carries. *)
Theorem getAchievements_attaches_the_member `{Services} (db : DB) (groupId : Z)
    (pagination : Pagination) (achievements : list obj) :
  result (GroupService.getAchievements groupId pagination) db = inr achievements →
  Forall2 (λ (a : Z * obj) o,
             ∃ player, member_player groupId db player ∧ p_id player = fst a
                       ∧ o = <["player" := VObj (player_summary player)]> (snd a))
    (achievementService_findAllForGroup (m_playerId <$> rows_of_group groupId db)
       pagination)
    achievements.
Proof. apply AchievementFacts.getAchievements_returns. Qed.

Section AchievementExamples.
Import Examples MoreExamples.

Lemma getAchievements_attaches_the_member_witness :
  @result (list obj)
    (@GroupService.getAchievements achievement_services 1 (mkPagination 20 0)) small_db
  = inr ((λ player, <["player" := VObj (player_summary player)]> maxed)
           <$> players small_db)
  ∧ Forall2 (λ (a : Z * obj) o,
               ∃ player, member_player 1 small_db player ∧ p_id player = fst a
                         ∧ o = <["player" := VObj (player_summary player)]> (snd a))
      [(1, maxed); (2, maxed); (3, maxed)]
      ((λ player, <["player" := VObj (player_summary player)]> maxed)
         <$> players small_db).
Proof.
  assert (@result (list obj)
            (@GroupService.getAchievements achievement_services 1 (mkPagination 20 0))
            small_db
          = inr ((λ player, <["player" := VObj (player_summary player)]> maxed)
                   <$> players small_db)) as Hreturned by vm_refl.
  split; [exact Hreturned|].
  exact (@getAchievements_attaches_the_member achievement_services small_db 1
           (mkPagination 20 0) _ Hreturned).
Defined.

End AchievementExamples.

(** ** What the score depends on *)

Module ScoreRunFacts.
Import MonadFacts SortFacts MemberListFacts MemberRunFacts GroupService.

Section ScoreRun.
Context `{Services}.

(** The outcome of [getMembersList]. *)
Lemma getMembersList_run db id :
  getMembersList id db
  = (db,
     if negb (truthy_num id) then inl (BadRequestError (lit "Invalid group id.") None) else
     match find_group id db with
     | None =>
         inl (BadRequestError
                (lit "Group of id " ++ Z_to_string id ++ lit " was not found.") None)
     | Some _ =>
         match players_and_roles db (rows_of_group id db) with
         | Some ms =>
             inr (sort (λ a b, localeCompare (prop_string "role" a)
                                 (prop_string "role" b))
                    (member_object (experience_map db (p_id ∘ fst <$> ms)) <$> ms))
         | None => inl TypeError
         end
     end).
Proof.
  unfold getMembersList. destruct (negb _); [done|].
  erewrite bind_inr by reflexivity. unfold find_group.
  destruct (head _) as [group|]; [|done].
  erewrite bind_inr by reflexivity.
  case_bool_decide as Hrows.
  { rewrite length_fmap in Hrows. apply nil_length_inv in Hrows.
    unfold players_and_roles, rows_of_group. by rewrite Hrows. }
  unfold mbind at 1, M_bind.
  rewrite (mapM_defined snd (λ m player, (player, m_role (fst m)))).
  rewrite mapM_fmap_option.
  change (mapM _ (filter _ (memberships db)))
    with (players_and_roles db (rows_of_group id db)).
  destruct (players_and_roles db _) as [ms|]; [|done].
  erewrite bind_inr by reflexivity. by rewrite <- list_fmap_compose.
Qed.

(** The leaders of a member list are the rows of role ['leader']. *)
Lemma leaders_of_members experienceMap (ms : list (Player * jsstring)) :
  length (filter is_leader
            (sort (λ a b, localeCompare (prop_string "role" a) (prop_string "role" b))
               (member_object experienceMap <$> ms)))
  = length (filter (λ m, snd m = lit "leader") ms).
Proof.
  rewrite sort_perm. induction ms as [|m ms IH]; [done|].
  rewrite fmap_cons, !filter_cons.
  destruct (decide (snd m = lit "leader")) as [Hm|Hm].
  - rewrite decide_True by (unfold is_leader; by rewrite member_object_role).
    simpl. by rewrite IH.
  - by rewrite decide_False by (unfold is_leader; by rewrite member_object_role).
Qed.

Lemma calculateScore_run db group :
  result (calculateScore group) db
  = match result (getMembersList (g_id group)) db with
    | inl e => inl e
    | inr members =>
        inr (if bool_decide (length members = 0%nat) then 0 else
             bonus (1 <=? Z.of_nat (length (filter upcoming (competitions_of group)))) 30
               (bonus (1 <=? Z.of_nat (length (filter ongoing (competitions_of group)))) 50
                  (bonus (g_verified group) 100
                     (bonus (truthy_opt_string (g_clanChat group)) 50
                        (bonus (50 <=? Z.of_nat (length members)) 40
                           (bonus (10 <=? Z.of_nat (length members)) 20
                              (bonus (1 <=? Z.of_nat (length (filter is_leader members)))
                                 30 0)))))))
    end.
Proof.
  destruct (result (getMembersList (g_id group)) db) as [e|members] eqn:Hmembers.
  - unfold calculateScore. by rewrite (result_bind_error _ _ _ _ Hmembers).
  - rewrite (ScoreFacts.calculateScore_members _ _ _ Hmembers).
    by rewrite ScoreFacts.averageOverallExp_NaN.
Qed.

Lemma calculateScore_snapshots db group rows :
  result (calculateScore group) (with_snapshots rows db)
  = result (calculateScore group) db.
Proof.
  rewrite !calculateScore_run. unfold result. rewrite !getMembersList_run.
  cbn [snd]. destruct (negb _); [done|].
  change (find_group (g_id group) (with_snapshots rows db))
    with (find_group (g_id group) db).
  destruct (find_group _ db); [|done].
  change (players_and_roles (with_snapshots rows db)
            (rows_of_group (g_id group) (with_snapshots rows db)))
    with (players_and_roles db (rows_of_group (g_id group) db)).
  destruct (players_and_roles db _) as [ms|]; [|done].
  by rewrite !leaders_of_members, !(Permutation_length (sort_perm _ _)), !length_fmap.
Qed.

End ScoreRun.
End ScoreRunFacts.

(** X25: the score that [calculateScore] gives, or the error it throws,
    is the same whatever the snapshots in the store are. *)
Theorem calculateScore_ignores_the_snapshots `{Services} (db : DB) (group : Group)
    (rows : list Snapshot) :
  result (GroupService.calculateScore group) (with_snapshots rows db)
  = result (GroupService.calculateScore group) db.
Proof. apply ScoreRunFacts.calculateScore_snapshots. Qed.

(** ** Refreshed scores *)

Module RefreshFacts.
Import MonadFacts KeepsFacts SortFacts ScoreRunFacts GroupService.

Section Refresh.
Context `{Services}.

Lemma find_group_is_Some id db :
  is_Some (find_group id db) ↔ id ∈ g_id <$> groups db.
Proof.
  unfold find_group. split.
  - intros [g [Hg Hid]%MutationFacts.head_filter_Some].
    apply list_elem_of_fmap. by exists g.
  - intros (g & -> & Hg)%list_elem_of_fmap.
    destruct (MutationFacts.head_filter_elem_of (λ g', g_id g' = g_id g)
                (groups db) g Hg eq_refl) as [g' Hg'].
    by exists g'.
Qed.

(** The score depends on the id, the clan chat and the flag of the group,
    on the ids of the stored groups and on the other tables. *)
Lemma calculateScore_similar db db' g g' :
  same_members db db' → g_id <$> groups db' = g_id <$> groups db →
  g_id g' = g_id g → g_clanChat g' = g_clanChat g → g_verified g' = g_verified g →
  result (calculateScore g') db' = result (calculateScore g) db.
Proof.
  intros (Hplayers & Hmemberships & Hsnapshots) Hids Hid HclanChat Hverified.
  rewrite !calculateScore_run. unfold result. rewrite !getMembersList_run.
  cbn [snd]. unfold competitions_of. rewrite Hid, HclanChat, Hverified.
  destruct (negb _); [done|].
  assert (is_Some (find_group (g_id g) db') ↔ is_Some (find_group (g_id g) db))
    as Hfound by by rewrite !find_group_is_Some, Hids.
  assert (players_and_roles db' (rows_of_group (g_id g) db')
          = players_and_roles db (rows_of_group (g_id g) db)) as ->.
  { unfold players_and_roles, rows_of_group, find_player.
    by rewrite Hplayers, Hmemberships. }
  destruct (find_group (g_id g) db') as [?|], (find_group (g_id g) db) as [?|];
    try done.
  - destruct (players_and_roles db _) as [ms|]; [|done].
    by rewrite !leaders_of_members, !(Permutation_length (sort_perm _ _)), !length_fmap.
  - by destruct (proj1 Hfound).
  - by destruct (proj2 Hfound).
Qed.

Lemma refreshed_ids db0 processed (stored current : list Group) :
  Forall2 (refreshed db0 processed) stored current →
  g_id <$> current = g_id <$> stored.
Proof.
  induction 1 as [|g0 g stored current (Hid & _) _ IH]; [done|].
  by rewrite !fmap_cons, IH, Hid.
Qed.

Lemma NoDup_fmap_unique {A B} (f : A → B) (l : list A) x y :
  NoDup (f <$> l) → x ∈ l → y ∈ l → f x = f y → x = y.
Proof.
  intros Hnodup [i Hi]%list_elem_of_lookup [j Hj]%list_elem_of_lookup Hf.
  assert (i = j) as ->; [|congruence].
  apply (NoDup_lookup _ _ _ (f x) Hnodup); rewrite list_lookup_fmap.
  - by rewrite Hi.
  - by rewrite Hj, Hf.
Qed.

(** One turn of [refreshScores]. *)
Lemma refresh_step db0 processed (x : Group) db db' :
  NoDup (g_id <$> groups db0) → x ∈ groups db0 → g_id x ∉ processed →
  same_members db0 db →
  Forall2 (refreshed db0 processed) (groups db0) (groups db) →
  (newScore ← calculateScore x;
   when_ (negb (newScore =? g_score x)) (Group_update_score x newScore)) db
  = (db', inr ()) →
  same_members db0 db'
  ∧ Forall2 (refreshed db0 (g_id x :: processed)) (groups db0) (groups db').
Proof.
  intros Hnodup Hx Hfresh Hsame Hrows.
  pose proof (calculateScore_similar db0 db x x Hsame
                (refreshed_ids _ _ _ _ Hrows) eq_refl eq_refl eq_refl) as Hscore.
  pose proof (QueryFacts.keeps_final (calculateScore x) db
                (QueryFacts.reads_calculateScore _ x)) as Hfinal.
  unfold result in Hscore. unfold final in Hfinal.
  destruct (calculateScore x db) as [db1 [e|newScore]] eqn:Hrun;
    [by rewrite (bind_inl _ _ _ _ _ Hrun)|].
  rewrite (bind_inr _ _ _ _ _ Hrun). cbn [fst snd] in *. subst db1.
  assert (∀ g0, g0 ∈ groups db0 → g_id g0 = g_id x → g0 = x) as Hunique.
  { intros g0 Hg0 Hid. by apply (NoDup_fmap_unique g_id (groups db0)). }
  destruct (Z.eqb_spec newScore (g_score x)) as [Heq|Hne]; cbn [negb when_].
  - intros [= <-]. split; [done|].
    apply Forall2_same_length_lookup. split; [by eapply Forall2_length|].
    intros i g0 g Hg0 Hg.
    destruct (Forall2_lookup_lr _ _ _ _ _ _ Hrows Hg0 Hg)
      as (Hid & HclanChat & Hverified & Hprocessed & Hsame').
    split_and!; try done.
    + intros [Hidx|Hin]%elem_of_cons; [|by apply Hprocessed].
      assert (g0 = x) as -> by (apply Hunique; [by eapply list_elem_of_lookup_2|done]).
      rewrite (Hsame' Hfresh). unfold result. by rewrite <- Hscore, Heq.
    + intros Hnot. apply Hsame'. intros Hin. apply Hnot. by right.
  - intros [= <-]. split; [done|]. cbn [groups set_groups].
    apply Forall2_same_length_lookup. unfold update_group.
    split; [rewrite length_fmap; by eapply Forall2_length|].
    intros i g0 g' Hg0. rewrite list_lookup_fmap.
    destruct (groups db !! i) as [g|] eqn:Hg; [|done]. intros [= <-].
    destruct (Forall2_lookup_lr _ _ _ _ _ _ Hrows Hg0 Hg)
      as (Hid & HclanChat & Hverified & Hprocessed & Hsame').
    case_bool_decide as Hgx.
    + assert (g0 = x) as ->
        by (apply Hunique; [by eapply list_elem_of_lookup_2|congruence]).
      split_and!; cbn; try done.
      intros Hnot. exfalso. apply Hnot. by left.
    + split_and!; try done.
      * intros [Hidx|Hin]%elem_of_cons; [congruence|by apply Hprocessed].
      * intros Hnot. apply Hsame'. intros Hin. apply Hnot. by right.
Qed.

(** The turns of [refreshScores] for the groups [l]. *)
Lemma refresh_loop db0 (l : list Group) :
  NoDup (g_id <$> groups db0) →
  ∀ processed db db' done,
    NoDup (g_id <$> l) →
    (∀ x, x ∈ l → x ∈ groups db0 ∧ g_id x ∉ processed) →
    same_members db0 db →
    Forall2 (refreshed db0 processed) (groups db0) (groups db) →
    mapM (λ group,
            newScore ← calculateScore group;
            when_ (negb (newScore =? g_score group))
              (Group_update_score group newScore)) l db
    = (db', inr done) →
    same_members db0 db'
    ∧ Forall2 (refreshed db0 (reverse (g_id <$> l) ++ processed)) (groups db0)
        (groups db').
Proof.
  intros Hnodup. induction l as [|x l IH]; intros processed db db' done Hl Hin Hsame Hrows.
  { by intros [= <- <-]. }
  rewrite fmap_cons in Hl. apply NoDup_cons in Hl as [Hx Hl]. cbn [mapM].
  match goal with
  | |- (?step ≫= _) db = _ → _ => destruct (step db) as [db1 [e|[]]] eqn:Hstep
  end.
  { by rewrite (bind_inl _ _ _ _ _ Hstep). }
  rewrite (bind_inr _ _ _ _ _ Hstep).
  destruct (Hin x) as [Hx0 Hfresh]; [by left|].
  destruct (refresh_step db0 processed x db db1) as [Hsame1 Hrows1]; try done.
  match goal with
  | |- (?rest ≫= _) db1 = _ → _ => destruct (rest db1) as [db2 [e|done']] eqn:Hrest
  end.
  { by rewrite (bind_inl _ _ _ _ _ Hrest). }
  rewrite (bind_inr _ _ _ _ _ Hrest). intros [= <- <-].
  rewrite fmap_cons, reverse_cons, <- app_assoc. cbn [app].
  apply (IH (g_id x :: processed) db1 db2 done'); try done.
  intros y Hy. destruct (Hin y) as [Hy0 Hyfresh]; [by right|]. split; [done|].
  intros [Hyx|?]%elem_of_cons; [|done].
  apply Hx. rewrite <- Hyx. by apply list_elem_of_fmap_2.
Qed.

(** After [refreshScores]. *)
Lemma refreshScores_returns db :
  NoDup (g_id <$> groups db) →
  result refreshScores db = inr () →
  let db' := final refreshScores db in
  same_members db db'
  ∧ g_id <$> groups db' = g_id <$> groups db
  ∧ ∀ g, g ∈ groups db' → result (calculateScore g) db' = inr (g_score g).
Proof.
  intros Hnodup. unfold result, final.
  destruct (refreshScores db) as [db' [e|[]]] eqn:Hrun; [done|]. intros _.
  cbn [fst]. revert Hrun. unfold refreshScores, Group_findAll.
  erewrite bind_inr by reflexivity.
  match goal with
  | |- (?loop ≫= _) db = _ → _ => destruct (loop db) as [db1 [e|done]] eqn:Hloop
  end.
  { by rewrite (bind_inl _ _ _ _ _ Hloop). }
  rewrite (bind_inr _ _ _ _ _ Hloop). intros [= <-].
  destruct (refresh_loop db (groups db) Hnodup [] db db1 done) as [Hsame Hrows];
    try done.
  { intros x Hx. split; [done|]. by intros ?%elem_of_nil. }
  { apply Forall2_same_length_lookup. split; [done|].
    intros i g0 g Hg0 Hg. assert (g = g0) as -> by congruence.
    split_and!; try done. by intros ?%elem_of_nil. }
  pose proof (refreshed_ids _ _ _ _ Hrows) as Hids.
  split; [done|]. split; [done|].
  intros g [i Hg]%list_elem_of_lookup.
  destruct (Forall2_lookup_r _ _ _ _ _ Hrows Hg)
    as (g0 & Hg0 & Hid & HclanChat & Hverified & Hprocessed & _).
  pose proof (calculateScore_similar db db1 g0 g Hsame Hids Hid HclanChat Hverified)
    as Hscore.
  unfold result in Hscore. rewrite Hscore.
  apply Hprocessed. rewrite app_nil_r, elem_of_reverse.
  apply list_elem_of_fmap_2. by eapply list_elem_of_lookup_2.
Qed.

End Refresh.
End RefreshFacts.

(** X26: when no two stored groups have the same id, after a
    [refreshScores] that returns the score of every stored group is the
    one that [calculateScore] gives for it; the ids of the groups and
    the players, membership rows and snapshots are as they were. *)
Theorem refreshScores_stores_the_scores `{Services} (db : DB) :
  NoDup (g_id <$> groups db) →
  result GroupService.refreshScores db = inr () →
  let db' := final GroupService.refreshScores db in
  (∀ g, g ∈ groups db' →
        result (GroupService.calculateScore g) db' = inr (g_score g))
  ∧ g_id <$> groups db' = g_id <$> groups db
  ∧ same_members db db'.
Proof.
  intros Hnodup Hrun.
  destruct (RefreshFacts.refreshScores_returns db Hnodup Hrun) as (? & ? & ?).
  by split_and!.
Qed.

Section RefreshExamples.
Import Examples.

Lemma refreshScores_stores_the_scores_witness :
  NoDup (g_id <$> groups big_db)
  ∧ result GroupService.refreshScores big_db = inr ()
  ∧ g_score <$> groups big_db = [0]
  ∧ g_score <$> groups (final GroupService.refreshScores big_db) = [320]
  ∧ ∀ g, g ∈ groups (final GroupService.refreshScores big_db) →
         result (GroupService.calculateScore g) (final GroupService.refreshScores big_db)
         = inr (g_score g).
Proof.
  assert (NoDup (g_id <$> groups big_db)) as Hnodup by vm_decide.
  assert (result GroupService.refreshScores big_db = inr ()) as Hrun by vm_refl.
  split; [exact Hnodup|]. split; [exact Hrun|]. split; [vm_refl|]. split; [vm_refl|].
  exact (proj1 (refreshScores_stores_the_scores big_db Hnodup Hrun)).
Defined.

End RefreshExamples.

(** X27: in a store whose next group id is fresh, after a [create] that
    returns, [view] of the id of the returned record returns that
    record, without its members and its verification code. *)
Theorem view_after_create `{Services} (db : DB) (name clanChat : option jsstring)
    (members : option (list MemberInput)) (group : obj) :
  fresh_group_seq db →
  result (GroupService.create name clanChat members) db = inr group →
  group !! "id" = Some (VNum (group_seq db))
  ∧ result (GroupService.view (group_seq db))
      (final (GroupService.create name clanChat members) db)
    = inr (delete "verificationCode" (delete "members" group)).
Proof.
  intros [Hseq Hfresh] (newMembers & Hgroups & ->)%CreateFacts.create_returns.
  split; [done|].
  unfold result, GroupService.view. rewrite RoleFacts.truthy_num_ne by done.
  erewrite MonadFacts.bind_inr by reflexivity. rewrite Hgroups.
  rewrite filter_app, (MutationFacts.filter_none _ (groups db)) by done.
  rewrite filter_cons_True by done. done.
Qed.

Section CreateViewExamples.
Import Examples MoreExamples.

Lemma view_after_create_witness :
  fresh_group_seq small_db
  ∧ result create_iron_men small_db = inr iron_men
  ∧ iron_men !! "id" = Some (VNum 2)
  ∧ result (GroupService.view 2) (final create_iron_men small_db)
    = inr (delete "verificationCode" (delete "members" iron_men)).
Proof.
  assert (fresh_group_seq small_db) as Hfresh by (split; vm_decide).
  assert (result create_iron_men small_db = inr iron_men) as Hgroup by vm_refl.
  split; [exact Hfresh|]. split; [exact Hgroup|].
  exact (view_after_create small_db _ _ _ iron_men Hfresh Hgroup).
Defined.

End CreateViewExamples.

(** ** The time of the last update *)

Module TouchFacts.
Import MonadFacts KeepsFacts UniqueFacts GroupService.

Section Touch.
Context `{Services}.

Abbreviation any := (λ _, True).

(** A bind that returns: its first computation returned. *)
Lemma bind_returns {A B} (m : M A) (f : A → M B) db db' y :
  (m ≫= f) db = (db', inr y) →
  ∃ db1 x, m db = (db1, inr x) ∧ f x db1 = (db', inr y).
Proof.
  destruct (m db) as [db1 [e|x]] eqn:Hm.
  - by rewrite (bind_inl _ _ _ _ _ Hm).
  - rewrite (bind_inr _ _ _ _ _ Hm). by exists db1, x.
Qed.

Lemma keeps_run {A} (I : DB → Prop) (R : A → Prop) (m : M A) db db' r :
  keeps I R m → I db → m db = (db', r) → I db'.
Proof.
  intros Hm HI Hrun. destruct (Hm db HI) as [HI' _].
  unfold final in HI'. by rewrite Hrun in HI'.
Qed.

Section Groups.
Context (stored : list Group).

Abbreviation same_groups := (λ db, groups db = stored).

Lemma groups_Group_addMembers group newPlayers through :
  keeps same_groups any (Group_addMembers group newPlayers through).
Proof.
  unfold Group_addMembers. apply keeps_bind_any; [apply keeps_get_any|]. intros db.
  assert (∀ rows, keeps same_groups any (Membership_bulkCreate rows)) as Hcreate.
  { intros rows. unfold Membership_bulkCreate.
    apply keeps_bind_any; [apply keeps_get_any|]. intros db'. keeps_steps. }
  keeps_steps; apply Hcreate.
Qed.

Lemma groups_Group_removeMembers group playersToRemove :
  keeps same_groups any (Group_removeMembers group playersToRemove).
Proof.
  unfold Group_removeMembers. apply keeps_bind_any; [apply keeps_get_any|]. intros db.
  keeps_steps.
Qed.

End Groups.

Lemma touch_run db group :
  Group_touch group db
  = (set_groups (update_group (g_id group) (with_updatedAt now)) db, inr ()).
Proof. done. Qed.

Lemma touched db db' id stored :
  find_group id db = Some stored →
  groups db' = update_group id (with_updatedAt now) (groups db) →
  find_group id db' = Some (with_updatedAt now stored).
Proof.
  unfold find_group. intros Hstored ->.
  rewrite RenameFacts.find_group_update by done. by rewrite Hstored.
Qed.

(** The run of an [addMembers] that returns. *)
Lemma addMembers_touches db id verificationCode members returned :
  result (addMembers id verificationCode members) db = inr returned →
  groups (final (addMembers id verificationCode members) db)
  = update_group id (with_updatedAt now) (groups db)
  ∧ is_Some (find_group id db).
Proof.
  unfold result, final.
  destruct (addMembers id verificationCode members db) as [db' [e|returned']] eqn:Hrun;
    [done|].
  cbn [fst snd]. intros _. revert Hrun. unfold addMembers.
  destruct (negb _); [done|]. destruct (negb _); [done|].
  destruct members as [members|]; [|done].
  case_bool_decide; [done|]. destruct (negb _); [done|].
  erewrite bind_inr by reflexivity. unfold find_group.
  destruct (head _) as [group|] eqn:Hgroup; [|done].
  apply MutationFacts.head_filter_Some in Hgroup as [_ <-].
  destruct (negb _); [done|]. erewrite bind_inr by reflexivity.
  intros (db1 & players & Hplayers & Hrun)%bind_returns.
  apply (keeps_run (λ db', groups db' = groups db) _ _ _ _ _
           (CreateFacts.groups_findAllOrCreate _ _) eq_refl) in Hplayers.
  revert Hrun. case_bool_decide; [done|].
  intros (db2 & [] & Hadd & Hrun)%bind_returns.
  apply (keeps_run (λ db', groups db' = groups db) _ _ _ _ _
           (groups_Group_addMembers _ _ _ _) Hplayers) in Hadd.
  apply bind_returns in Hrun as (db3 & [] & Hleaders & Hrun).
  assert (groups db3 = groups db) as Hgroups.
  { revert Hleaders. destruct (negb _); cbn [when_]; [|by intros [= <-]].
    erewrite bind_inr by reflexivity.
    intros Hleaders. by apply (keeps_run (λ db', groups db' = groups db) _ _ _ _ _
             (groups_Group_addMembers _ _ _ _) Hadd) in Hleaders. }
  apply bind_returns in Hrun as (db4 & [] & Htouch & Hrun).
  rewrite touch_run in Htouch. injection Htouch as <-.
  erewrite bind_inr in Hrun by reflexivity. injection Hrun as <- _.
  cbn [groups set_groups]. by rewrite Hgroups.
Qed.

(** The run of a [removeMembers] that returns. *)
Lemma removeMembers_touches db id verificationCode usernames count :
  result (removeMembers id verificationCode usernames) db = inr count →
  groups (final (removeMembers id verificationCode usernames) db)
  = update_group id (with_updatedAt now) (groups db)
  ∧ is_Some (find_group id db).
Proof.
  unfold result, final.
  destruct (removeMembers id verificationCode usernames db) as [db' [e|count']] eqn:Hrun;
    [done|].
  cbn [fst snd]. intros _. revert Hrun. unfold removeMembers.
  destruct (negb _); [done|]. destruct (negb _); [done|].
  destruct usernames as [usernames|]; [|done].
  case_bool_decide; [done|].
  erewrite bind_inr by reflexivity. unfold find_group.
  destruct (head _) as [group|] eqn:Hgroup; [|done].
  apply MutationFacts.head_filter_Some in Hgroup as [_ <-].
  destruct (negb _); [done|]. erewrite bind_inr by reflexivity.
  case_bool_decide; [done|].
  intros (db1 & removed & Hremove & Hrun)%bind_returns.
  apply (keeps_run (λ db', groups db' = groups db) _ _ _ _ _
           (groups_Group_removeMembers _ _ _) eq_refl) in Hremove.
  revert Hrun. destruct (negb _); [done|].
  intros (db2 & [] & Htouch & Hrun)%bind_returns.
  rewrite touch_run in Htouch. injection Htouch as <-. injection Hrun as <- _.
  cbn [groups set_groups]. by rewrite Hremove.
Qed.

(** The run of a [changeRole] that returns. *)
Lemma changeRole_touches db id username role verificationCode returned :
  result (changeRole id username role verificationCode) db = inr returned →
  groups (final (changeRole id username role verificationCode) db)
  = update_group id (with_updatedAt now) (groups db)
  ∧ is_Some (find_group id db).
Proof.
  unfold result, final.
  destruct (changeRole id username role verificationCode db)
    as [db' [e|returned']] eqn:Hrun; [done|].
  cbn [fst snd]. intros _. revert Hrun. unfold changeRole.
  do 4 (destruct (negb _); [done|]).
  erewrite bind_inr by reflexivity. unfold find_group.
  destruct (head _) as [group|] eqn:Hgroup; [|done].
  apply MutationFacts.head_filter_Some in Hgroup as [_ <-].
  destruct (negb _); [done|]. erewrite bind_inr by reflexivity.
  destruct (head _) as [[membership player]|]; [|done].
  case_bool_decide; [done|].
  erewrite bind_inr by reflexivity. erewrite bind_inr by reflexivity.
  by intros [= <- _].
Qed.

End Touch.
End TouchFacts.

(** X28: an [addMembers], a [removeMembers] or a [changeRole] that
    returns leaves the group as it was but for the time of its last
    update, which is now. *)
Theorem membership_changes_touch_the_group `{Services} (db : DB) (id : Z)
    (verificationCode : jsstring) :
  (∀ members,
     let call := GroupService.addMembers id verificationCode members in
     returned (result call db) = true →
     find_group id (final call db) = with_updatedAt now <$> find_group id db
     ∧ is_Some (find_group id db))
  ∧ (∀ usernames,
       let call := GroupService.removeMembers id verificationCode usernames in
       returned (result call db) = true →
       find_group id (final call db) = with_updatedAt now <$> find_group id db
       ∧ is_Some (find_group id db))
  ∧ (∀ username role,
       let call := GroupService.changeRole id username role verificationCode in
       returned (result call db) = true →
       find_group id (final call db) = with_updatedAt now <$> find_group id db
       ∧ is_Some (find_group id db)).
Proof.
  split_and!; intros; subst call;
    destruct (result _ db) as [e|x] eqn:Hrun; try done.
  - apply TouchFacts.addMembers_touches in Hrun as [Hgroups [stored Hstored]].
    rewrite Hstored. split; [|done]. by apply (TouchFacts.touched db).
  - apply TouchFacts.removeMembers_touches in Hrun as [Hgroups [stored Hstored]].
    rewrite Hstored. split; [|done]. by apply (TouchFacts.touched db).
  - apply TouchFacts.changeRole_touches in Hrun as [Hgroups [stored Hstored]].
    rewrite Hstored. split; [|done]. by apply (TouchFacts.touched db).
Qed.

Section TouchExamples.
Import Examples.

Lemma membership_changes_touch_the_group_witness :
  returned (result (GroupService.changeRole 1 (lit "Ann") (lit "leader")
                      (lit "123-456-789")) small_db) = true
  ∧ g_updatedAt <$> find_group 1 small_db = Some 10
  ∧ now = 1000
  ∧ find_group 1 (final (GroupService.changeRole 1 (lit "Ann") (lit "leader")
                           (lit "123-456-789")) small_db)
    = with_updatedAt now <$> find_group 1 small_db.
Proof.
  assert (returned (result (GroupService.changeRole 1 (lit "Ann") (lit "leader")
                              (lit "123-456-789")) small_db) = true) as Hreturned
    by vm_refl.
  split; [exact Hreturned|]. split; [vm_refl|]. split; [reflexivity|].
  destruct (membership_changes_touch_the_group small_db 1 (lit "123-456-789"))
    as (_ & _ & HchangeRole).
  by destruct (HchangeRole (lit "Ann") (lit "leader") Hreturned).
Defined.

End TouchExamples.

(** ** The rows of the other groups *)

Module IsolationFacts.
Import MonadFacts KeepsFacts UniqueFacts GroupService.

Section Isolation.
Context `{Services}.
Context (id : Z) (rows : list Membership).

Abbreviation any := (λ _, True).
Abbreviation elsewhere := (λ db, rows_elsewhere id db = rows).

Lemma elsewhere_set_memberships f :
  (∀ l, filter (λ m, m_groupId m ≠ id) (f l) = filter (λ m, m_groupId m ≠ id) l) →
  keeps elsewhere any (modify (set_memberships f)).
Proof.
  intros Hf. apply keeps_modify. intros db <-.
  unfold rows_elsewhere. cbn [memberships set_memberships]. apply Hf.
Qed.

Lemma filter_elsewhere_filter (P : Membership → Prop) `{∀ m, Decision (P m)}
    (l : list Membership) :
  (∀ m, m_groupId m ≠ id → P m) →
  filter (λ m, m_groupId m ≠ id) (filter P l) = filter (λ m, m_groupId m ≠ id) l.
Proof.
  intros HP. induction l as [|m l IH]; [done|]. rewrite !filter_cons.
  destruct (decide (m_groupId m ≠ id)) as [Hm|Hm].
  - rewrite decide_True by by apply HP. by rewrite filter_cons_True, IH.
  - destruct (decide (P m)); [|done]. by rewrite filter_cons_False.
Qed.

Lemma filter_elsewhere_app (l k : list Membership) :
  Forall (λ m, m_groupId m = id) k →
  filter (λ m, m_groupId m ≠ id) (l ++ k) = filter (λ m, m_groupId m ≠ id) l.
Proof.
  intros Hk. rewrite filter_app, (MutationFacts.filter_none _ k), app_nil_r; [done|].
  eapply Forall_impl; [exact Hk|]. intros m Hm. by intros ?.
Qed.

Lemma elsewhere_destroy_group : keeps elsewhere any (Membership_destroy_group id).
Proof.
  apply elsewhere_set_memberships. intros l. by apply filter_elsewhere_filter.
Qed.

Lemma elsewhere_bulkCreate_ignoreDuplicates new :
  Forall (λ m, m_groupId m = id) new →
  keeps elsewhere any (Membership_bulkCreate_ignoreDuplicates new).
Proof.
  intros Hnew. apply elsewhere_set_memberships.
  induction Hnew as [|r new Hr _ IH]; intros l; [done|]. cbn [foldl].
  rewrite IH. destruct (has_key _ l); [done|].
  apply filter_elsewhere_app. by constructor.
Qed.

Lemma elsewhere_bulkCreate new :
  Forall (λ m, m_groupId m = id) new →
  keeps elsewhere any (Membership_bulkCreate new).
Proof.
  intros Hnew. unfold Membership_bulkCreate.
  apply keeps_bind_any; [apply keeps_get_any|]. intros db.
  case_bool_decide; [|apply keeps_throw].
  apply elsewhere_set_memberships. intros l. by apply filter_elsewhere_app.
Qed.

Lemma elsewhere_update_role membership role :
  m_groupId membership = id →
  keeps elsewhere any (Membership_update_role membership role).
Proof.
  intros Hid. apply elsewhere_set_memberships. intros l.
  induction l as [|m l IH]; [done|]. rewrite fmap_cons, !filter_cons.
  case_bool_decide as Hkey.
  - cbn [m_groupId].
    assert (m_groupId m = id) as Hm by (unfold m_key in Hkey; congruence).
    by rewrite !decide_False by (by intros ?).
  - rewrite IH. by destruct (decide _).
Qed.

Lemma elsewhere_Group_addMembers group newPlayers through :
  g_id group = id →
  keeps elsewhere any (Group_addMembers group newPlayers through).
Proof.
  intros Hid. unfold Group_addMembers.
  apply keeps_bind_any; [apply keeps_get_any|]. intros db.
  keeps_steps.
  - apply elsewhere_bulkCreate, Forall_fmap, Forall_forall. by intros p _.
  - by apply elsewhere_update_role.
Qed.

Lemma elsewhere_Group_removeMembers group playersToRemove :
  g_id group = id →
  keeps elsewhere any (Group_removeMembers group playersToRemove).
Proof.
  intros Hid. unfold Group_removeMembers.
  apply keeps_bind_any; [apply keeps_get_any|]. intros db. keeps_steps.
  apply elsewhere_set_memberships. intros l. apply filter_elsewhere_filter.
  intros m Hm. apply bool_decide_eq_false. intros [Hgroup _]. congruence.
Qed.

Lemma elsewhere_Group_destroy group :
  g_id group = id → keeps elsewhere any (Group_destroy group).
Proof.
  intros Hid. apply keeps_modify. intros db <-.
  unfold rows_elsewhere. cbn [memberships]. rewrite Hid.
  by apply filter_elsewhere_filter.
Qed.

Lemma elsewhere_findAllOrCreate usernames :
  keeps elsewhere any (PlayerService.findAllOrCreate usernames).
Proof.
  apply keeps_mapM_any. intros username. unfold PlayerService.findOrCreate.
  apply keeps_bind_any; [apply keeps_get_any|]. intros db. keeps_steps.
Qed.

Lemma elsewhere_setMembers group members :
  g_id group = id → keeps elsewhere any (setMembers (Some group) members).
Proof.
  intros Hid. unfold setMembers. rewrite Hid.
  apply keeps_bind_any; [keeps_steps|]. intros usernames.
  apply keeps_bind_any; [apply elsewhere_findAllOrCreate|]. intros players.
  eapply keeps_bind.
  { apply (keeps_mapM _ (λ _ row, m_groupId row = id)). intros [i p] _.
    apply keeps_bind_any; [keeps_steps|]. intros m. by apply keeps_ret. }
  intros newMemberships Hnew%MutationFacts.Forall2_const_r.
  apply keeps_bind_any; [apply elsewhere_destroy_group|]. intros _.
  apply keeps_bind_any; [by apply elsewhere_bulkCreate_ignoreDuplicates|]. intros _.
  keeps_steps.
Qed.

(** The lookup of the group, with what follows it in a mutation. *)
Lemma elsewhere_found {A} (rest : option Group → M A) :
  (∀ group, g_id group = id → keeps elsewhere any (rest (Some group))) →
  keeps elsewhere any (rest None) →
  keeps elsewhere any (group ← Group_findOne id; rest group).
Proof.
  intros Hsome Hnone. eapply keeps_bind; [apply keeps_query|].
  intros group (db & _ & ->).
  destruct (head _) as [group|] eqn:Hgroup; [|done].
  apply MutationFacts.head_filter_Some in Hgroup as [_ Hid]. by apply Hsome.
Qed.

Lemma elsewhere_Group_update group name clanChat :
  keeps elsewhere any (Group_update_name_clanChat group name clanChat).
Proof.
  unfold Group_update_name_clanChat.
  apply keeps_bind_any; [apply keeps_get_any|]. intros db. keeps_steps.
Qed.

Lemma elsewhere_edit name clanChat verificationCode members :
  keeps elsewhere any (edit id name clanChat verificationCode members).
Proof.
  unfold edit. do 3 (destruct (_ : bool); [apply keeps_throw|]).
  apply keeps_bind_any; [keeps_steps|]. intros _.
  apply elsewhere_found; [|apply keeps_throw]. intros group Hid.
  keeps_steps; first [by apply elsewhere_setMembers|apply elsewhere_Group_update].
Qed.

Lemma elsewhere_destroy verificationCode :
  keeps elsewhere any (destroy id verificationCode).
Proof.
  unfold destroy. do 2 (destruct (_ : bool); [apply keeps_throw|]).
  apply elsewhere_found; [|apply keeps_throw]. intros group Hid.
  keeps_steps. by apply elsewhere_Group_destroy.
Qed.

Lemma elsewhere_addMembers verificationCode members :
  keeps elsewhere any (addMembers id verificationCode members).
Proof.
  unfold addMembers. do 2 (destruct (_ : bool); [apply keeps_throw|]).
  destruct members as [members|]; [|apply keeps_throw].
  do 2 (destruct (_ : bool); [apply keeps_throw|]).
  apply elsewhere_found; [|apply keeps_throw]. intros group Hid.
  keeps_steps;
    first [apply elsewhere_findAllOrCreate|by apply elsewhere_Group_addMembers].
Qed.

Lemma elsewhere_removeMembers verificationCode usernames :
  keeps elsewhere any (removeMembers id verificationCode usernames).
Proof.
  unfold removeMembers. do 2 (destruct (_ : bool); [apply keeps_throw|]).
  destruct usernames as [usernames|]; [|apply keeps_throw].
  destruct (_ : bool); [apply keeps_throw|].
  apply elsewhere_found; [|apply keeps_throw]. intros group Hid.
  keeps_steps. by apply elsewhere_Group_removeMembers.
Qed.

Lemma elsewhere_changeRole username role verificationCode :
  keeps elsewhere any (changeRole id username role verificationCode).
Proof.
  unfold changeRole. do 4 (destruct (_ : bool); [apply keeps_throw|]).
  apply elsewhere_found; [|apply keeps_throw]. intros group Hid.
  destruct (_ : bool); [apply keeps_throw|].
  eapply keeps_bind; [apply keeps_query|]. intros found (db & _ & ->).
  destruct (head _) as [[membership player]|] eqn:Hfound; [|apply keeps_throw].
  assert (m_groupId membership = id) as Hmembership.
  { assert ((membership, player) ∈ omap (λ m,
                if bool_decide (m_groupId m = id) then
                  p ← find_player (m_playerId m) db;
                  if bool_decide (p_username p = standardize username)
                  then Some (m, p) else None
                else None) (memberships db)) as (m & _ & Hm)%list_elem_of_omap.
    { destruct (omap _ _); [done|]. injection Hfound as ->. by left. }
    case_bool_decide as Hgroup; [|done].
    destruct (find_player _ db); [|done]. simpl in Hm.
    case_bool_decide; [|done]. by injection Hm as <- _. }
  keeps_steps. by apply elsewhere_update_role.
Qed.

End Isolation.

Lemma elsewhere_create `{Services} db name clanChat members :
  rows_elsewhere (group_seq db) (final (create name clanChat members) db)
  = rows_elsewhere (group_seq db) db.
Proof.
  unfold create, final. destruct (negb _); [done|].
  erewrite bind_inr by reflexivity.
  destruct (bool_decide (is_Some _)); [done|].
  destruct (from_option _ false members); [done|].
  destruct (negb _); [done|].
  destruct generateVerification as [verificationCode verificationHash].
  destruct (name_taken (group_seq db) (sanitizeName (default [] name)) db) eqn:Htaken.
  { erewrite bind_inl; [done|]. by rewrite CreateFacts.Group_create_run, Htaken. }
  erewrite bind_inr by (by rewrite CreateFacts.Group_create_run, Htaken).
  destruct members as [members|]; [|done].
  set (db1 := mkDB _ _ _ _ _ _). set (created := mkGroup _ _ _ _ _ _ _ _ _).
  pose proof (elsewhere_setMembers (group_seq db) (rows_elsewhere (group_seq db) db)
                created members eq_refl db1 eq_refl) as [Hrows _].
  unfold final in Hrows.
  destruct (setMembers (Some created) members db1) as [db2 [e|newMembers]] eqn:Hrun.
  - by rewrite (bind_inl _ _ _ _ _ Hrun).
  - by rewrite (bind_inr _ _ _ _ _ Hrun).
Qed.

End IsolationFacts.

(** X29: [edit], [destroy], [addMembers], [removeMembers] and
    [changeRole] of a group, and [setMembers] for it, leave the
    membership rows of every other group as they were, whether they
    return or throw; so does [create] for the groups other than the one
    it makes. *)
Theorem mutations_leave_the_other_groups `{Services} (db : DB) (id : Z) :
  (∀ name clanChat verificationCode members,
     rows_elsewhere id
       (final (GroupService.edit id name clanChat verificationCode members) db)
     = rows_elsewhere id db)
  ∧ (∀ verificationCode,
       rows_elsewhere id (final (GroupService.destroy id verificationCode) db)
       = rows_elsewhere id db)
  ∧ (∀ verificationCode members,
       rows_elsewhere id
         (final (GroupService.addMembers id verificationCode members) db)
       = rows_elsewhere id db)
  ∧ (∀ verificationCode usernames,
       rows_elsewhere id
         (final (GroupService.removeMembers id verificationCode usernames) db)
       = rows_elsewhere id db)
  ∧ (∀ username role verificationCode,
       rows_elsewhere id
         (final (GroupService.changeRole id username role verificationCode) db)
       = rows_elsewhere id db)
  ∧ (∀ group members,
       g_id group = id →
       rows_elsewhere id (final (GroupService.setMembers (Some group) members) db)
       = rows_elsewhere id db)
  ∧ (∀ name clanChat members,
       rows_elsewhere (group_seq db)
         (final (GroupService.create name clanChat members) db)
       = rows_elsewhere (group_seq db) db).
Proof.
  assert (∀ A (m : M A),
            keeps (λ db', rows_elsewhere id db' = rows_elsewhere id db) (λ _, True) m →
            rows_elsewhere id (final m db) = rows_elsewhere id db) as Hkeeps.
  { intros A m Hm. by destruct (Hm db eq_refl). }
  split_and!; intros; try apply IsolationFacts.elsewhere_create; apply Hkeeps.
  - apply IsolationFacts.elsewhere_edit.
  - apply IsolationFacts.elsewhere_destroy.
  - apply IsolationFacts.elsewhere_addMembers.
  - apply IsolationFacts.elsewhere_removeMembers.
  - apply IsolationFacts.elsewhere_changeRole.
  - by apply IsolationFacts.elsewhere_setMembers.
Qed.

Section IsolationExamples.
Import Examples.

Lemma mutations_leave_the_other_groups_witness :
  rows_elsewhere 1 two_groups_db = [mkMembership 7 2 (lit "member")]
  ∧ rows_elsewhere 1
      (final (GroupService.setMembers (Some low_group)
                [mkMemberInput (Some (lit "Zezima")) (Some (lit "leader"));
                 mkMemberInput (Some (lit "Lynx")) None]) two_groups_db)
    = [mkMembership 7 2 (lit "member")]
  ∧ rows_of_group 1
      (final (GroupService.setMembers (Some low_group)
                [mkMemberInput (Some (lit "Zezima")) (Some (lit "leader"));
                 mkMemberInput (Some (lit "Lynx")) None]) two_groups_db)
    = [mkMembership 7 1 (lit "leader"); mkMembership 8 1 (lit "member")].
Proof.
  split; [vm_refl|]. split; [|vm_refl].
  destruct (mutations_leave_the_other_groups two_groups_db 1)
    as (_ & _ & _ & _ & _ & HsetMembers & _).
  by rewrite HsetMembers.
Defined.

End IsolationExamples.

(** ** Added members *)

Module AddFacts.
Import MonadFacts KeepsFacts UniqueFacts TouchFacts GroupService.

Section Add.
Context `{Services}.

Abbreviation any := (λ _, True).

Section Grows.
Context (keys : list (Z * Z)) (stored : list Player).

Lemma grows_findAllOrCreate usernames :
  keeps (grows keys stored) any (PlayerService.findAllOrCreate usernames).
Proof.
  apply keeps_mapM_any. intros username. unfold PlayerService.findOrCreate.
  apply keeps_bind_any; [apply keeps_get_any|]. intros db. keeps_steps.
  apply keeps_modify. intros db' [Hkeys Hstored]. split; [done|].
  cbn [players]. intros p Hp. apply elem_of_app. left. by apply Hstored.
Qed.

Lemma grows_bulkCreate rows :
  keeps (grows keys stored) any (Membership_bulkCreate rows).
Proof.
  unfold Membership_bulkCreate.
  apply keeps_bind_any; [apply keeps_get_any|]. intros db.
  case_bool_decide; [|apply keeps_throw].
  apply keeps_modify. intros db' [Hkeys Hstored]. split; [|done].
  cbn [memberships set_memberships]. rewrite fmap_app.
  intros k Hk. apply elem_of_app. left. by apply Hkeys.
Qed.

Lemma grows_update_role membership role :
  keeps (grows keys stored) any (Membership_update_role membership role).
Proof.
  apply keeps_modify. intros db [Hkeys Hstored]. split; [|done].
  cbn [memberships set_memberships]. rewrite <- list_fmap_compose.
  erewrite list_fmap_ext; [exact Hkeys|].
  intros i m _. simpl. by case_bool_decide.
Qed.

Lemma grows_Group_addMembers group newPlayers through :
  keeps (grows keys stored) any (Group_addMembers group newPlayers through).
Proof.
  unfold Group_addMembers. apply keeps_bind_any; [apply keeps_get_any|]. intros db.
  keeps_steps; first [apply grows_bulkCreate|apply grows_update_role].
Qed.

Lemma grows_Group_touch group : keeps (grows keys stored) any (Group_touch group).
Proof. by apply keeps_modify. Qed.

End Grows.

Lemma grows_key key db : grows [key] [] db ↔ key ∈ m_key <$> memberships db.
Proof.
  split.
  - intros [Hkeys _]. apply Hkeys. by left.
  - intros Hkey. split; [|by intros ? ?%elem_of_nil].
    by intros ? ->%list_elem_of_singleton.
Qed.

Lemma grows_player player db : grows [] [player] db ↔ player ∈ players db.
Proof.
  split.
  - intros [_ Hstored]. apply Hstored. by left.
  - intros Hplayer. split; [by intros ? ?%elem_of_nil|].
    by intros ? ->%list_elem_of_singleton.
Qed.

(** The players that [findAllOrCreate] returns. *)
Lemma findAllOrCreate_returns usernames db db1 found :
  PlayerService.findAllOrCreate usernames db = (db1, inr found) →
  memberships db1 = memberships db
  ∧ Forall2 (λ u p, p ∈ players db1 ∧ p_username p = standardize u) usernames found.
Proof.
  unfold PlayerService.findAllOrCreate.
  revert db found. induction usernames as [|u us IH]; intros db found.
  { intros [= <- <-]. split; [done|constructor]. }
  cbn [mapM]. intros (db2 & p & Hp & Hrest)%bind_returns.
  apply bind_returns in Hrest as (db3 & ps & Hps & Hret).
  injection Hret as <- <-.
  destruct (IH _ _ Hps) as [Hmemberships Hfound].
  assert (p ∈ players db2 ∧ p_username p = standardize u
          ∧ memberships db2 = memberships db) as (Hin & Husername & Hsame).
  { revert Hp. unfold PlayerService.findOrCreate.
    erewrite bind_inr by reflexivity.
    destruct (head _) as [q|] eqn:Hq.
    - intros [= <- <-].
      by apply MutationFacts.head_filter_Some in Hq as [? ?].
    - erewrite bind_inr by reflexivity. intros [= <- <-]. cbn [players memberships].
      split; [|done]. apply elem_of_app. right. by left. }
  split; [congruence|]. constructor; [|done]. split; [|done].
  apply grows_player.
  eapply (keeps_run _ any _ db2 db3);
    [apply (grows_findAllOrCreate [] [p] us)|by apply grows_player|exact Hps].
Qed.

(** The players that [group.addMembers] was given have a row when it
    returns. *)
Lemma Group_addMembers_returns group newPlayers db db' :
  Group_addMembers group newPlayers None db = (db', inr ()) →
  ∀ p, p ∈ newPlayers → (g_id group, p_id p) ∈ m_key <$> memberships db'.
Proof.
  unfold Group_addMembers. erewrite bind_inr by reflexivity.
  intros (db1 & [] & Hcreate & Hret)%bind_returns. injection Hret as <-.
  intros p Hp. revert Hcreate.
  destruct (has_key (g_id group, p_id p) (memberships db)) eqn:Hkey.
  - intros Hcreate.
    apply grows_key.
    eapply (keeps_run _ any _ db db1);
      [apply keeps_when, grows_bulkCreate| |exact Hcreate].
    unfold has_key in Hkey. apply bool_decide_eq_true in Hkey. by apply grows_key.
  - assert (p ∈ filter (λ p, has_key (g_id group, p_id p) (memberships db) = false)
                newPlayers) as Hunassociated by by apply list_elem_of_filter.
    rewrite bool_decide_eq_false_2
      by (intros Hnil; rewrite Hnil in Hunassociated; by apply elem_of_nil in Hunassociated).
    cbn [negb when_]. unfold Membership_bulkCreate.
    erewrite bind_inr by reflexivity. case_bool_decide; [|done].
    intros [= <-]. cbn [memberships set_memberships]. rewrite fmap_app.
    apply elem_of_app. right. rewrite <- list_fmap_compose.
    apply list_elem_of_fmap. by exists p.
Qed.

(** The ids that [addMembers] takes for existing are those of rows. *)
Lemma existingIds_rows db group pid :
  pid ∈ p_id ∘ fst <$>
    omap (λ m, if bool_decide (m_groupId m = g_id group)
               then p ← find_player (m_playerId m) db; Some (p, m)
               else None)
      (memberships db) →
  (g_id group, pid) ∈ m_key <$> memberships db.
Proof.
  intros ([p row] & -> & (m & Hm & Hrow)%list_elem_of_omap)%list_elem_of_fmap.
  case_bool_decide as Hgroup; [|done].
  destruct (find_player _ db) as [q|] eqn:Hq; [|done]. injection Hrow as <- <-.
  apply MutationFacts.head_filter_Some in Hq as [_ Hq].
  apply list_elem_of_fmap. exists m. split; [|done]. unfold m_key. simpl.
  by rewrite Hgroup, Hq.
Qed.

(** After an [addMembers] that returns. *)
Lemma addMembers_returns db id verificationCode members returned :
  result (addMembers id verificationCode (Some members)) db = inr returned →
  let db' := final (addMembers id verificationCode (Some members)) db in
  Forall (is_member id db') members
  ∧ m_key <$> memberships db ⊆ m_key <$> memberships db'.
Proof.
  unfold result, final.
  destruct (addMembers id verificationCode (Some members) db)
    as [db' [e|returned']] eqn:Hrun; [done|].
  cbn [fst snd]. intros _. revert Hrun. unfold addMembers.
  destruct (negb _); [done|]. destruct (negb _); [done|].
  case_bool_decide; [done|].
  case_bool_decide as Husernames; [|done]. cbn [negb].
  erewrite bind_inr by reflexivity.
  destruct (head _) as [group|] eqn:Hgroup; [|done].
  apply MutationFacts.head_filter_Some in Hgroup as [_ <-].
  destruct (negb _); [done|]. erewrite bind_inr by reflexivity.
  intros (db1 & found & Hfound & Hrun)%bind_returns.
  apply findAllOrCreate_returns in Hfound as [Hmemberships Hfound].
  revert Hrun. case_bool_decide; [done|].
  intros (db2 & [] & Hadd & Hrun)%bind_returns.
  apply bind_returns in Hrun as (db3 & [] & Hleaders & Hrun).
  apply bind_returns in Hrun as (db4 & [] & Htouch & Hrun).
  erewrite bind_inr in Hrun by reflexivity. injection Hrun as <- _.
  assert (∀ keys stored, grows keys stored db1 → grows keys stored db4) as Hgrows.
  { intros keys stored Hdb1.
    eapply (keeps_run _ any _ db3 db4); [apply grows_Group_touch| |exact Htouch].
    eapply (keeps_run _ any _ db2 db3); [| |exact Hleaders].
    { apply keeps_when. apply keeps_bind_any; [apply keeps_query_any|].
      intros allMembers. apply grows_Group_addMembers. }
    eapply (keeps_run _ any _ db1 db2); [apply grows_Group_addMembers| |exact Hadd].
    done. }
  assert (∀ keys stored, grows keys stored db2 → grows keys stored db4) as Hgrows2.
  { intros keys stored Hdb2.
    eapply (keeps_run _ any _ db3 db4); [apply grows_Group_touch| |exact Htouch].
    eapply (keeps_run _ any _ db2 db3); [| |exact Hleaders]; [|done].
    apply keeps_when. apply keeps_bind_any; [apply keeps_query_any|].
    intros allMembers. apply grows_Group_addMembers. }
  split.
  - apply Forall_forall. intros m [i Hm]%list_elem_of_lookup.
    assert (((λ m, default [] (in_username m)) <$> members) !! i
            = Some (default [] (in_username m))) as Hu
      by by rewrite list_lookup_fmap, Hm.
    destruct (Forall2_lookup_l _ _ _ _ _ Hfound Hu) as (p & Hp & Hin & Husername).
    assert (truthy_opt_string (in_username m) = true) as Htruthy.
    { apply list_elem_of_lookup_2 in Hm. revert Hm. clear -Husernames.
      induction members as [|x l IH]; [by intros ?%elem_of_nil|].
      rewrite filter_cons in Husernames.
      destruct (decide (truthy_opt_string (in_username x) = true)) as [Hx|Hx].
      - simpl in Husernames. intros [->|Hm]%elem_of_cons; [done|].
        apply IH; [lia|done].
      - pose proof (sublist_length _ _
                      (sublist_filter (λ m, truthy_opt_string (in_username m) = true) l)).
        simpl in Husernames. lia. }
    destruct (in_username m) as [u|] eqn:Hin_username; [|done].
    apply list_elem_of_lookup_2 in Hp.
    exists p. split_and!.
    + by apply grows_player, Hgrows, grows_player.
    + by rewrite Hin_username, Husername.
    + destruct (decide (p_id p ∈ p_id ∘ fst <$>
                  omap (λ m, if bool_decide (m_groupId m = g_id group)
                             then p ← find_player (m_playerId m) db; Some (p, m)
                             else None) (memberships db))) as [Hexisting|Hnew].
      * apply existingIds_rows in Hexisting.
        apply grows_key, Hgrows, grows_key. by rewrite Hmemberships.
      * apply grows_key, Hgrows2, grows_key.
        apply (Group_addMembers_returns group _ db1 db2 Hadd).
        by apply list_elem_of_filter.
  - destruct (Hgrows (m_key <$> memberships db) []) as [Hkeys _]; [|done].
    split; [by rewrite Hmemberships|by intros ? ?%elem_of_nil].
Qed.

End Add.
End AddFacts.

(** X30: after an [addMembers] that returns, every entry of the list
    names a stored player with a membership row in the group, and every
    (group, player) pair that had a row has one still. *)
Theorem addMembers_adds_and_keeps_the_members `{Services} (db : DB) (id : Z)
    (verificationCode : jsstring) (members : list MemberInput) (returned : list obj) :
  result (GroupService.addMembers id verificationCode (Some members)) db
  = inr returned →
  let db' := final (GroupService.addMembers id verificationCode (Some members)) db in
  Forall (is_member id db') members
  ∧ m_key <$> memberships db ⊆ m_key <$> memberships db'.
Proof. apply AddFacts.addMembers_returns. Qed.

Section AddExamples.
Import Examples MoreExamples.

Lemma addMembers_adds_and_keeps_the_members_witness :
  result add_new_and_old small_db = inr added
  ∧ m_key <$> memberships small_db = [(1, 1); (1, 2); (1, 3)]
  ∧ m_key <$> memberships (final add_new_and_old small_db)
    = [(1, 1); (1, 2); (1, 3); (1, 4)]
  ∧ Forall (is_member 1 (final add_new_and_old small_db)) new_and_old
  ∧ m_key <$> memberships small_db
    ⊆ m_key <$> memberships (final add_new_and_old small_db).
Proof.
  assert (result add_new_and_old small_db = inr added) as Hadded by vm_refl.
  split; [exact Hadded|]. split; [vm_refl|]. split; [vm_refl|].
  exact (addMembers_adds_and_keeps_the_members small_db 1 _ _ added Hadded).
Defined.

End AddExamples.
